(** * ebiten-exercises: a shallow embedding of the demos and their properties

    The repository is a set of independent demos on the ebiten engine:
    basic-input (sprites), two polygon demos, a shapes demo, connect-lines
    (blocks), starfield (stars) and a turn counter.  Each demo owns one
    [Game] value; the engine calls [Update] and then [Draw] once per frame.

    Go's [int] is modelled as [Z] with 64-bit two's-complement wrap-around
    written out, slices of pointers as lists of records (the demos build
    every entity with its own allocation), run-time panics as a result
    type, and floating-point values as terms over the operations the code
    applies to them.

    Part I holds the definitions, Part II the lemmas and theorems, Part
    III further properties of the demos. *)

From Stdlib Require Import ZArith QArith Lia String DecimalString.
From stdpp Require Import base tactics option list strings.

Local Open Scope Z_scope.

(** * Part I: definitions *)

(** ** Go integers *)

Module GoInt.

Definition int_min : Z := - 2 ^ 63.
Definition int_max : Z := 2 ^ 63 - 1.

(** The value an [int] holds after an arithmetic result [z]. *)
Definition wrap (z : Z) : Z := (z + 2 ^ 63) mod 2 ^ 64 - 2 ^ 63.

Definition add (a b : Z) : Z := wrap (a + b).
Definition sub (a b : Z) : Z := wrap (a - b).
Definition mul (a b : Z) : Z := wrap (a * b).

(** [a / b] and [a % b] on [int] truncate towards zero. *)
Definition quot (a b : Z) : Z := wrap (Z.quot a b).
Definition rem (a b : Z) : Z := Z.rem a b.

(** [uint16(z)] *)
Definition uint16 (z : Z) : Z := z mod 2 ^ 16.

Definition is_int (z : Z) : Prop := int_min <= z <= int_max.

(** The nearest value to [v] in the interval from [lo] to [hi]. *)
Definition clamp (lo hi v : Z) : Z := Z.max lo (Z.min hi v).

(** [strconv.Itoa] *)
Definition Itoa (z : Z) : string := NilZero.string_of_int (Z.to_int z).

End GoInt.

Export GoInt.

(** ** Run-time panics *)

Inductive panic : Type :=
| IndexOutOfRange
| DivideByZero
| MakeLenOutOfRange.

Inductive result (A : Type) : Type :=
| Ok (a : A)
| Panic (p : panic).

Arguments Ok {A} a.
Arguments Panic {A} p.

#[global] Instance result_ret : MRet result := fun A a => Ok a.
#[global] Instance result_bind : MBind result :=
  fun A B f m => match m with Ok a => f a | Panic p => Panic p end.

(** An [if c { body }] statement on a state. *)
Definition when {S : Type} (c : bool) (body : S -> result S) (s : S) : result S :=
  if c then body s else Ok s.

(** [for i := 0; i < n; i++ { body }] on a state; [for_from k i] runs [k]
    iterations starting at counter [i]. *)
Fixpoint for_from {S : Type} (k : nat) (i : Z) (body : Z -> S -> result S) (s : S)
  : result S :=
  match k with
  | O => Ok s
  | Datatypes.S k' => s' ← body i s; for_from k' (i + 1) body s'
  end.

Definition for_lt {S : Type} (n : Z) (body : Z -> S -> result S) (s : S) : result S :=
  for_from (Z.to_nat n) 0 body s.

(** ** Errors *)

Inductive error : Type :=
| ErrCleanExit
| EngineError (msg : string).

#[global] Instance error_eq_dec : EqDecision error.
Proof. solve_decision. Defined.

(** [errors.Is(err, target)] on errors that wrap nothing. *)
Definition errors_Is (err target : error) : bool := bool_decide (err = target).

(** How a [main] ends: by returning (exit status 0) after printing the
    given lines, or through [log.Fatal] (exit status 1). *)
Inductive Exit : Type :=
| Return (stdout : list string)
| Fatal (e : error).

Definition exit_status (e : Exit) : Z :=
  match e with Return _ => 0 | Fatal _ => 1 end.

(** What every [main] except that of the turns demo does with the result
    of [ebiten.RunGame]:
    [if err != nil { if errors.Is(err, ErrCleanExit) { fmt.Println("Good bye!"); return }; log.Fatal(err) }]. *)
Definition farewell (r : option error) : Exit :=
  match r with
  | Some err =>
      if errors_Is err ErrCleanExit then Return ["Good bye!"%string] else Fatal err
  | None => Return []
  end.

(** ** Slices *)

Definition len {A : Type} (s : list A) : Z := Z.of_nat (length s).

Definition in_range {A : Type} (s : list A) (i : Z) : bool :=
  (0 <=? i) && (i <? len s).

(** The largest allocation of the Go runtime, in bytes, on the 64-bit
    platforms whose [int] this file takes. *)
Definition maxAlloc : Z := 2 ^ 48.

(** [make([]A, n)] for elements of [size] bytes: the runtime panics when
    the length is negative or the slice would exceed the largest
    allocation. *)
Definition make {A : Type} (size n : Z) (zero : A) : result (list A) :=
  if (n <? 0) || (size * n >? maxAlloc) then Panic MakeLenOutOfRange
  else Ok (replicate (Z.to_nat n) zero).

(** [s[i]] as a read. *)
Definition index {A : Type} (s : list A) (i : Z) : result A :=
  if in_range s i then
    match s !! Z.to_nat i with
    | Some a => Ok a
    | None => Panic IndexOutOfRange
    end
  else Panic IndexOutOfRange.

(** [s[i] = a] *)
Definition store {A : Type} (s : list A) (i : Z) (a : A) : result (list A) :=
  if in_range s i then Ok (<[Z.to_nat i := a]> s) else Panic IndexOutOfRange.

(** [s[i].m(...)] for a slice of pointers: the element is changed in place
    by [m]. *)
Definition update {A : Type} (m : A -> A) (s : list A) (i : Z) : result (list A) :=
  if in_range s i then Ok (alter m (Z.to_nat i) s) else Panic IndexOutOfRange.

(** [s[:n]] *)
Definition slice_to {A : Type} (s : list A) (n : Z) : result (list A) :=
  if (0 <=? n) && (n <=? len s) then Ok (take (Z.to_nat n) s)
  else Panic IndexOutOfRange.

(** The selection loop the demos share:
    [for i := len(s) - 1; i >= 0; i-- { if s[i].In(cx, cy) { ...; break } }].
    [topmost hit s n] runs it from [i = n - 1] downwards and returns the
    index at which the body fired, if any. *)
Fixpoint topmost {A : Type} (hit : A -> bool) (s : list A) (n : nat) : option nat :=
  match n with
  | O => None
  | S i =>
      match s !! i with
      | Some a => if hit a then Some i else topmost hit s i
      | None => topmost hit s i
      end
  end.

(** ** Floating point

    A [float32] or [float64] value is the term of the operations that
    produced it.  No rounding is assumed. *)

Inductive float : Type :=
| F64_of_int (z : Z)
| F32_of_int (z : Z)
| F32_of_f64 (a : float)
| Fconst (q : Q)
| Fpi
| Fneg (a : float)
| Fadd (a b : float)
| Fsub (a b : float)
| Fmul (a b : float)
| Fdiv (a b : float)
| Fcos (a : float)
| Fsin (a : float).

(** Integers of magnitude up to [2^53] are exact in [float64]. *)
Definition exact_int (z : Z) : Prop := - 2 ^ 53 <= z <= 2 ^ 53.

(** The value of a term built from integer conversions, constants,
    negation, sums, differences, products and quotients, as a real-number
    expression.  A [float64] operation returns that value only when it is
    representable: so it is for the integers of magnitude up to [2^53]
    ([exact_int]) and their halves, which is where the theorems on
    drawing use [Fvalue].  On other terms (the constant 0.05, a quotient
    of colour components) the program holds the rounded value, and only
    order comparisons that rounding preserves are drawn from [Fvalue]. *)
Fixpoint Fvalue (a : float) : option Q :=
  match a with
  | F64_of_int z => Some (inject_Z z)
  | Fconst q => Some q
  | Fneg a => q ← Fvalue a; Some (Qopp q)
  | Fadd a b => p ← Fvalue a; q ← Fvalue b; Some (Qplus p q)
  | Fsub a b => p ← Fvalue a; q ← Fvalue b; Some (Qminus p q)
  | Fmul a b => p ← Fvalue a; q ← Fvalue b; Some (Qmult p q)
  | Fdiv a b => p ← Fvalue a; q ← Fvalue b;
                if Qeq_bool q 0 then None else Some (Qdiv p q)
  | _ => None
  end.

(** ** Colours and images *)

Module color.

Record RGBA : Type := mkRGBA { R : Z; G : Z; B : Z; A : Z }.

(** The [color.Color] values the demos use. *)
Inductive Color : Type :=
| OfRGBA (c : RGBA)
| White.

End color.

(** ** The engine's interface *)

Module ebiten.

(** An image is read through [Size] and [At] only. *)
Record Image : Type := mkImage {
  Size : Z * Z;
  At : Z -> Z -> color.RGBA
}.

Inductive Key : Type :=
| KeyUp | KeyDown | KeyLeft | KeyRight
| KeyW | KeyA | KeyS | KeyD
| KeyQ | KeyE | KeyF | KeySpace | KeyEscape.

Inductive MouseButton : Type :=
| MouseButtonLeft | MouseButtonRight.

#[global] Instance Key_eq_dec : EqDecision Key.
Proof. solve_decision. Defined.

#[global] Instance MouseButton_eq_dec : EqDecision MouseButton.
Proof. solve_decision. Defined.

(** What the polling functions answer during one frame:
    [ebiten.IsKeyPressed], [inpututil.IsKeyJustPressed],
    [inpututil.IsMouseButtonJustPressed] and [ebiten.CursorPosition]. *)
Record Input : Type := mkInput {
  IsKeyPressed : Key -> bool;
  IsKeyJustPressed : Key -> bool;
  IsMouseButtonJustPressed : MouseButton -> bool;
  CursorPosition : Z * Z
}.

Record Vertex : Type := mkVertex {
  DstX : float; DstY : float;
  SrcX : float; SrcY : float;
  ColorR : float; ColorG : float; ColorB : float; ColorA : float
}.

(** The operations applied to a [GeoM], in call order. *)
Inductive GeoOp : Type :=
| Translate (tx ty : float)
| Rotate (theta : float).

(** The calls a [Draw] makes on the screen, in call order.  The colour of
    [DrawImage] stands for [ColorM.Scale(colorScale(clr))]. *)
Inductive DrawCall : Type :=
| DebugPrint (str : string)
| DrawImage (img : Image) (GeoM : list GeoOp) (clr : option color.Color)
| DrawLine (x1 y1 x2 y2 : float) (clr : color.Color).

(** [ebiten.RunGame] on the frames the engine delivers: each frame calls
    [Update], returns its error if there is one, and calls [Draw]
    otherwise; when the frames end the window was closed and the result is
    [nil]. *)
Fixpoint RunGame {G : Type} (Update : Input -> G -> result (G * option error))
  (Draw : G -> result (list DrawCall)) (frames : list Input) (g : G)
  : result (G * option error) :=
  match frames with
  | [] => Ok (g, None)
  | i :: rest =>
      r ← Update i g;
      match snd r with
      | Some e => Ok (fst r, Some e)
      | None => _ ← Draw (fst r); RunGame Update Draw rest (fst r)
      end
  end.

End ebiten.

(** ** Edge detection of the engine's input utilities

    [inpututil] counts, per key, the consecutive frames it has been down
    and reports a key as just pressed in the frame in which the count
    is 1. *)

Module inpututil.

Definition tick (pressed : bool) (duration : nat) : nat :=
  if pressed then S duration else O.

Definition IsKeyJustPressed (duration : nat) : bool := Nat.eqb duration 1.

(** The per-frame answers for frames that differ in the space key only:
    [levels] tells, frame by frame, whether space is down; [d] is the
    count before the first frame. *)
Fixpoint frames (d : nat) (levels : list bool) : list ebiten.Input :=
  match levels with
  | [] => []
  | b :: rest =>
      let d' := tick b d in
      ebiten.mkInput
        (fun k => if decide (k = ebiten.KeySpace) then b else false)
        (fun k => if decide (k = ebiten.KeySpace) then IsKeyJustPressed d' else false)
        (fun _ => false)
        (0, 0)
      :: frames d' rest
  end.

End inpututil.

(** ** Where a draw call puts an image

    [GeoM_apply ops p] is the screen point of the image point [p] under the
    operations [ops]; it is defined for translations by exact amounts and
    for a rotation by zero. *)

Definition GeoOp_apply (op : ebiten.GeoOp) (p : Q * Q) : option (Q * Q) :=
  match op with
  | ebiten.Translate tx ty =>
      a ← Fvalue tx; b ← Fvalue ty; Some (Qplus (fst p) a, Qplus (snd p) b)
  | ebiten.Rotate theta =>
      t ← Fvalue theta; if Qeq_bool t 0 then Some p else None
  end.

Fixpoint GeoM_apply (ops : list ebiten.GeoOp) (p : Q * Q) : option (Q * Q) :=
  match ops with
  | [] => Some p
  | op :: rest => q ← GeoOp_apply op p; GeoM_apply rest q
  end.

(** Screen point [(sx, sy)] shows an opaque pixel of the image drawn by
    [call]. *)
Definition opaque_on_screen (call : ebiten.DrawCall) (sx sy : Z) : Prop :=
  match call with
  | ebiten.DrawImage img ops _ =>
      exists px py q,
        GeoM_apply ops (inject_Z px, inject_Z py) = Some q /\
        Qeq (fst q) (inject_Z sx) /\ Qeq (snd q) (inject_Z sy) /\
        0 < color.A (ebiten.At img px py)
  | _ => False
  end.

(** ** basic-input: sprites moved by the arrow keys *)

Module BasicInput.
Import ebiten.

Definition translateFactor : Z := 10.
Definition screenWidth : Z := 640.
Definition screenHeight : Z := 480.

Record Sprite : Type := mkSprite {
  id : string;
  img : Image;
  x : Z;
  y : Z
}.

Definition Sprite_In (s : Sprite) (cx cy : Z) : bool :=
  0 <? color.A (At (img s) (sub cx (x s)) (sub cy (y s))).

Definition Sprite_MoveBy (s : Sprite) (dx dy : Z) : Sprite :=
  let '(w, h) := Size (img s) in
  let x1 := add (x s) dx in
  let y1 := add (y s) dy in
  let x2 := if x1 <? 0 then 0 else x1 in
  let x3 := if x2 >? sub screenWidth w then sub screenWidth w else x2 in
  let y2 := if y1 <? 0 then 0 else y1 in
  let y3 := if y2 >? sub screenHeight h then sub screenHeight h else y2 in
  mkSprite (id s) (img s) x3 y3.

Definition Sprite_Draw (s : Sprite) (dx dy : Z) : DrawCall :=
  DrawImage (img s)
    [Translate (F64_of_int (add (x s) dx)) (F64_of_int (add (y s) dy))] None.

Record Game : Type := mkGame {
  s : list Sprite;
  activeSprite : Z
}.

(** [g.s[g.activeSprite].MoveBy(dx, dy)] *)
Definition moveActive (dx dy : Z) (g : Game) : result Game :=
  s' ← update (fun sp => Sprite_MoveBy sp dx dy) (s g) (activeSprite g);
  Ok (mkGame s' (activeSprite g)).

(** The body of the left-button branch. *)
Definition selectAt (c : Z * Z) (g : Game) : result Game :=
  match topmost (fun sp => Sprite_In sp (fst c) (snd c)) (s g) (length (s g)) with
  | Some i => Ok (mkGame (s g) (Z.of_nat i))
  | None => Ok g
  end.

Definition Game_Update (i : Input) (g : Game) : result (Game * option error) :=
  g ← when (IsKeyPressed i KeyUp) (moveActive 0 (- translateFactor)) g;
  g ← when (IsKeyPressed i KeyDown) (moveActive 0 translateFactor) g;
  g ← when (IsKeyPressed i KeyLeft) (moveActive (- translateFactor) 0) g;
  g ← when (IsKeyPressed i KeyRight) (moveActive translateFactor 0) g;
  g ← when (IsMouseButtonJustPressed i MouseButtonLeft)
        (selectAt (CursorPosition i)) g;
  if IsKeyPressed i KeyEscape then Ok (g, Some ErrCleanExit) else Ok (g, None).

Definition Game_Draw (g : Game) : result (list DrawCall) :=
  a ← index (s g) (activeSprite g);
  Ok (DebugPrint ("Active sprite: " +:+ id a)
      :: map (fun sp => Sprite_Draw sp 0 0) (s g)).

(** [main]; [file] is what [ebitenutil.NewImageFromFile] returned. *)
Definition main (file : Image + error) (frames : list Input) : result Exit :=
  match file with
  | inr err => Ok (Fatal err)
  | inl img =>
      let g := mkGame [mkSprite "0" img 0 0; mkSprite "1" img 100 100] 0 in
      r ← RunGame Game_Update Game_Draw frames g;
      Ok (farewell (snd r))
  end.

End BasicInput.

(** ** Polygon vertices

    The two [genPolygon] functions have the same body and differ only in
    the colour components [cr cg cb ca] stored in every vertex. *)

Module Fan.
Import ebiten.

Definition zeroVertex : Vertex :=
  mkVertex (Fconst 0) (Fconst 0) (Fconst 0) (Fconst 0)
           (Fconst 0) (Fconst 0) (Fconst 0) (Fconst 0).

(** The vertex stored at [vs[i]] by the first loop. *)
Definition rimVertex (cr cg cb ca : float) (radius num i : Z) : Vertex :=
  let rate := Fdiv (F64_of_int i) (F64_of_int num) in
  let angle := Fmul (Fmul (Fconst 2) Fpi) rate in
  mkVertex
    (Fadd (F32_of_f64 (Fmul (F64_of_int radius) (Fcos angle))) (F32_of_int radius))
    (Fadd (F32_of_f64 (Fmul (F64_of_int radius) (Fsin angle))) (F32_of_int radius))
    (Fconst 0) (Fconst 0) cr cg cb ca.

(** The vertex stored at [vs[len(vs)-1]]. *)
Definition centerVertex (cr cg cb ca : float) (radius : Z) : Vertex :=
  mkVertex (F32_of_int radius) (F32_of_int radius) (Fconst 0) (Fconst 0) cr cg cb ca.

(** [append(indices, uint16(i), uint16(i+1)%uint16(num), uint16(num))] *)
Definition appendTriangle (num i : Z) (indices : list Z) : result (list Z) :=
  if uint16 num =? 0 then Panic DivideByZero
  else Ok (indices ++ [uint16 i; Z.rem (uint16 (add i 1)) (uint16 num); uint16 num]).

(** An [ebiten.Vertex] is eight [float32] fields. *)
Definition Vertex_size : Z := 32.

(** The statements up to [vs[len(vs)-1] = ...]. *)
Definition vertices (cr cg cb ca : float) (radius num : Z) : result (list Vertex) :=
  vs ← make Vertex_size (add num 1) zeroVertex;
  vs ← for_lt num (fun i vs => store vs i (rimVertex cr cg cb ca radius num i)) vs;
  store vs (sub (len vs) 1) (centerVertex cr cg cb ca radius).

(** The loop that fills [indices]. *)
Definition fanIndices (num : Z) : result (list Z) :=
  for_lt num (appendTriangle num) [].

Definition genPolygon (cr cg cb ca : float) (radius num : Z)
  : result (list Vertex * list Z) :=
  vs ← vertices cr cg cb ca radius num;
  indices ← fanIndices num;
  Ok (vs, indices).

End Fan.

(** ** polygon-making: polygons moved, rotated and cycled through *)

Module PolygonMaking.
Import ebiten.

Definition translateFactor : Z := 10.
Definition rotateFactor : float := Fconst (5 # 100).
Definition screenWidth : Z := 640.
Definition screenHeight : Z := 480.

(** What [img.DrawTriangles(vs, indices, emptyImage, dto)] leaves in an
    image that was empty: the engine's rasterizer, read through [At]. *)
Definition Rasterizer : Type :=
  list Vertex -> list Z -> option color.Color -> Z -> Z -> color.RGBA.

Definition genTriangle (width height : Z) : list Vertex * list Z :=
  ([ mkVertex (Fconst 0) (F32_of_int height) (Fconst 0) (Fconst 0)
              (Fconst 1) (Fconst 1) (Fconst 1) (Fconst 1);
     mkVertex (Fdiv (F32_of_int width) (Fconst 2)) (Fconst 0) (Fconst 0) (Fconst 0)
              (Fconst 1) (Fconst 1) (Fconst 1) (Fconst 1);
     mkVertex (F32_of_int width) (F32_of_int height) (Fconst 0) (Fconst 0)
              (Fconst 1) (Fconst 1) (Fconst 1) (Fconst 1) ],
   [0; 1; 2]).

Definition genPolygon (radius num : Z) : result (list Vertex * list Z) :=
  Fan.genPolygon (Fconst 1) (Fconst 1) (Fconst 1) (Fconst 1) radius num.

Record Polygon : Type := mkPolygon {
  id : string;
  x : Z;
  y : Z;
  radius : Z;
  theta : float;
  img : Image
}.

Definition NewPolygon (raster : Rasterizer) (id : string) (x y : Z) (theta : float)
  (radius sides : Z) (clr : color.Color) : result Polygon :=
  vi ← (if sides =? 3 then Ok (genTriangle (mul radius 2) (mul radius 2))
        else genPolygon radius sides);
  Ok (mkPolygon id x y radius theta
        (mkImage (mul radius 2, mul radius 2) (raster (fst vi) (snd vi) (Some clr)))).

Definition Polygon_In (p : Polygon) (cx cy : Z) : bool :=
  0 <? color.A (At (img p) (add (sub cx (x p)) (radius p))
                           (add (sub cy (y p)) (radius p))).

Definition Polygon_MoveBy (p : Polygon) (dx dy : Z) : Polygon :=
  let x1 := add (x p) dx in
  let y1 := add (y p) dy in
  let x2 := if x1 <? add 0 (radius p) then add 0 (radius p) else x1 in
  let x3 := if x2 >? sub screenWidth (radius p) then sub screenWidth (radius p) else x2 in
  let y2 := if y1 <? add 0 (radius p) then add 0 (radius p) else y1 in
  let y3 := if y2 >? sub screenHeight (radius p) then sub screenHeight (radius p) else y2 in
  mkPolygon (id p) x3 y3 (radius p) (theta p) (img p).

Definition Polygon_Draw (p : Polygon) : DrawCall :=
  let '(w, h) := Size (img p) in
  DrawImage (img p)
    [Translate (Fdiv (Fneg (F64_of_int w)) (Fconst 2))
               (Fdiv (Fneg (F64_of_int h)) (Fconst 2));
     Rotate (theta p);
     Translate (F64_of_int (x p)) (F64_of_int (y p))] None.

Record Game : Type := mkGame {
  fullscreen : bool;
  p : list Polygon;
  activePolygon : Z
}.

Definition moveActive (dx dy : Z) (g : Game) : result Game :=
  p' ← update (fun q => Polygon_MoveBy q dx dy) (p g) (activePolygon g);
  Ok (mkGame (fullscreen g) p' (activePolygon g)).

(** [g.p[g.activePolygon].theta = f(g.p[g.activePolygon].theta)] *)
Definition rotateActive (f : float -> float) (g : Game) : result Game :=
  p' ← update (fun q => mkPolygon (id q) (x q) (y q) (radius q) (f (theta q)) (img q))
        (p g) (activePolygon g);
  Ok (mkGame (fullscreen g) p' (activePolygon g)).

(** [g.activePolygon = (g.activePolygon + 1) % len(g.p)] *)
Definition nextActive (g : Game) : result Game :=
  if len (p g) =? 0 then Panic DivideByZero
  else Ok (mkGame (fullscreen g) (p g) (rem (add (activePolygon g) 1) (len (p g)))).

(** [g.fullscreen = !g.fullscreen]; the engine's full-screen state is set
    to the new value. *)
Definition toggleFullscreen (g : Game) : result Game :=
  Ok (mkGame (negb (fullscreen g)) (p g) (activePolygon g)).

Definition selectAt (c : Z * Z) (g : Game) : result Game :=
  match topmost (fun q => Polygon_In q (fst c) (snd c)) (p g) (length (p g)) with
  | Some i => Ok (mkGame (fullscreen g) (p g) (Z.of_nat i))
  | None => Ok g
  end.

Definition Game_Update (i : Input) (g : Game) : result (Game * option error) :=
  g ← when (IsKeyPressed i KeyUp || IsKeyPressed i KeyW)
        (moveActive 0 (- translateFactor)) g;
  g ← when (IsKeyPressed i KeyDown || IsKeyPressed i KeyS)
        (moveActive 0 translateFactor) g;
  g ← when (IsKeyPressed i KeyLeft || IsKeyPressed i KeyA)
        (moveActive (- translateFactor) 0) g;
  g ← when (IsKeyPressed i KeyRight || IsKeyPressed i KeyD)
        (moveActive translateFactor 0) g;
  g ← when (IsKeyPressed i KeyQ) (rotateActive (fun t => Fsub t rotateFactor)) g;
  g ← when (IsKeyPressed i KeyE) (rotateActive (fun t => Fadd t rotateFactor)) g;
  g ← when (IsKeyJustPressed i KeySpace) nextActive g;
  g ← when (IsKeyJustPressed i KeyF) toggleFullscreen g;
  g ← when (IsMouseButtonJustPressed i MouseButtonLeft)
        (selectAt (CursorPosition i)) g;
  if IsKeyPressed i KeyEscape then Ok (g, Some ErrCleanExit) else Ok (g, None).

Definition Game_Draw (g : Game) : result (list DrawCall) :=
  a ← index (p g) (activePolygon g);
  Ok (DebugPrint ("Active polygon: " +:+ id a) :: map Polygon_Draw (p g)).

Definition main (raster : Rasterizer) (frames : list Input) : result Exit :=
  t ← NewPolygon raster "Triangle" 0 10 (Fconst 0) 20 3 color.White;
  q ← NewPolygon raster "Pentagon" 50 50 (Fconst 0) 20 5
        (color.OfRGBA (color.mkRGBA 255 0 0 255));
  c ← NewPolygon raster "Circle" 100 100 (Fconst 0) 20 8
        (color.OfRGBA (color.mkRGBA 0 255 0 255));
  r ← RunGame Game_Update Game_Draw frames (mkGame false [t; q; c] 0);
  Ok (farewell (snd r)).

End PolygonMaking.

(** ** The polygon demo stored after basic-input in [src/basic-input/main.go]

    Its [Polygon], [In], [MoveBy], [Draw], [Game], [Update] and [Draw] are
    those of polygon-making word for word; [genPolygon] takes the colour,
    and [NewPolygon] calls it for every number of sides. *)

Module Polygons.
Import ebiten.

Definition genPolygon (radius num : Z) (clr : color.RGBA)
  : result (list Vertex * list Z) :=
  let r := Fdiv (F32_of_int (color.R clr)) (Fconst 255) in
  let g := Fdiv (F32_of_int (color.G clr)) (Fconst 255) in
  let b := Fdiv (F32_of_int (color.B clr)) (Fconst 255) in
  let a := Fdiv (F32_of_int (color.A clr)) (Fconst 255) in
  Fan.genPolygon r g b a radius num.

Definition NewPolygon (raster : PolygonMaking.Rasterizer) (id : string) (x y : Z)
  (theta : float) (radius sides : Z) (clr : color.RGBA)
  : result PolygonMaking.Polygon :=
  vi ← genPolygon radius sides clr;
  Ok (PolygonMaking.mkPolygon id x y radius theta
        (mkImage (mul radius 2, mul radius 2) (raster (fst vi) (snd vi) None))).

Definition Game_Update := PolygonMaking.Game_Update.
Definition Game_Draw := PolygonMaking.Game_Draw.

Definition main (raster : PolygonMaking.Rasterizer) (frames : list Input)
  : result Exit :=
  t ← NewPolygon raster "Triangle" 0 10 (Fconst 0) 20 3 (color.mkRGBA 255 255 255 255);
  q ← NewPolygon raster "Pentagon" 50 50 (Fconst 0) 20 5 (color.mkRGBA 255 0 0 255);
  c ← NewPolygon raster "Circle" 100 100 (Fconst 0) 20 8 (color.mkRGBA 0 255 0 255);
  r ← RunGame Game_Update Game_Draw frames (PolygonMaking.mkGame false [t; q; c] 0);
  Ok (farewell (snd r)).

End Polygons.

(** ** The shapes demo ([src/unnamed/part_000]) *)

Module Shapes.
Import ebiten.

Definition translateFactor : Z := 10.
Definition rotateFactor : float := Fconst (5 # 100).
Definition screenWidth : Z := 640.
Definition screenHeight : Z := 480.

Record Shape : Type := mkShape {
  id : string;
  x : Z;
  y : Z;
  theta : float;
  img : Image
}.

Definition NewShape (id : string) (x y : Z) (theta : float) (img : Image) : Shape :=
  mkShape id x y theta img.

Definition Shape_In (s : Shape) (cx cy : Z) : bool :=
  let '(w, h) := Size (img s) in
  0 <? color.A (At (img s) (add (sub cx (x s)) w) (add (sub cy (y s)) h)).

Definition Shape_MoveBy (s : Shape) (dx dy : Z) : Shape :=
  let x1 := add (x s) dx in
  let y1 := add (y s) dy in
  let '(w, h) := Size (img s) in
  let x2 := if x1 <? add 0 w then add 0 w else x1 in
  let x3 := if x2 >? sub screenWidth w then sub screenWidth w else x2 in
  let y2 := if y1 <? add 0 h then add 0 h else y1 in
  let y3 := if y2 >? sub screenHeight h then sub screenHeight h else y2 in
  mkShape (id s) x3 y3 (theta s) (img s).

Definition Shape_Draw (s : Shape) : DrawCall :=
  let '(w, h) := Size (img s) in
  DrawImage (img s)
    [Translate (Fdiv (Fneg (F64_of_int w)) (Fconst 2))
               (Fdiv (Fneg (F64_of_int h)) (Fconst 2));
     Rotate (theta s);
     Translate (F64_of_int (x s)) (F64_of_int (y s))] None.

Record Game : Type := mkGame {
  fullscreen : bool;
  s : list Shape;
  activeShape : Z
}.

Definition moveActive (dx dy : Z) (g : Game) : result Game :=
  s' ← update (fun q => Shape_MoveBy q dx dy) (s g) (activeShape g);
  Ok (mkGame (fullscreen g) s' (activeShape g)).

Definition rotateActive (f : float -> float) (g : Game) : result Game :=
  s' ← update (fun q => mkShape (id q) (x q) (y q) (f (theta q)) (img q))
        (s g) (activeShape g);
  Ok (mkGame (fullscreen g) s' (activeShape g)).

Definition nextActive (g : Game) : result Game :=
  if len (s g) =? 0 then Panic DivideByZero
  else Ok (mkGame (fullscreen g) (s g) (rem (add (activeShape g) 1) (len (s g)))).

Definition toggleFullscreen (g : Game) : result Game :=
  Ok (mkGame (negb (fullscreen g)) (s g) (activeShape g)).

Definition selectAt (c : Z * Z) (g : Game) : result Game :=
  match topmost (fun q => Shape_In q (fst c) (snd c)) (s g) (length (s g)) with
  | Some i => Ok (mkGame (fullscreen g) (s g) (Z.of_nat i))
  | None => Ok g
  end.

Definition Game_Update (i : Input) (g : Game) : result (Game * option error) :=
  g ← when (IsKeyPressed i KeyUp || IsKeyPressed i KeyW)
        (moveActive 0 (- translateFactor)) g;
  g ← when (IsKeyPressed i KeyDown || IsKeyPressed i KeyS)
        (moveActive 0 translateFactor) g;
  g ← when (IsKeyPressed i KeyLeft || IsKeyPressed i KeyA)
        (moveActive (- translateFactor) 0) g;
  g ← when (IsKeyPressed i KeyRight || IsKeyPressed i KeyD)
        (moveActive translateFactor 0) g;
  g ← when (IsKeyPressed i KeyQ) (rotateActive (fun t => Fsub t rotateFactor)) g;
  g ← when (IsKeyPressed i KeyE) (rotateActive (fun t => Fadd t rotateFactor)) g;
  g ← when (IsKeyJustPressed i KeySpace) nextActive g;
  g ← when (IsKeyJustPressed i KeyF) toggleFullscreen g;
  g ← when (IsMouseButtonJustPressed i MouseButtonLeft)
        (selectAt (CursorPosition i)) g;
  if IsKeyPressed i KeyEscape then Ok (g, Some ErrCleanExit) else Ok (g, None).

Definition Game_Draw (g : Game) : result (list DrawCall) :=
  a ← index (s g) (activeShape g);
  Ok (DebugPrint ("Active shape: " +:+ id a) :: map Shape_Draw (s g)).

(** [main]; the four images are what [genPolygon(3, 30, ...)],
    [genPolygon(5, 30, ...)], [genRectangle(30, 30, ...)] and
    [genCircle(30, ...)] obtained from the drawing library. *)
Definition main (triangle pentagon rectangle circle : Image) (frames : list Input)
  : result Exit :=
  let g := mkGame false
             [ NewShape "Triangle" 50 50 (Fconst 0) triangle;
               NewShape "Pentagon" 100 100 (Fconst 0) pentagon;
               NewShape "Rectangle" 200 200 (Fconst 0) rectangle;
               NewShape "Circle" 300 300 (Fconst 0) circle ] 0 in
  r ← RunGame Game_Update Game_Draw frames g;
  Ok (farewell (snd r)).

End Shapes.

(** ** connect-lines: blocks selected with the left button and joined with
    the right one *)

Module ConnectLines.
Import ebiten.

Definition screenWidth : Z := 640.
Definition screenHeight : Z := 480.
Definition translate : Z := 1.

Definition selectedColor : color.Color := color.OfRGBA (color.mkRGBA 0 255 0 255).

Record Block : Type := mkBlock {
  id : string;
  x : Z;
  y : Z;
  size : Z;
  clr : color.Color;
  img : Image
}.

Definition Block_In (b : Block) (cx cy : Z) : bool :=
  (cx >=? x b) && (cx <=? add (x b) (size b)) &&
  (cy >=? y b) && (cy <=? add (y b) (size b)).

Definition Block_Move (b : Block) (dx dy : Z) : Block :=
  let x1 := add (x b) dx in
  let y1 := add (y b) dy in
  let x2 := if add x1 (size b) >? screenWidth then sub screenWidth (size b) else x1 in
  let x3 := if x2 <? 0 then 0 else x2 in
  let y2 := if add y1 (size b) >? screenHeight then sub screenHeight (size b) else y1 in
  let y3 := if y2 <? 0 then 0 else y2 in
  mkBlock (id b) x3 y3 (size b) (clr b) (img b).

Definition Block_Draw (b : Block) (c : option color.Color) : DrawCall :=
  let c := match c with None => clr b | Some c => c end in
  DrawImage (img b) [Translate (F64_of_int (x b)) (F64_of_int (y b))] (Some c).

Record connected : Type := mkconnected {
  blk1 : Z;
  blk2 : Z
}.

Record Game : Type := mkGame {
  fullscreen : bool;
  blocks : list Block;
  connections : list connected;
  selected : Z
}.

Definition connect (g : Game) (b1 b2 : Z) : Game :=
  mkGame (fullscreen g) (blocks g) (connections g ++ [mkconnected b1 b2]) (selected g).

Definition moveSelected (dx dy : Z) (g : Game) : result Game :=
  bs ← update (fun b => Block_Move b dx dy) (blocks g) (selected g);
  Ok (mkGame (fullscreen g) bs (connections g) (selected g)).

Definition toggleFullscreen (g : Game) : result Game :=
  Ok (mkGame (negb (fullscreen g)) (blocks g) (connections g) (selected g)).

(** The body of the left-button branch. *)
Definition selectAt (c : Z * Z) (g : Game) : result Game :=
  match topmost (fun b => Block_In b (fst c) (snd c)) (blocks g) (length (blocks g)) with
  | Some i => Ok (mkGame (fullscreen g) (blocks g) (connections g) (Z.of_nat i))
  | None => Ok g
  end.

(** The body of the right-button branch. *)
Definition connectAt (c : Z * Z) (g : Game) : result Game :=
  match topmost (fun b => Block_In b (fst c) (snd c)) (blocks g) (length (blocks g)) with
  | Some i =>
      if negb (Z.of_nat i =? selected g) then Ok (connect g (selected g) (Z.of_nat i))
      else Ok g
  | None => Ok g
  end.

Definition Game_Update (i : Input) (g : Game) : result (Game * option error) :=
  g ← when (IsKeyPressed i KeyUp || IsKeyPressed i KeyW)
        (moveSelected 0 (- translate)) g;
  g ← when (IsKeyPressed i KeyDown || IsKeyPressed i KeyS)
        (moveSelected 0 translate) g;
  g ← when (IsKeyPressed i KeyLeft || IsKeyPressed i KeyA)
        (moveSelected (- translate) 0) g;
  g ← when (IsKeyPressed i KeyRight || IsKeyPressed i KeyD)
        (moveSelected translate 0) g;
  g ← when (IsKeyJustPressed i KeyF) toggleFullscreen g;
  g ← when (IsMouseButtonJustPressed i MouseButtonLeft)
        (selectAt (CursorPosition i)) g;
  g ← when (IsMouseButtonJustPressed i MouseButtonRight)
        (connectAt (CursorPosition i)) g;
  if IsKeyPressed i KeyEscape then Ok (g, Some ErrCleanExit) else Ok (g, None).

(** The line drawn for one connection. *)
Definition drawConnection (g : Game) (c : connected) : result DrawCall :=
  b1 ← index (blocks g) (blk1 c);
  b2 ← index (blocks g) (blk2 c);
  Ok (DrawLine (F64_of_int (add (x b1) (quot (size b1) 2)))
               (F64_of_int (add (y b1) (quot (size b1) 2)))
               (F64_of_int (add (x b2) (quot (size b2) 2)))
               (F64_of_int (add (y b2) (quot (size b2) 2)))
               color.White).

Definition Game_Draw (g : Game) : result (list DrawCall) :=
  a ← index (blocks g) (selected g);
  lines ← mapM (drawConnection g) (connections g);
  Ok (DebugPrint ("Active block: " +:+ id a)
      :: lines ++
         imap (fun i b =>
                 if Z.of_nat i =? selected g then Block_Draw b (Some selectedColor)
                 else Block_Draw b None) (blocks g)).

Definition blocks_count : Z := 50.

(** [NewBlock]; [pix size] is the image the engine holds after
    [NewImage(size, size)] and the scaled [DrawImage] of the white pixel. *)
Definition NewBlock (pix : Z -> Image) (id x y size : Z) (clr : color.Color) : Block :=
  mkBlock (Itoa id) x y size clr (pix size).

(** [Game.init]; [permW] and [permH] are what [rand.Perm(screenWidth)] and
    [rand.Perm(screenHeight)] returned. *)
Definition init (pix : Z -> Image) (permW permH : list Z) (g : Game) : result Game :=
  xs ← slice_to permW blocks_count;
  ys ← slice_to permH blocks_count;
  bs ← mapM (fun ix => yv ← index ys (Z.of_nat (fst ix));
                       Ok (NewBlock pix (Z.of_nat (fst ix)) (snd ix) yv 3 color.White))
        (imap pair xs);
  Ok (mkGame (fullscreen g) bs (connections g) (selected g)).

Definition main (pix : Z -> Image) (permW permH : list Z) (frames : list Input)
  : result Exit :=
  g ← init pix permW permH (mkGame false [] [] 0);
  r ← RunGame Game_Update Game_Draw frames g;
  Ok (farewell (snd r)).

End ConnectLines.

(** ** starfield: two layers of stars scrolled by the arrow keys *)

Module Starfield.
Import ebiten.

Definition screenWidth : Z := 640.
Definition screenHeight : Z := 480.
Definition translateNear : Z := 3.
Definition translateFar : Z := 1.

Record Star : Type := mkStar {
  x : Z;
  y : Z;
  radius : Z;
  img : Image
}.

Definition Star_In (s : Star) (cx cy : Z) : bool :=
  0 <? color.A (At (img s) (add (sub cx (x s)) (radius s))
                           (add (sub cy (y s)) (radius s))).

Definition Star_MoveBy (s : Star) (dx dy : Z) : Star :=
  let x1 := add (x s) dx in
  let y1 := add (y s) dy in
  let x2 := if x1 >? screenWidth then 0 else x1 in
  let x3 := if x2 <? 0 then screenWidth else x2 in
  let y2 := if y1 >? screenHeight then 0 else y1 in
  let y3 := if y2 <? 0 then screenHeight else y2 in
  mkStar x3 y3 (radius s) (img s).

Definition Star_Draw (s : Star) : DrawCall :=
  DrawImage (img s) [Translate (F64_of_int (x s)) (F64_of_int (y s))] None.

Record Game : Type := mkGame {
  fullscreen : bool;
  nearStars : list Star;
  farStars : list Star
}.

Definition MoveView (dx dy : Z) (g : Game) : result Game :=
  Ok (mkGame (fullscreen g)
        (map (fun s => Star_MoveBy s (mul dx translateNear) (mul dy translateNear))
             (nearStars g))
        (map (fun s => Star_MoveBy s (mul dx translateFar) (mul dy translateFar))
             (farStars g))).

Definition toggleFullscreen (g : Game) : result Game :=
  Ok (mkGame (negb (fullscreen g)) (nearStars g) (farStars g)).

Definition Game_Update (i : Input) (g : Game) : result (Game * option error) :=
  g ← when (IsKeyPressed i KeyUp || IsKeyPressed i KeyW) (MoveView 0 (-1)) g;
  g ← when (IsKeyPressed i KeyDown || IsKeyPressed i KeyS) (MoveView 0 1) g;
  g ← when (IsKeyPressed i KeyLeft || IsKeyPressed i KeyA) (MoveView (-1) 0) g;
  g ← when (IsKeyPressed i KeyRight || IsKeyPressed i KeyD) (MoveView 1 0) g;
  g ← when (IsKeyJustPressed i KeyF) toggleFullscreen g;
  if IsKeyPressed i KeyEscape then Ok (g, Some ErrCleanExit) else Ok (g, None).

Definition Game_Draw (g : Game) : result (list DrawCall) :=
  Ok (map Star_Draw (nearStars g) ++ map Star_Draw (farStars g)).

Definition nearStars_count : Z := 50.
Definition farStars_count : Z := 100.

(** [NewStar]; [pix radius clr] is the image the engine holds after
    [NewImage(radius*2, radius*2)] and the scaled, coloured [DrawImage]. *)
Definition NewStar (pix : Z -> color.Color -> Image) (x y radius : Z)
  (clr : color.Color) : Star :=
  mkStar x y radius (pix radius clr).

(** One layer of [initStarfield]. *)
Definition layer (pix : Z -> color.Color -> Image) (permW permH : list Z) (n : Z)
  (clr : color.Color) : result (list Star) :=
  xs ← slice_to permW n;
  ys ← slice_to permH n;
  mapM (fun ix => yv ← index ys (Z.of_nat (fst ix)); Ok (NewStar pix (snd ix) yv 3 clr))
       (imap pair xs).

(** [Game.initStarfield]; the four lists are the results of the four calls
    of [rand.Perm]. *)
Definition initStarfield (pix : Z -> color.Color -> Image)
  (permW1 permH1 permW2 permH2 : list Z) (g : Game) : result Game :=
  near ← layer pix permW1 permH1 nearStars_count color.White;
  far ← layer pix permW2 permH2 farStars_count
          (color.OfRGBA (color.mkRGBA 255 255 255 128));
  Ok (mkGame (fullscreen g) near far).

Definition main (pix : Z -> color.Color -> Image)
  (permW1 permH1 permW2 permH2 : list Z) (frames : list Input) : result Exit :=
  g ← initStarfield pix permW1 permH1 permW2 permH2 (mkGame false [] []);
  r ← RunGame Game_Update Game_Draw frames g;
  Ok (farewell (snd r)).

End Starfield.

(** ** turns: a counter advanced by the space key

    [src/turns/main.go] and [src/unnamed/part_001] have the same [Game],
    [Update], [Draw] and error handling; they differ in one engine
    setting. *)

Module Turns.
Import ebiten.

Record Game : Type := mkGame {
  turn : Z
}.

Definition Game_Update (i : Input) (g : Game) : result (Game * option error) :=
  g ← when (IsKeyJustPressed i KeySpace) (fun g => Ok (mkGame (add (turn g) 1))) g;
  Ok (g, None).

Definition Game_Draw (g : Game) : result (list DrawCall) :=
  Ok [DebugPrint ("Turn: " +:+ Itoa (turn g))].

Definition main (frames : list Input) : result Exit :=
  r ← RunGame Game_Update Game_Draw frames (mkGame 0);
  match snd r with
  | Some err => Ok (Fatal err)
  | None => Ok (Return [])
  end.

End Turns.

(** ** Vocabulary of the properties *)

(** The entity after the moves [ds], applied in order. *)
Definition moves {E : Type} (step : E -> Z -> Z -> E) (e : E) (ds : list (Z * Z)) : E :=
  fold_left (fun e d => step e (fst d) (snd d)) ds e.

(** Clamping: after every sequence of moves, each coordinate is the
    coordinate before the last move plus its delta, replaced by the
    nearest value in the range of that axis. *)
Definition clamps_to {E : Type} (step : E -> Z -> Z -> E) (px py : E -> Z)
  (xlo xhi ylo yhi : Z) (e : E) : Prop :=
  forall ds d,
    let e0 := moves step e ds in
    let e1 := moves step e (ds ++ [d]) in
    px e1 = clamp xlo xhi (add (px e0) (fst d)) /\
    py e1 = clamp ylo yhi (add (py e0) (snd d)).

(** Wrap-around: a coordinate that leaves the range from 0 to [hi]
    re-enters at the opposite end. *)
Definition wrap_around (hi v : Z) : Z :=
  if v >? hi then 0 else if v <? 0 then hi else v.

(** The number of frames of [levels] in which the key is down and was up
    in the frame before; [prev] tells whether it was down before the first
    frame. *)
Fixpoint rising_edges (prev : bool) (levels : list bool) : Z :=
  match levels with
  | [] => 0
  | b :: rest => (if b && negb prev then 1 else 0) + rising_edges b rest
  end.

(** [if c { s[n].m(...) }] on a slice whose index [n] is in range. *)
Definition alter_if {A : Type} (c : bool) (m : A -> A) (n : nat) (s : list A) : list A :=
  if c then alter m n s else s.

(** The active index is an index of the entity slice, whose length is an
    [int]. *)
Definition valid_index {A : Type} (s : list A) (i : Z) : Prop :=
  0 <= i < len s /\ len s <= int_max.

(** [i] is the largest index whose entity satisfies [hit]. *)
Definition is_topmost {A : Type} (hit : A -> bool) (s : list A) (i : Z) : Prop :=
  (0 <= i) /\
  (exists a, s !! Z.to_nat i = Some a /\ hit a = true) /\
  (forall j a, i < j -> s !! Z.to_nat j = Some a -> hit a = false).

(** No entity satisfies [hit]. *)
Definition none_hit {A : Type} (hit : A -> bool) (s : list A) : Prop :=
  forall j a, s !! j = Some a -> hit a = false.

(** A connection joins two distinct indices of a slice of [n] blocks. *)
Definition valid_connection (n : Z) (c : ConnectLines.connected) : Prop :=
  ConnectLines.blk1 c <> ConnectLines.blk2 c /\
  0 <= ConnectLines.blk1 c < n /\
  0 <= ConnectLines.blk2 c < n.

(** Vertex [v] lies at angle [2*pi*i/num] on the circle of radius [radius]
    centred at [(radius, radius)], as [float32] coordinates. *)
Definition on_circle (radius num i : Z) (v : ebiten.Vertex) : Prop :=
  let angle := Fmul (Fmul (Fconst 2) Fpi) (Fdiv (F64_of_int i) (F64_of_int num)) in
  ebiten.DstX v
  = Fadd (F32_of_f64 (Fmul (F64_of_int radius) (Fcos angle))) (F32_of_int radius) /\
  ebiten.DstY v
  = Fadd (F32_of_f64 (Fmul (F64_of_int radius) (Fsin angle))) (F32_of_int radius).

(** Vertex [v] is the centre [(radius, radius)]. *)
Definition at_center (radius : Z) (v : ebiten.Vertex) : Prop :=
  ebiten.DstX v = F32_of_int radius /\ ebiten.DstY v = F32_of_int radius.

(** [(vs, indices)] is the fan of a polygon with [num] sides: [num] rim
    vertices followed by the centre, and one triangle
    [(i, (i+1) mod num, num)] per side. *)
Definition is_fan (radius num : Z) (vs : list ebiten.Vertex) (indices : list Z) : Prop :=
  len vs = num + 1 /\
  (forall i, 0 <= i < num ->
     exists v, vs !! Z.to_nat i = Some v /\ on_circle radius num i v) /\
  (exists v, vs !! Z.to_nat num = Some v /\ at_center radius v) /\
  len indices = 3 * num /\
  (forall i, 0 <= i < num ->
     indices !! Z.to_nat (3 * i) = Some i /\
     indices !! Z.to_nat (3 * i + 1) = Some ((i + 1) mod num) /\
     indices !! Z.to_nat (3 * i + 2) = Some num).

(** The angle [theta] is exactly zero. *)
Definition unrotated (theta : float) : Prop :=
  exists t, Fvalue theta = Some t /\ Qeq_bool t 0 = true.

(** The states in which the demos with an active entity run. *)
Definition BasicInput_valid (g : BasicInput.Game) : Prop :=
  valid_index (BasicInput.s g) (BasicInput.activeSprite g).

Definition PolygonMaking_valid (g : PolygonMaking.Game) : Prop :=
  valid_index (PolygonMaking.p g) (PolygonMaking.activePolygon g).

Definition Shapes_valid (g : Shapes.Game) : Prop :=
  valid_index (Shapes.s g) (Shapes.activeShape g).

Definition ConnectLines_valid (g : ConnectLines.Game) : Prop :=
  valid_index (ConnectLines.blocks g) (ConnectLines.selected g) /\
  Forall (valid_connection (len (ConnectLines.blocks g))) (ConnectLines.connections g).

(** The error [Update] returns in a frame: the sentinel when Escape is
    down, [nil] otherwise. *)
Definition escape_error (i : ebiten.Input) : option error :=
  if ebiten.IsKeyPressed i ebiten.KeyEscape then Some ErrCleanExit else None.

(** The error [ebiten.RunGame] returns on [frames]. *)
Definition escape_in (frames : list ebiten.Input) : option error :=
  if existsb (fun i => ebiten.IsKeyPressed i ebiten.KeyEscape) frames
  then Some ErrCleanExit else None.

(** A demo quits on Escape: from every valid state, [Update] returns the
    sentinel exactly in the frames in which Escape is down, and
    [ebiten.RunGame] returns it exactly when some frame has Escape down. *)
Definition quits_on_escape {G : Type}
  (Update : ebiten.Input -> G -> result (G * option error))
  (Draw : G -> result (list ebiten.DrawCall)) (valid : G -> Prop) : Prop :=
  (forall i g, valid g -> exists g', Update i g = Ok (g', escape_error i) /\ valid g') /\
  (forall frames g, valid g ->
     exists g', ebiten.RunGame Update Draw frames g = Ok (g', escape_in frames) /\ valid g').

(** A frame in which key [k] is down and nothing else happens. *)
Definition pressing (k : ebiten.Key) : ebiten.Input :=
  ebiten.mkInput (fun k' => bool_decide (k' = k)) (fun _ => false) (fun _ => false) (0, 0).

(** A frame in which mouse button [b] has just been pressed at [c]. *)
Definition clicking (b : ebiten.MouseButton) (c : Z * Z) : ebiten.Input :=
  ebiten.mkInput (fun _ => false) (fun _ => false) (fun b' => bool_decide (b' = b)) c.

(** All entities but the one at index [n] are the same in [before] and
    [after]. *)
Definition only_changes {A : Type} (n : nat) (before after : list A) : Prop :=
  forall j, j <> n -> after !! j = before !! j.


(** The unit steps of the direction keys that are down in a frame, in
    the order in which [Update] handles them. *)
Definition directions (i : ebiten.Input) : list (Z * Z) :=
  (if ebiten.IsKeyPressed i ebiten.KeyUp || ebiten.IsKeyPressed i ebiten.KeyW
   then [(0, -1)] else []) ++
  (if ebiten.IsKeyPressed i ebiten.KeyDown || ebiten.IsKeyPressed i ebiten.KeyS
   then [(0, 1)] else []) ++
  (if ebiten.IsKeyPressed i ebiten.KeyLeft || ebiten.IsKeyPressed i ebiten.KeyA
   then [(-1, 0)] else []) ++
  (if ebiten.IsKeyPressed i ebiten.KeyRight || ebiten.IsKeyPressed i ebiten.KeyD
   then [(1, 0)] else []).

(** A unit step scaled by the speed [k] of a layer. *)
Definition scaled (k : Z) (d : Z * Z) : Z * Z := (mul (fst d) k, mul (snd d) k).

(** On every run from a valid state neither [Update] nor [Draw] panics and
    the state stays valid. *)
Definition runs_safely {G : Type}
  (Update : ebiten.Input -> G -> result (G * option error))
  (Draw : G -> result (list ebiten.DrawCall)) (valid : G -> Prop) : Prop :=
  (forall i g, valid g ->
     exists g' e, Update i g = Ok (g', e) /\ valid g' /\ exists d, Draw g' = Ok d) /\
  (forall frames g, valid g ->
     exists g' e, ebiten.RunGame Update Draw frames g = Ok (g', e) /\ valid g').

(** On every run from a valid state the measure [count] of the state is
    the same after every [Update] and at the end. *)
Definition keeps {G C : Type}
  (Update : ebiten.Input -> G -> result (G * option error))
  (Draw : G -> result (list ebiten.DrawCall)) (valid : G -> Prop) (count : G -> C)
  : Prop :=
  (forall i g, valid g -> exists g' e, Update i g = Ok (g', e) /\ count g' = count g) /\
  (forall frames g, valid g ->
     exists g' e, ebiten.RunGame Update Draw frames g = Ok (g', e) /\ count g' = count g).

(** A point of the 640 by 480 screen. *)
Definition on_screen (px py : Z) : Prop := 0 <= px <= 640 /\ 0 <= py <= 480.

(** Images used to run the definitions on concrete inputs: [solid w h] is
    opaque on its [w] by [h] pixels and transparent elsewhere. *)
Definition solid (w h : Z) : ebiten.Image :=
  ebiten.mkImage (w, h)
    (fun px py =>
       if (0 <=? px) && (px <? w) && (0 <=? py) && (py <? h)
       then color.mkRGBA 255 255 255 255
       else color.mkRGBA 0 0 0 0).

(** ** Colour scaling

    connect-lines, starfield and polygon-making each carry the same
    [colorScale], taken from the engine's utilities. *)

(** [Color.RGBA()]: the alpha-premultiplied components on 16 bits.  For
    [color.RGBA] each 8-bit component [c] becomes [c | c << 8]; white is
    the 16-bit grey [0xffff]. *)
Definition Color_RGBA (c : color.Color) : Z * Z * Z * Z :=
  match c with
  | color.OfRGBA c =>
      (Z.lor (color.R c) (Z.shiftl (color.R c) 8),
       Z.lor (color.G c) (Z.shiftl (color.G c) 8),
       Z.lor (color.B c) (Z.shiftl (color.B c) 8),
       Z.lor (color.A c) (Z.shiftl (color.A c) 8))
  | color.White => (65535, 65535, 65535, 65535)
  end.

Definition colorScale (clr : color.Color) : float * float * float * float :=
  let '(r, g, b, a) := Color_RGBA clr in
  if a =? 0 then (Fconst 0, Fconst 0, Fconst 0, Fconst 0)
  else (Fdiv (F64_of_int r) (F64_of_int a),
        Fdiv (F64_of_int g) (F64_of_int a),
        Fdiv (F64_of_int b) (F64_of_int a),
        Fdiv (F64_of_int a) (Fconst 65535)).

(** ** Vocabulary of the further properties *)

(** The term [a] denotes the rational [q]. *)
Definition denotes (a : float) (q : Q) : Prop :=
  exists p, Fvalue a = Some p /\ Qeq p q.

(** The image has no opaque pixel outside its [w] by [h] pixels. *)
Definition opaque_within (img : ebiten.Image) (w h : Z) : Prop :=
  forall px py, 0 < color.A (ebiten.At img px py) -> 0 <= px < w /\ 0 <= py < h.

(** A pixel of the 640 by 480 screen. *)
Definition screen_pixel (cx cy : Z) : Prop := 0 <= cx < 640 /\ 0 <= cy < 480.

(** The sprites after the key handling of one frame of basic-input, when
    sprite [n] is active. *)
Definition BasicInput_moved (i : ebiten.Input) (n : nat)
  (es : list BasicInput.Sprite) : list BasicInput.Sprite :=
  alter_if (ebiten.IsKeyPressed i ebiten.KeyRight)
    (fun sp => BasicInput.Sprite_MoveBy sp BasicInput.translateFactor 0) n
    (alter_if (ebiten.IsKeyPressed i ebiten.KeyLeft)
       (fun sp => BasicInput.Sprite_MoveBy sp (- BasicInput.translateFactor) 0) n
       (alter_if (ebiten.IsKeyPressed i ebiten.KeyDown)
          (fun sp => BasicInput.Sprite_MoveBy sp 0 BasicInput.translateFactor) n
          (alter_if (ebiten.IsKeyPressed i ebiten.KeyUp)
             (fun sp => BasicInput.Sprite_MoveBy sp 0 (- BasicInput.translateFactor)) n
             es))).

(** [p.theta = f(p.theta)] on one polygon. *)
Definition Polygon_rotate (f : float -> float) (q : PolygonMaking.Polygon)
  : PolygonMaking.Polygon :=
  PolygonMaking.mkPolygon (PolygonMaking.id q) (PolygonMaking.x q) (PolygonMaking.y q)
    (PolygonMaking.radius q) (f (PolygonMaking.theta q)) (PolygonMaking.img q).

(** The polygons after the key handling of one frame of polygon-making,
    when polygon [n] is active. *)
Definition PolygonMaking_moved (i : ebiten.Input) (n : nat)
  (es : list PolygonMaking.Polygon) : list PolygonMaking.Polygon :=
  alter_if (ebiten.IsKeyPressed i ebiten.KeyE)
    (Polygon_rotate (fun t => Fadd t PolygonMaking.rotateFactor)) n
    (alter_if (ebiten.IsKeyPressed i ebiten.KeyQ)
       (Polygon_rotate (fun t => Fsub t PolygonMaking.rotateFactor)) n
       (alter_if (ebiten.IsKeyPressed i ebiten.KeyRight || ebiten.IsKeyPressed i ebiten.KeyD)
          (fun q => PolygonMaking.Polygon_MoveBy q PolygonMaking.translateFactor 0) n
          (alter_if (ebiten.IsKeyPressed i ebiten.KeyLeft || ebiten.IsKeyPressed i ebiten.KeyA)
             (fun q => PolygonMaking.Polygon_MoveBy q (- PolygonMaking.translateFactor) 0) n
             (alter_if (ebiten.IsKeyPressed i ebiten.KeyDown
                        || ebiten.IsKeyPressed i ebiten.KeyS)
                (fun q => PolygonMaking.Polygon_MoveBy q 0 PolygonMaking.translateFactor) n
                (alter_if (ebiten.IsKeyPressed i ebiten.KeyUp
                           || ebiten.IsKeyPressed i ebiten.KeyW)
                   (fun q => PolygonMaking.Polygon_MoveBy q 0
                               (- PolygonMaking.translateFactor)) n
                   es))))).

(** The blocks after the key handling of one frame of connect-lines, when
    block [n] is selected. *)
Definition ConnectLines_moved (i : ebiten.Input) (n : nat)
  (es : list ConnectLines.Block) : list ConnectLines.Block :=
  alter_if (ebiten.IsKeyPressed i ebiten.KeyRight || ebiten.IsKeyPressed i ebiten.KeyD)
    (fun b => ConnectLines.Block_Move b ConnectLines.translate 0) n
    (alter_if (ebiten.IsKeyPressed i ebiten.KeyLeft || ebiten.IsKeyPressed i ebiten.KeyA)
       (fun b => ConnectLines.Block_Move b (- ConnectLines.translate) 0) n
       (alter_if (ebiten.IsKeyPressed i ebiten.KeyDown || ebiten.IsKeyPressed i ebiten.KeyS)
          (fun b => ConnectLines.Block_Move b 0 ConnectLines.translate) n
          (alter_if (ebiten.IsKeyPressed i ebiten.KeyUp || ebiten.IsKeyPressed i ebiten.KeyW)
             (fun b => ConnectLines.Block_Move b 0 (- ConnectLines.translate)) n
             es))).

(** A frame of starfield in which nothing but the direction key [k] acts. *)
Definition direction_frame (k : ebiten.Key) (i : ebiten.Input) : Prop :=
  ebiten.IsKeyPressed i k = true /\
  ebiten.IsKeyJustPressed i ebiten.KeyF = false /\
  forall k', k' <> k -> ebiten.IsKeyPressed i k' = false.

(** What an [Update] of polygon-making never touches in a polygon. *)
Definition Polygon_fixed (q : PolygonMaking.Polygon) : string * Z * ebiten.Image :=
  (PolygonMaking.id q, PolygonMaking.radius q, PolygonMaking.img q).

(** What an [Update] of connect-lines never touches in a block. *)
Definition Block_fixed (b : ConnectLines.Block)
  : string * Z * color.Color * ebiten.Image :=
  (ConnectLines.id b, ConnectLines.size b, ConnectLines.clr b, ConnectLines.img b).

(** The bitmap of a polygon is [2 * radius] pixels wide and high. *)
Definition Polygon_sized (q : PolygonMaking.Polygon) : Prop :=
  ebiten.Size (PolygonMaking.img q)
  = (2 * PolygonMaking.radius q, 2 * PolygonMaking.radius q).

(** Among the draw calls [calls], in painting order, the one at position
    [k] shows an opaque pixel at [(cx, cy)] and no later one does: its
    picture is the one seen at that point. *)
Definition painted_on_top (calls : list ebiten.DrawCall) (k cx cy : Z) : Prop :=
  (0 <= k) /\
  (exists c, calls !! Z.to_nat k = Some c /\ opaque_on_screen c cx cy) /\
  (forall j c, k < j -> calls !! Z.to_nat j = Some c -> ~ opaque_on_screen c cx cy).

(** None of the draw calls shows an opaque pixel at [(cx, cy)]. *)
Definition nothing_painted (calls : list ebiten.DrawCall) (cx cy : Z) : Prop :=
  forall j c, calls !! j = Some c -> ~ opaque_on_screen c cx cy.

(** The sprite's position is exact in [float64]. *)
Definition Sprite_exact (sp : BasicInput.Sprite) : Prop :=
  exact_int (BasicInput.x sp) /\ exact_int (BasicInput.y sp).

(** An unrotated polygon with a bitmap of its size, at a position exact
    in [float64]. *)
Definition Polygon_exact (q : PolygonMaking.Polygon) : Prop :=
  unrotated (PolygonMaking.theta q) /\ Polygon_sized q /\
  exact_int (PolygonMaking.x q) /\ exact_int (PolygonMaking.y q) /\
  exact_int (PolygonMaking.radius q).

(** A frame in which key [k] is held and nothing else acts: no other key
    is down or has just been pressed, and no mouse button has just been
    pressed.  ([k] itself may have just been pressed, as it has in the
    first frame of a hold.) *)
Definition holding (k : ebiten.Key) (i : ebiten.Input) : Prop :=
  ebiten.IsKeyPressed i k = true /\
  (forall k', k' <> k -> ebiten.IsKeyPressed i k' = false) /\
  (forall k', k' <> k -> ebiten.IsKeyJustPressed i k' = false) /\
  (forall b, ebiten.IsMouseButtonJustPressed i b = false).

(** What one frame of a rotation key adds to the angle: [E] adds
    [rotateFactor], [Q] subtracts it. *)
Definition rotation_of (k : ebiten.Key) : option (float -> float) :=
  match k with
  | ebiten.KeyE => Some (fun t => Fadd t PolygonMaking.rotateFactor)
  | ebiten.KeyQ => Some (fun t => Fsub t PolygonMaking.rotateFactor)
  | _ => None
  end.

(** The frames of a run in which nothing but key [k] is touched, as the
    engine delivers them: [levels] tells, frame by frame, whether [k] is
    down, and [d] is the number of frames it has been down before the
    first one.  [inpututil.frames] is the case of the space key. *)
Fixpoint key_frames (k : ebiten.Key) (d : nat) (levels : list bool)
  : list ebiten.Input :=
  match levels with
  | [] => []
  | b :: rest =>
      let d' := inpututil.tick b d in
      ebiten.mkInput
        (fun k' => if decide (k' = k) then b else false)
        (fun k' => if decide (k' = k) then inpututil.IsKeyJustPressed d' else false)
        (fun _ => false)
        (0, 0)
      :: key_frames k d' rest
  end.





(** * Part II: lemmas and theorems *)

(** ** Integers *)

Lemma wrap_is_int z : is_int (wrap z).
Proof.
  unfold is_int, wrap, int_min, int_max.
  pose proof (Z.mod_pos_bound (z + 2 ^ 63) (2 ^ 64) ltac:(lia)). lia.
Qed.

Lemma wrap_id z : is_int z -> wrap z = z.
Proof.
  unfold is_int, wrap, int_min, int_max. intros H.
  rewrite Z.mod_small by lia. lia.
Qed.

Lemma add_id a b : is_int (a + b) -> add a b = a + b.
Proof. apply wrap_id. Qed.

Lemma sub_id a b : is_int (a - b) -> sub a b = a - b.
Proof. apply wrap_id. Qed.

Lemma mul_id a b : is_int (a * b) -> mul a b = a * b.
Proof. apply wrap_id. Qed.

Lemma add_is_int a b : is_int (add a b).
Proof. apply wrap_is_int. Qed.

Lemma small_is_int z : - 2 ^ 62 <= z <= 2 ^ 62 -> is_int z.
Proof. unfold is_int, int_min, int_max. lia. Qed.

Lemma clamp_range lo hi v : lo <= hi -> lo <= clamp lo hi v <= hi.
Proof. unfold clamp. lia. Qed.

Lemma clamp_inside lo hi v : lo <= v <= hi -> clamp lo hi v = v.
Proof. unfold clamp. lia. Qed.

(** Case analysis on the comparisons of a goal. *)
Ltac cmp_cases :=
  rewrite ?Z.gtb_ltb, ?Z.geb_leb in *;
  repeat match goal with
    | |- context [?a <? ?b] => destruct (Z.ltb_spec a b)
    | |- context [?a <=? ?b] => destruct (Z.leb_spec a b)
    | |- context [?a =? ?b] => destruct (Z.eqb_spec a b)
    | _ : context [?a <? ?b] |- _ => destruct (Z.ltb_spec a b)
    | _ : context [?a <=? ?b] |- _ => destruct (Z.leb_spec a b)
    | _ : context [?a =? ?b] |- _ => destruct (Z.eqb_spec a b)
    end.

(** ** Sequences of moves *)

Lemma moves_snoc {E : Type} (step : E -> Z -> Z -> E) e ds d :
  moves step e (ds ++ [d]) = step (moves step e ds) (fst d) (snd d).
Proof. unfold moves. now rewrite fold_left_app. Qed.

Lemma moves_preserve {E A : Type} (step : E -> Z -> Z -> E) (f : E -> A) :
  (forall e dx dy, f (step e dx dy) = f e) ->
  forall ds e, f (moves step e ds) = f e.
Proof.
  intros Hstep ds. induction ds as [|d ds IH]; intros e; [reflexivity|].
  change (f (moves step (step e (fst d) (snd d)) ds) = f e).
  rewrite IH. apply Hstep.
Qed.

(** *** Sprites *)

Lemma Sprite_MoveBy_img s dx dy :
  BasicInput.img (BasicInput.Sprite_MoveBy s dx dy) = BasicInput.img s.
Proof. unfold BasicInput.Sprite_MoveBy. now destruct (ebiten.Size _). Qed.

Lemma Sprite_MoveBy_clamp s dx dy w h :
  ebiten.Size (BasicInput.img s) = (w, h) ->
  0 <= w <= 640 -> 0 <= h <= 480 ->
  BasicInput.x (BasicInput.Sprite_MoveBy s dx dy)
    = clamp 0 (640 - w) (add (BasicInput.x s) dx) /\
  BasicInput.y (BasicInput.Sprite_MoveBy s dx dy)
    = clamp 0 (480 - h) (add (BasicInput.y s) dy).
Proof.
  intros HS Hw Hh. unfold BasicInput.Sprite_MoveBy. rewrite HS. simpl.
  unfold BasicInput.screenWidth, BasicInput.screenHeight.
  rewrite !sub_id by (apply small_is_int; lia).
  unfold clamp. split; cmp_cases; lia.
Qed.

(** *** Polygons *)

Lemma Polygon_MoveBy_clamp q dx dy :
  0 <= PolygonMaking.radius q <= 240 ->
  let r := PolygonMaking.radius q in
  PolygonMaking.x (PolygonMaking.Polygon_MoveBy q dx dy)
    = clamp r (640 - r) (add (PolygonMaking.x q) dx) /\
  PolygonMaking.y (PolygonMaking.Polygon_MoveBy q dx dy)
    = clamp r (480 - r) (add (PolygonMaking.y q) dy).
Proof.
  intros Hr r. subst r. unfold PolygonMaking.Polygon_MoveBy. simpl.
  unfold PolygonMaking.screenWidth, PolygonMaking.screenHeight.
  remember (PolygonMaking.radius q) as r.
  rewrite !sub_id, !(add_id 0 r) by (apply small_is_int; lia).
  unfold clamp. split; cmp_cases; lia.
Qed.

(** *** Shapes *)

Lemma Shape_MoveBy_img s dx dy :
  Shapes.img (Shapes.Shape_MoveBy s dx dy) = Shapes.img s.
Proof. unfold Shapes.Shape_MoveBy. now destruct (ebiten.Size _). Qed.

Lemma Shape_MoveBy_clamp s dx dy w h :
  ebiten.Size (Shapes.img s) = (w, h) ->
  0 <= w <= 320 -> 0 <= h <= 240 ->
  Shapes.x (Shapes.Shape_MoveBy s dx dy) = clamp w (640 - w) (add (Shapes.x s) dx) /\
  Shapes.y (Shapes.Shape_MoveBy s dx dy) = clamp h (480 - h) (add (Shapes.y s) dy).
Proof.
  intros HS Hw Hh. unfold Shapes.Shape_MoveBy. rewrite HS. simpl.
  unfold Shapes.screenWidth, Shapes.screenHeight.
  rewrite !sub_id, !(add_id 0 w), !(add_id 0 h) by (apply small_is_int; lia).
  unfold clamp. split; cmp_cases; lia.
Qed.

(** *** Blocks *)

Lemma Block_Move_clamp b dx dy :
  0 <= ConnectLines.size b <= 480 ->
  add (ConnectLines.x b) dx <= int_max - ConnectLines.size b ->
  add (ConnectLines.y b) dy <= int_max - ConnectLines.size b ->
  let n := ConnectLines.size b in
  ConnectLines.x (ConnectLines.Block_Move b dx dy)
    = clamp 0 (640 - n) (add (ConnectLines.x b) dx) /\
  ConnectLines.y (ConnectLines.Block_Move b dx dy)
    = clamp 0 (480 - n) (add (ConnectLines.y b) dy).
Proof.
  intros Hn Hx Hy n. subst n. unfold ConnectLines.Block_Move. simpl.
  unfold ConnectLines.screenWidth, ConnectLines.screenHeight.
  remember (ConnectLines.size b) as n.
  pose proof (add_is_int (ConnectLines.x b) dx) as Hix.
  pose proof (add_is_int (ConnectLines.y b) dy) as Hiy.
  unfold is_int, int_min, int_max in *.
  rewrite !sub_id by (apply small_is_int; lia).
  rewrite (add_id (add (ConnectLines.x b) dx) n)
    by (unfold is_int, int_min, int_max; lia).
  rewrite (add_id (add (ConnectLines.y b) dy) n)
    by (unfold is_int, int_min, int_max; lia).
  unfold clamp. split; cmp_cases; lia.
Qed.

(** *** Stars *)

Lemma Star_MoveBy_wraps s dx dy :
  Starfield.x (Starfield.Star_MoveBy s dx dy)
    = wrap_around 640 (add (Starfield.x s) dx) /\
  Starfield.y (Starfield.Star_MoveBy s dx dy)
    = wrap_around 480 (add (Starfield.y s) dy).
Proof.
  unfold Starfield.Star_MoveBy, wrap_around. simpl.
  unfold Starfield.screenWidth, Starfield.screenHeight.
  split; cmp_cases; lia.
Qed.

Lemma wrap_around_range hi v : 0 <= hi -> 0 <= wrap_around hi v <= hi.
Proof. intros H. unfold wrap_around. cmp_cases; lia. Qed.

(** A block whose [x + size] overflows is left where the addition put it:
    the first test of [Move] compares the wrapped sum. *)
Lemma Block_Move_overflow :
  ConnectLines.x
    (ConnectLines.Block_Move
       (ConnectLines.mkBlock "0" 0 0 3 color.White (solid 3 3)) int_max 0)
  = int_max.
Proof. vm_compute. reflexivity. Qed.

(** C1, as stated, fails for stars: a star at the right edge that moves 3
    to the right re-enters at 0, which is not the nearest value of the
    range from 0 to 640. *)
Lemma star_move_is_not_clamped :
  ~ clamps_to Starfield.Star_MoveBy Starfield.x Starfield.y 0 640 0 480
      (Starfield.mkStar 640 100 3 (solid 6 6)).
Proof.
  intros H. destruct (H [] (3, 0)) as [Hx _].
  vm_compute in Hx. discriminate Hx.
Qed.

(** C1 (amended).  A sprite, polygon, shape or block that fits the screen
    is clamped by every move of every sequence of moves: each coordinate
    is the wrapped sum replaced by the nearest value of the entity's
    range, so the entity stays on the 640 by 480 screen (for a block,
    when the sum plus the block's size does not overflow).  A star stays
    within 0..640 by 0..480 too, but by wrap-around: a coordinate that
    leaves the range re-enters at the opposite edge. *)
Theorem moves_clamp_or_wrap :
  (forall (s : BasicInput.Sprite) w h,
      ebiten.Size (BasicInput.img s) = (w, h) ->
      0 <= w <= 640 -> 0 <= h <= 480 ->
      clamps_to BasicInput.Sprite_MoveBy BasicInput.x BasicInput.y
        0 (640 - w) 0 (480 - h) s /\
      forall ds d,
        let s1 := moves BasicInput.Sprite_MoveBy s (ds ++ [d]) in
        on_screen (BasicInput.x s1) (BasicInput.y s1) /\
        on_screen (BasicInput.x s1 + w) (BasicInput.y s1 + h)) /\
  (forall (q : PolygonMaking.Polygon),
      let r := PolygonMaking.radius q in
      0 <= r <= 240 ->
      clamps_to PolygonMaking.Polygon_MoveBy PolygonMaking.x PolygonMaking.y
        r (640 - r) r (480 - r) q /\
      forall ds d,
        let q1 := moves PolygonMaking.Polygon_MoveBy q (ds ++ [d]) in
        on_screen (PolygonMaking.x q1 - r) (PolygonMaking.y q1 - r) /\
        on_screen (PolygonMaking.x q1 + r) (PolygonMaking.y q1 + r)) /\
  (forall (s : Shapes.Shape) w h,
      ebiten.Size (Shapes.img s) = (w, h) ->
      0 <= w <= 320 -> 0 <= h <= 240 ->
      clamps_to Shapes.Shape_MoveBy Shapes.x Shapes.y w (640 - w) h (480 - h) s /\
      forall ds d,
        let s1 := moves Shapes.Shape_MoveBy s (ds ++ [d]) in
        on_screen (Shapes.x s1 - w) (Shapes.y s1 - h) /\
        on_screen (Shapes.x s1 + w) (Shapes.y s1 + h)) /\
  (forall (b : ConnectLines.Block) ds d,
      let n := ConnectLines.size b in
      let b0 := moves ConnectLines.Block_Move b ds in
      let b1 := moves ConnectLines.Block_Move b (ds ++ [d]) in
      0 <= n <= 480 ->
      add (ConnectLines.x b0) (fst d) <= int_max - n ->
      add (ConnectLines.y b0) (snd d) <= int_max - n ->
      ConnectLines.x b1 = clamp 0 (640 - n) (add (ConnectLines.x b0) (fst d)) /\
      ConnectLines.y b1 = clamp 0 (480 - n) (add (ConnectLines.y b0) (snd d)) /\
      on_screen (ConnectLines.x b1) (ConnectLines.y b1) /\
      on_screen (ConnectLines.x b1 + n) (ConnectLines.y b1 + n)) /\
  (forall (s : Starfield.Star) ds d,
      let s0 := moves Starfield.Star_MoveBy s ds in
      let s1 := moves Starfield.Star_MoveBy s (ds ++ [d]) in
      Starfield.x s1 = wrap_around 640 (add (Starfield.x s0) (fst d)) /\
      Starfield.y s1 = wrap_around 480 (add (Starfield.y s0) (snd d)) /\
      on_screen (Starfield.x s1) (Starfield.y s1)).
Proof.
  repeat apply conj.
  - intros s w h HS Hw Hh.
    assert (Hstep : forall ds d,
      let s0 := moves BasicInput.Sprite_MoveBy s ds in
      let s1 := moves BasicInput.Sprite_MoveBy s (ds ++ [d]) in
      BasicInput.x s1 = clamp 0 (640 - w) (add (BasicInput.x s0) (fst d)) /\
      BasicInput.y s1 = clamp 0 (480 - h) (add (BasicInput.y s0) (snd d))).
    { intros ds d s0 s1. subst s0 s1. rewrite moves_snoc.
      apply Sprite_MoveBy_clamp; [|exact Hw|exact Hh].
      rewrite (moves_preserve _ BasicInput.img Sprite_MoveBy_img). exact HS. }
    split; [exact Hstep|].
    intros ds d s1. destruct (Hstep ds d) as [Hx Hy]. fold s1 in Hx, Hy.
    pose proof (clamp_range 0 (640 - w)
                  (add (BasicInput.x (moves BasicInput.Sprite_MoveBy s ds)) (fst d))
                  ltac:(lia)).
    pose proof (clamp_range 0 (480 - h)
                  (add (BasicInput.y (moves BasicInput.Sprite_MoveBy s ds)) (snd d))
                  ltac:(lia)).
    unfold on_screen. lia.
  - intros q r Hr.
    assert (Hrad : forall ds,
      PolygonMaking.radius (moves PolygonMaking.Polygon_MoveBy q ds) = r).
    { intros ds. now apply (moves_preserve _ PolygonMaking.radius). }
    assert (Hstep : forall ds d,
      let q0 := moves PolygonMaking.Polygon_MoveBy q ds in
      let q1 := moves PolygonMaking.Polygon_MoveBy q (ds ++ [d]) in
      PolygonMaking.x q1 = clamp r (640 - r) (add (PolygonMaking.x q0) (fst d)) /\
      PolygonMaking.y q1 = clamp r (480 - r) (add (PolygonMaking.y q0) (snd d))).
    { intros ds d q0 q1. subst q0 q1. rewrite moves_snoc.
      pose proof (Polygon_MoveBy_clamp (moves PolygonMaking.Polygon_MoveBy q ds)
                    (fst d) (snd d)) as H.
      rewrite Hrad in H. apply H. exact Hr. }
    split; [exact Hstep|].
    intros ds d q1. destruct (Hstep ds d) as [Hx Hy]. fold q1 in Hx, Hy.
    pose proof (clamp_range r (640 - r)
                  (add (PolygonMaking.x (moves PolygonMaking.Polygon_MoveBy q ds)) (fst d))
                  ltac:(lia)).
    pose proof (clamp_range r (480 - r)
                  (add (PolygonMaking.y (moves PolygonMaking.Polygon_MoveBy q ds)) (snd d))
                  ltac:(lia)).
    unfold on_screen. lia.
  - intros s w h HS Hw Hh.
    assert (Hstep : forall ds d,
      let s0 := moves Shapes.Shape_MoveBy s ds in
      let s1 := moves Shapes.Shape_MoveBy s (ds ++ [d]) in
      Shapes.x s1 = clamp w (640 - w) (add (Shapes.x s0) (fst d)) /\
      Shapes.y s1 = clamp h (480 - h) (add (Shapes.y s0) (snd d))).
    { intros ds d s0 s1. subst s0 s1. rewrite moves_snoc.
      apply Shape_MoveBy_clamp; [|exact Hw|exact Hh].
      rewrite (moves_preserve _ Shapes.img Shape_MoveBy_img). exact HS. }
    split; [exact Hstep|].
    intros ds d s1. destruct (Hstep ds d) as [Hx Hy]. fold s1 in Hx, Hy.
    pose proof (clamp_range w (640 - w)
                  (add (Shapes.x (moves Shapes.Shape_MoveBy s ds)) (fst d)) ltac:(lia)).
    pose proof (clamp_range h (480 - h)
                  (add (Shapes.y (moves Shapes.Shape_MoveBy s ds)) (snd d)) ltac:(lia)).
    unfold on_screen. lia.
  - intros b ds d n b0 b1 Hn Hx Hy.
    assert (Hsize : ConnectLines.size b0 = n).
    { subst b0 n. now apply (moves_preserve _ ConnectLines.size). }
    subst b1. rewrite moves_snoc. fold b0.
    pose proof (Block_Move_clamp b0 (fst d) (snd d)) as H.
    rewrite Hsize in H. destruct (H Hn Hx Hy) as [Ex Ey]. clear H.
    pose proof (clamp_range 0 (640 - n) (add (ConnectLines.x b0) (fst d)) ltac:(lia)).
    pose proof (clamp_range 0 (480 - n) (add (ConnectLines.y b0) (snd d)) ltac:(lia)).
    unfold on_screen. rewrite Ex, Ey. lia.
  - intros s ds d s0 s1. subst s1. rewrite moves_snoc. fold s0.
    destruct (Star_MoveBy_wraps s0 (fst d) (snd d)) as [Ex Ey].
    pose proof (wrap_around_range 640 (add (Starfield.x s0) (fst d)) ltac:(lia)).
    pose proof (wrap_around_range 480 (add (Starfield.y s0) (snd d)) ltac:(lia)).
    unfold on_screen. rewrite Ex, Ey. lia.
Qed.

Lemma moves_clamp_or_wrap_witness :
  (let s1 := moves BasicInput.Sprite_MoveBy
               (BasicInput.mkSprite "0" (solid 64 64) 0 0) ([(700, -5)] ++ [(10, 900)]) in
   on_screen (BasicInput.x s1) (BasicInput.y s1) /\
   on_screen (BasicInput.x s1 + 64) (BasicInput.y s1 + 64)) /\
  (let q1 := moves PolygonMaking.Polygon_MoveBy
               (PolygonMaking.mkPolygon "Pentagon" 50 50 20 (Fconst 0) (solid 40 40))
               ([(-100, 0)] ++ [(0, 1000)]) in
   on_screen (PolygonMaking.x q1 - 20) (PolygonMaking.y q1 - 20) /\
   on_screen (PolygonMaking.x q1 + 20) (PolygonMaking.y q1 + 20)) /\
  (let s1 := moves Shapes.Shape_MoveBy
               (Shapes.mkShape "Circle" 300 300 (Fconst 0) (solid 60 60))
               ([(10, 0)] ++ [(1000, -1000)]) in
   on_screen (Shapes.x s1 - 60) (Shapes.y s1 - 60) /\
   on_screen (Shapes.x s1 + 60) (Shapes.y s1 + 60)) /\
  (let b1 := moves ConnectLines.Block_Move
               (ConnectLines.mkBlock "7" 600 400 3 color.White (solid 3 3))
               ([(1, 0)] ++ [(100, 100)]) in
   on_screen (ConnectLines.x b1) (ConnectLines.y b1) /\
   on_screen (ConnectLines.x b1 + 3) (ConnectLines.y b1 + 3)) /\
  (let s1 := moves Starfield.Star_MoveBy
               (Starfield.mkStar 640 100 3 (solid 6 6)) ([(0, 3)] ++ [(3, 0)]) in
   Starfield.x s1 = 0 /\ on_screen (Starfield.x s1) (Starfield.y s1)).
Proof.
  split; [|split; [|split; [|split]]].
  - apply (proj1 moves_clamp_or_wrap
             (BasicInput.mkSprite "0" (solid 64 64) 0 0) 64 64 eq_refl
             ltac:(lia) ltac:(lia)).
  - apply (proj1 (proj2 moves_clamp_or_wrap)
             (PolygonMaking.mkPolygon "Pentagon" 50 50 20 (Fconst 0) (solid 40 40))).
    simpl. lia.
  - apply (proj1 (proj2 (proj2 moves_clamp_or_wrap))
             (Shapes.mkShape "Circle" 300 300 (Fconst 0) (solid 60 60)) 60 60 eq_refl
             ltac:(lia) ltac:(lia)).
  - apply (proj1 (proj2 (proj2 (proj2 moves_clamp_or_wrap)))
             (ConnectLines.mkBlock "7" 600 400 3 color.White (solid 3 3))
             [(1, 0)] (100, 100)).
    + simpl. lia.
    + vm_compute. discriminate.
    + vm_compute. discriminate.
  - pose proof (proj2 (proj2 (proj2 (proj2 moves_clamp_or_wrap)))
                  (Starfield.mkStar 640 100 3 (solid 6 6)) [(0, 3)] (3, 0)) as H.
    destruct H as (Hx & _ & Hs). split; [|exact Hs].
    rewrite Hx. vm_compute. reflexivity.
Defined.

(** ** The turn counter *)

Lemma Turns_Update i g :
  Turns.Game_Update i g
  = Ok (Turns.mkGame (if ebiten.IsKeyJustPressed i ebiten.KeySpace
                      then add (Turns.turn g) 1 else Turns.turn g), None).
Proof.
  unfold Turns.Game_Update, when.
  destruct (ebiten.IsKeyJustPressed i ebiten.KeySpace); [reflexivity|].
  now destruct g.
Qed.






(** ** Slices *)

Lemma in_range_spec {A : Type} (s : list A) i : in_range s i = true <-> 0 <= i < len s.
Proof. unfold in_range. rewrite andb_true_iff, Z.leb_le, Z.ltb_lt. tauto. Qed.

Lemma valid_index_in_range {A : Type} (s : list A) i :
  valid_index s i -> in_range s i = true.
Proof. intros [H _]. now apply in_range_spec. Qed.

Lemma index_ok {A : Type} (s : list A) i :
  in_range s i = true -> exists a, index s i = Ok a /\ s !! Z.to_nat i = Some a.
Proof.
  intros H. pose proof H as H'%in_range_spec. unfold len in H'.
  destruct (lookup_lt_is_Some_2 s (Z.to_nat i) ltac:(lia)) as [a Ha].
  exists a. unfold index. rewrite H, Ha. auto.
Qed.

Lemma update_ok {A : Type} (m : A -> A) (s : list A) i :
  in_range s i = true -> update m s i = Ok (alter m (Z.to_nat i) s).
Proof. intros H. unfold update. now rewrite H. Qed.

Lemma len_alter_if {A : Type} c (m : A -> A) n s : len (alter_if c m n s) = len s.
Proof. unfold len, alter_if. destruct c; [now rewrite length_alter|reflexivity]. Qed.

Lemma length_alter_if {A : Type} c (m : A -> A) n s :
  length (alter_if c m n s) = length s.
Proof. unfold alter_if. destruct c; [now rewrite length_alter|reflexivity]. Qed.

Lemma in_range_alter_if {A : Type} c (m : A -> A) n s i :
  in_range (alter_if c m n s) i = in_range s i.
Proof. unfold in_range. now rewrite len_alter_if. Qed.

Lemma lookup_alter_if_ne {A : Type} c (m : A -> A) n s j :
  n <> j -> alter_if c m n s !! j = s !! j.
Proof.
  intros H. unfold alter_if. destruct c; [|reflexivity].
  now apply list_lookup_alter_ne.
Qed.

Lemma topmost_Some {A : Type} (hit : A -> bool) s n i :
  topmost hit s n = Some i ->
  (i < n)%nat /\
  (exists a, s !! i = Some a /\ hit a = true) /\
  (forall j a, (i < j < n)%nat -> s !! j = Some a -> hit a = false).
Proof.
  induction n as [|n IH]; simpl; [discriminate|].
  assert (Hrec : topmost hit s n = Some i ->
                 (forall a, s !! n = Some a -> hit a = false) ->
                 (i < S n)%nat /\
                 (exists a, s !! i = Some a /\ hit a = true) /\
                 (forall j a, (i < j < S n)%nat -> s !! j = Some a -> hit a = false)).
  { intros H Hn. destruct (IH H) as (Hlt & Hex & Hab).
    split; [lia|]. split; [exact Hex|].
    intros j b Hj Hb. destruct (decide (j = n)) as [->|Hne].
    - now apply Hn.
    - apply (Hab j b); [lia | exact Hb]. }
  destruct (s !! n) as [a|] eqn:Ha.
  - destruct (hit a) eqn:Hh.
    + intros [= <-]. split; [lia|]. split; [eauto|]. intros j b Hj. lia.
    + intros H. apply Hrec; [exact H|]. now intros b [= <-].
  - intros H. apply Hrec; [exact H|]. discriminate.
Qed.

Lemma topmost_None {A : Type} (hit : A -> bool) s n :
  topmost hit s n = None ->
  forall j a, (j < n)%nat -> s !! j = Some a -> hit a = false.
Proof.
  induction n as [|n IH]; simpl; [intros _ j a Hj; lia|].
  destruct (s !! n) as [a|] eqn:Ha.
  - destruct (hit a) eqn:Hh; [discriminate|].
    intros H j b Hj Hb. destruct (decide (j = n)) as [->|Hne].
    + congruence.
    + apply (IH H j b); [lia | exact Hb].
  - intros H j b Hj Hb. destruct (decide (j = n)) as [->|Hne].
    + congruence.
    + apply (IH H j b); [lia | exact Hb].
Qed.

(** The selection loop finds the largest index that is hit, and finds
    nothing exactly when no entity is hit. *)
Lemma topmost_is_topmost {A : Type} (hit : A -> bool) (s : list A) :
  match topmost hit s (length s) with
  | Some i => is_topmost hit s (Z.of_nat i) /\ 0 <= Z.of_nat i < len s
  | None => none_hit hit s
  end.
Proof.
  destruct (topmost hit s (length s)) as [i|] eqn:H.
  - destruct (topmost_Some _ _ _ _ H) as (Hlt & Hex & Hab).
    split; [|unfold len; lia]. split; [lia|]. rewrite Nat2Z.id. split; [exact Hex|].
    intros j a Hj Ha. apply (Hab (Z.to_nat j) a); [|exact Ha].
    split; [lia|]. apply lookup_lt_Some in Ha. exact Ha.
  - intros j a Ha. apply (topmost_None _ _ _ H j a); [|exact Ha].
    now apply lookup_lt_Some in Ha.
Qed.

Lemma is_topmost_unique {A : Type} (hit : A -> bool) (s : list A) i j :
  is_topmost hit s i -> is_topmost hit s j -> i = j.
Proof.
  intros (Hi & (a & Ha & Hha) & Hia) (Hj & (b & Hb & Hhb) & Hjb).
  destruct (Z.lt_trichotomy i j) as [Hlt|[Heq|Hgt]]; [|exact Heq|].
  - specialize (Hia j b Hlt Hb). congruence.
  - specialize (Hjb i a Hgt Ha). congruence.
Qed.

(** ** The engine's loop *)

Lemma RunGame_invariant {G : Type} Update Draw (Inv : G -> Prop) :
  (forall i g, Inv g -> exists g' e, Update i g = Ok (g', e) /\ Inv g') ->
  (forall g, Inv g -> exists d, Draw g = Ok d) ->
  forall frames g, Inv g ->
    exists g' e, ebiten.RunGame Update Draw frames g = Ok (g', e) /\ Inv g'.
Proof.
  intros HU HD frames. induction frames as [|i rest IH]; intros g Hg.
  - exists g, None. split; [reflexivity|exact Hg].
  - destruct (HU i g Hg) as (g1 & e & E1 & H1).
    cbn [ebiten.RunGame]. rewrite E1. cbn [mbind result_bind snd fst].
    destruct e as [e|].
    + exists g1, (Some e). split; [reflexivity|exact H1].
    + destruct (HD g1 H1) as [d Ed]. rewrite Ed. cbn [mbind result_bind].
      now apply IH.
Qed.

(** ** One [Update] of basic-input *)

Lemma BasicInput_when_moveActive (c : bool) dx dy es a :
  in_range es a = true ->
  when c (BasicInput.moveActive dx dy) (BasicInput.mkGame es a)
  = Ok (BasicInput.mkGame
          (alter_if c (fun sp => BasicInput.Sprite_MoveBy sp dx dy) (Z.to_nat a) es) a).
Proof.
  intros H. unfold when, BasicInput.moveActive, alter_if. destruct c; [|reflexivity].
  cbn [BasicInput.s BasicInput.activeSprite]. now rewrite update_ok.
Qed.

Lemma BasicInput_when_selectAt (c : bool) cur es a :
  when c (BasicInput.selectAt cur) (BasicInput.mkGame es a)
  = Ok (BasicInput.mkGame es
          (if c then
             match topmost (fun sp => BasicInput.Sprite_In sp (fst cur) (snd cur))
                     es (length es) with
             | Some k => Z.of_nat k
             | None => a
             end
           else a)).
Proof.
  unfold when, BasicInput.selectAt. destruct c; [|reflexivity].
  cbn [BasicInput.s]. now destruct (topmost _ es (length es)).
Qed.

Lemma BasicInput_Update_spec i g :
  in_range (BasicInput.s g) (BasicInput.activeSprite g) = true ->
  exists g',
    BasicInput.Game_Update i g
    = Ok (g', if ebiten.IsKeyPressed i ebiten.KeyEscape
              then Some ErrCleanExit else None) /\
    length (BasicInput.s g') = length (BasicInput.s g) /\
    (forall j, j <> Z.to_nat (BasicInput.activeSprite g) ->
               BasicInput.s g' !! j = BasicInput.s g !! j) /\
    BasicInput.activeSprite g'
    = (if ebiten.IsMouseButtonJustPressed i ebiten.MouseButtonLeft then
         match topmost (fun sp => BasicInput.Sprite_In sp
                                    (fst (ebiten.CursorPosition i))
                                    (snd (ebiten.CursorPosition i)))
                 (BasicInput.s g') (length (BasicInput.s g')) with
         | Some k => Z.of_nat k
         | None => BasicInput.activeSprite g
         end
       else BasicInput.activeSprite g).
Proof.
  destruct g as [es a]. cbn [BasicInput.s BasicInput.activeSprite]. intros H.
  unfold BasicInput.Game_Update.
  do 4 (rewrite BasicInput_when_moveActive
          by (rewrite ?in_range_alter_if; exact H);
        cbn [mbind result_bind]).
  rewrite BasicInput_when_selectAt. cbn [mbind result_bind].
  eexists. split.
  - destruct (ebiten.IsKeyPressed i ebiten.KeyEscape); reflexivity.
  - cbn [BasicInput.s BasicInput.activeSprite].
    split; [now rewrite !length_alter_if|].
    split; [|reflexivity].
    intros j Hj. now rewrite !lookup_alter_if_ne by congruence.
Qed.

Lemma BasicInput_Update_valid i g :
  BasicInput_valid g ->
  exists g',
    BasicInput.Game_Update i g = Ok (g', escape_error i) /\
    BasicInput_valid g' /\
    length (BasicInput.s g') = length (BasicInput.s g).
Proof.
  intros [H Hmax].
  destruct (BasicInput_Update_spec i g) as (g' & E & Hl & _ & Ha);
    [now apply in_range_spec|].
  exists g'. split; [exact E|]. split; [|exact Hl].
  unfold BasicInput_valid, valid_index. unfold len in *. rewrite Hl.
  split; [|exact Hmax]. rewrite Ha.
  destruct (ebiten.IsMouseButtonJustPressed i ebiten.MouseButtonLeft); [|exact H].
  match goal with |- context [topmost ?h ?s ?n] =>
    pose proof (topmost_is_topmost h s) as Ht; destruct (topmost h s n) end.
  - destruct Ht as [_ Ht]. unfold len in Ht. lia.
  - exact H.
Qed.

Lemma BasicInput_Draw_ok g :
  in_range (BasicInput.s g) (BasicInput.activeSprite g) = true ->
  exists d, BasicInput.Game_Draw g = Ok d.
Proof.
  intros H. destruct (index_ok _ _ H) as (a & E & _).
  unfold BasicInput.Game_Draw. rewrite E. eexists. reflexivity.
Qed.

(** ** One [Update] of polygon-making *)

Lemma PolygonMaking_when_moveActive (c : bool) dx dy fs es a :
  in_range es a = true ->
  when c (PolygonMaking.moveActive dx dy) (PolygonMaking.mkGame fs es a)
  = Ok (PolygonMaking.mkGame fs
          (alter_if c (fun q => PolygonMaking.Polygon_MoveBy q dx dy) (Z.to_nat a) es) a).
Proof.
  intros H. unfold when, PolygonMaking.moveActive, alter_if. destruct c; [|reflexivity].
  cbn [PolygonMaking.p PolygonMaking.activePolygon PolygonMaking.fullscreen].
  now rewrite update_ok.
Qed.

Lemma PolygonMaking_when_rotateActive (c : bool) f fs es a :
  in_range es a = true ->
  when c (PolygonMaking.rotateActive f) (PolygonMaking.mkGame fs es a)
  = Ok (PolygonMaking.mkGame fs
          (alter_if c
             (fun q => PolygonMaking.mkPolygon (PolygonMaking.id q) (PolygonMaking.x q)
                         (PolygonMaking.y q) (PolygonMaking.radius q)
                         (f (PolygonMaking.theta q)) (PolygonMaking.img q))
             (Z.to_nat a) es) a).
Proof.
  intros H. unfold when, PolygonMaking.rotateActive, alter_if. destruct c; [|reflexivity].
  cbn [PolygonMaking.p PolygonMaking.activePolygon PolygonMaking.fullscreen].
  now rewrite update_ok.
Qed.

Lemma PolygonMaking_when_nextActive (c : bool) fs es a :
  len es <> 0 ->
  when c PolygonMaking.nextActive (PolygonMaking.mkGame fs es a)
  = Ok (PolygonMaking.mkGame fs es (if c then rem (add a 1) (len es) else a)).
Proof.
  intros H. unfold when, PolygonMaking.nextActive. destruct c; [|reflexivity].
  cbn [PolygonMaking.p PolygonMaking.activePolygon PolygonMaking.fullscreen].
  destruct (Z.eqb_spec (len es) 0); [contradiction|reflexivity].
Qed.

Lemma PolygonMaking_when_toggleFullscreen (c : bool) fs es a :
  when c PolygonMaking.toggleFullscreen (PolygonMaking.mkGame fs es a)
  = Ok (PolygonMaking.mkGame (if c then negb fs else fs) es a).
Proof. unfold when. now destruct c. Qed.

Lemma PolygonMaking_when_selectAt (c : bool) cur fs es a :
  when c (PolygonMaking.selectAt cur) (PolygonMaking.mkGame fs es a)
  = Ok (PolygonMaking.mkGame fs es
          (if c then
             match topmost (fun q => PolygonMaking.Polygon_In q (fst cur) (snd cur))
                     es (length es) with
             | Some k => Z.of_nat k
             | None => a
             end
           else a)).
Proof.
  unfold when, PolygonMaking.selectAt. destruct c; [|reflexivity].
  cbn [PolygonMaking.p PolygonMaking.fullscreen].
  now destruct (topmost _ es (length es)).
Qed.

Lemma PolygonMaking_Update_spec i g :
  in_range (PolygonMaking.p g) (PolygonMaking.activePolygon g) = true ->
  exists g',
    PolygonMaking.Game_Update i g
    = Ok (g', if ebiten.IsKeyPressed i ebiten.KeyEscape
              then Some ErrCleanExit else None) /\
    length (PolygonMaking.p g') = length (PolygonMaking.p g) /\
    (forall j, j <> Z.to_nat (PolygonMaking.activePolygon g) ->
               PolygonMaking.p g' !! j = PolygonMaking.p g !! j) /\
    PolygonMaking.activePolygon g'
    = (let cycled :=
         if ebiten.IsKeyJustPressed i ebiten.KeySpace
         then rem (add (PolygonMaking.activePolygon g) 1) (len (PolygonMaking.p g))
         else PolygonMaking.activePolygon g in
       if ebiten.IsMouseButtonJustPressed i ebiten.MouseButtonLeft then
         match topmost (fun q => PolygonMaking.Polygon_In q
                                   (fst (ebiten.CursorPosition i))
                                   (snd (ebiten.CursorPosition i)))
                 (PolygonMaking.p g') (length (PolygonMaking.p g')) with
         | Some k => Z.of_nat k
         | None => cycled
         end
       else cycled).
Proof.
  destruct g as [fs es a].
  cbn [PolygonMaking.p PolygonMaking.activePolygon]. intros H.
  assert (Hne : len es <> 0) by (apply in_range_spec in H; lia).
  unfold PolygonMaking.Game_Update.
  do 4 (rewrite PolygonMaking_when_moveActive
          by (rewrite ?in_range_alter_if; exact H);
        cbn [mbind result_bind]).
  do 2 (rewrite PolygonMaking_when_rotateActive
          by (rewrite ?in_range_alter_if; exact H);
        cbn [mbind result_bind]).
  rewrite PolygonMaking_when_nextActive by (rewrite ?len_alter_if; exact Hne).
  cbn [mbind result_bind].
  rewrite PolygonMaking_when_toggleFullscreen. cbn [mbind result_bind].
  rewrite PolygonMaking_when_selectAt. cbn [mbind result_bind].
  eexists. split.
  - destruct (ebiten.IsKeyPressed i ebiten.KeyEscape); reflexivity.
  - cbn [PolygonMaking.p PolygonMaking.activePolygon].
    split; [now rewrite !length_alter_if|].
    split; [intros j Hj; now rewrite !lookup_alter_if_ne by congruence|].
    cbv zeta. rewrite !len_alter_if. reflexivity.
Qed.

Lemma rem_next_in_range a n : 0 <= a < n -> n <= int_max -> 0 <= rem (add a 1) n < n.
Proof.
  intros Ha Hn. unfold rem. rewrite add_id by (unfold is_int, int_min, int_max in *; lia).
  rewrite Z.rem_mod_nonneg by lia. apply Z.mod_pos_bound. lia.
Qed.

Lemma PolygonMaking_Update_valid i g :
  PolygonMaking_valid g ->
  exists g',
    PolygonMaking.Game_Update i g = Ok (g', escape_error i) /\
    PolygonMaking_valid g' /\
    length (PolygonMaking.p g') = length (PolygonMaking.p g).
Proof.
  intros [H Hmax].
  destruct (PolygonMaking_Update_spec i g) as (g' & E & Hl & _ & Ha);
    [now apply in_range_spec|].
  exists g'. split; [exact E|]. split; [|exact Hl].
  unfold PolygonMaking_valid, valid_index. unfold len in *. rewrite Hl. split; [|exact Hmax].
  rewrite Ha. cbv zeta.
  assert (Hc : 0 <= (if ebiten.IsKeyJustPressed i ebiten.KeySpace
                     then rem (add (PolygonMaking.activePolygon g) 1) (Z.of_nat (length (PolygonMaking.p g)))
                     else PolygonMaking.activePolygon g)
               < Z.of_nat (length (PolygonMaking.p g))).
  { destruct (ebiten.IsKeyJustPressed i ebiten.KeySpace); [|exact H].
    now apply rem_next_in_range. }
  destruct (ebiten.IsMouseButtonJustPressed i ebiten.MouseButtonLeft); [|exact Hc].
  match goal with |- context [topmost ?h ?s ?n] =>
    pose proof (topmost_is_topmost h s) as Ht; destruct (topmost h s n) end.
  - destruct Ht as [_ Ht]. unfold len in Ht. lia.
  - exact Hc.
Qed.

Lemma PolygonMaking_Draw_ok g :
  in_range (PolygonMaking.p g) (PolygonMaking.activePolygon g) = true ->
  exists d, PolygonMaking.Game_Draw g = Ok d.
Proof.
  intros H. destruct (index_ok _ _ H) as (a & E & _).
  unfold PolygonMaking.Game_Draw. rewrite E. eexists. reflexivity.
Qed.

(** ** One [Update] of the shapes demo *)

Lemma Shapes_when_moveActive (c : bool) dx dy fs es a :
  in_range es a = true ->
  when c (Shapes.moveActive dx dy) (Shapes.mkGame fs es a)
  = Ok (Shapes.mkGame fs
          (alter_if c (fun q => Shapes.Shape_MoveBy q dx dy) (Z.to_nat a) es) a).
Proof.
  intros H. unfold when, Shapes.moveActive, alter_if. destruct c; [|reflexivity].
  cbn [Shapes.s Shapes.activeShape Shapes.fullscreen].
  now rewrite update_ok.
Qed.

Lemma Shapes_when_rotateActive (c : bool) f fs es a :
  in_range es a = true ->
  when c (Shapes.rotateActive f) (Shapes.mkGame fs es a)
  = Ok (Shapes.mkGame fs
          (alter_if c
             (fun q => Shapes.mkShape (Shapes.id q) (Shapes.x q) (Shapes.y q)
                         (f (Shapes.theta q)) (Shapes.img q))
             (Z.to_nat a) es) a).
Proof.
  intros H. unfold when, Shapes.rotateActive, alter_if. destruct c; [|reflexivity].
  cbn [Shapes.s Shapes.activeShape Shapes.fullscreen].
  now rewrite update_ok.
Qed.

Lemma Shapes_when_nextActive (c : bool) fs es a :
  len es <> 0 ->
  when c Shapes.nextActive (Shapes.mkGame fs es a)
  = Ok (Shapes.mkGame fs es (if c then rem (add a 1) (len es) else a)).
Proof.
  intros H. unfold when, Shapes.nextActive. destruct c; [|reflexivity].
  cbn [Shapes.s Shapes.activeShape Shapes.fullscreen].
  destruct (Z.eqb_spec (len es) 0); [contradiction|reflexivity].
Qed.

Lemma Shapes_when_toggleFullscreen (c : bool) fs es a :
  when c Shapes.toggleFullscreen (Shapes.mkGame fs es a)
  = Ok (Shapes.mkGame (if c then negb fs else fs) es a).
Proof. unfold when. now destruct c. Qed.

Lemma Shapes_when_selectAt (c : bool) cur fs es a :
  when c (Shapes.selectAt cur) (Shapes.mkGame fs es a)
  = Ok (Shapes.mkGame fs es
          (if c then
             match topmost (fun q => Shapes.Shape_In q (fst cur) (snd cur))
                     es (length es) with
             | Some k => Z.of_nat k
             | None => a
             end
           else a)).
Proof.
  unfold when, Shapes.selectAt. destruct c; [|reflexivity].
  cbn [Shapes.s Shapes.fullscreen].
  now destruct (topmost _ es (length es)).
Qed.

Lemma Shapes_Update_spec i g :
  in_range (Shapes.s g) (Shapes.activeShape g) = true ->
  exists g',
    Shapes.Game_Update i g
    = Ok (g', if ebiten.IsKeyPressed i ebiten.KeyEscape
              then Some ErrCleanExit else None) /\
    length (Shapes.s g') = length (Shapes.s g) /\
    (forall j, j <> Z.to_nat (Shapes.activeShape g) ->
               Shapes.s g' !! j = Shapes.s g !! j) /\
    Shapes.activeShape g'
    = (let cycled :=
         if ebiten.IsKeyJustPressed i ebiten.KeySpace
         then rem (add (Shapes.activeShape g) 1) (len (Shapes.s g))
         else Shapes.activeShape g in
       if ebiten.IsMouseButtonJustPressed i ebiten.MouseButtonLeft then
         match topmost (fun q => Shapes.Shape_In q
                                   (fst (ebiten.CursorPosition i))
                                   (snd (ebiten.CursorPosition i)))
                 (Shapes.s g') (length (Shapes.s g')) with
         | Some k => Z.of_nat k
         | None => cycled
         end
       else cycled).
Proof.
  destruct g as [fs es a].
  cbn [Shapes.s Shapes.activeShape]. intros H.
  assert (Hne : len es <> 0) by (apply in_range_spec in H; lia).
  unfold Shapes.Game_Update.
  do 4 (rewrite Shapes_when_moveActive
          by (rewrite ?in_range_alter_if; exact H);
        cbn [mbind result_bind]).
  do 2 (rewrite Shapes_when_rotateActive
          by (rewrite ?in_range_alter_if; exact H);
        cbn [mbind result_bind]).
  rewrite Shapes_when_nextActive by (rewrite ?len_alter_if; exact Hne).
  cbn [mbind result_bind].
  rewrite Shapes_when_toggleFullscreen. cbn [mbind result_bind].
  rewrite Shapes_when_selectAt. cbn [mbind result_bind].
  eexists. split.
  - destruct (ebiten.IsKeyPressed i ebiten.KeyEscape); reflexivity.
  - cbn [Shapes.s Shapes.activeShape].
    split; [now rewrite !length_alter_if|].
    split; [intros j Hj; now rewrite !lookup_alter_if_ne by congruence|].
    cbv zeta. rewrite !len_alter_if. reflexivity.
Qed.

Lemma Shapes_Update_valid i g :
  Shapes_valid g ->
  exists g',
    Shapes.Game_Update i g = Ok (g', escape_error i) /\
    Shapes_valid g' /\
    length (Shapes.s g') = length (Shapes.s g).
Proof.
  intros [H Hmax].
  destruct (Shapes_Update_spec i g) as (g' & E & Hl & _ & Ha);
    [now apply in_range_spec|].
  exists g'. split; [exact E|]. split; [|exact Hl].
  unfold Shapes_valid, valid_index. unfold len in *. rewrite Hl. split; [|exact Hmax].
  rewrite Ha. cbv zeta.
  assert (Hc : 0 <= (if ebiten.IsKeyJustPressed i ebiten.KeySpace
                     then rem (add (Shapes.activeShape g) 1) (Z.of_nat (length (Shapes.s g)))
                     else Shapes.activeShape g)
               < Z.of_nat (length (Shapes.s g))).
  { destruct (ebiten.IsKeyJustPressed i ebiten.KeySpace); [|exact H].
    now apply rem_next_in_range. }
  destruct (ebiten.IsMouseButtonJustPressed i ebiten.MouseButtonLeft); [|exact Hc].
  match goal with |- context [topmost ?h ?s ?n] =>
    pose proof (topmost_is_topmost h s) as Ht; destruct (topmost h s n) end.
  - destruct Ht as [_ Ht]. unfold len in Ht. lia.
  - exact Hc.
Qed.

Lemma Shapes_Draw_ok g :
  in_range (Shapes.s g) (Shapes.activeShape g) = true ->
  exists d, Shapes.Game_Draw g = Ok d.
Proof.
  intros H. destruct (index_ok _ _ H) as (a & E & _).
  unfold Shapes.Game_Draw. rewrite E. eexists. reflexivity.
Qed.

(** ** One [Update] of connect-lines *)

Lemma ConnectLines_when_moveSelected (c : bool) dx dy fs es cs a :
  in_range es a = true ->
  when c (ConnectLines.moveSelected dx dy) (ConnectLines.mkGame fs es cs a)
  = Ok (ConnectLines.mkGame fs
          (alter_if c (fun b => ConnectLines.Block_Move b dx dy) (Z.to_nat a) es) cs a).
Proof.
  intros H. unfold when, ConnectLines.moveSelected, alter_if. destruct c; [|reflexivity].
  cbn [ConnectLines.blocks ConnectLines.selected ConnectLines.fullscreen
       ConnectLines.connections].
  now rewrite update_ok.
Qed.

Lemma ConnectLines_when_toggleFullscreen (c : bool) fs es cs a :
  when c ConnectLines.toggleFullscreen (ConnectLines.mkGame fs es cs a)
  = Ok (ConnectLines.mkGame (if c then negb fs else fs) es cs a).
Proof. unfold when. now destruct c. Qed.

Lemma ConnectLines_when_selectAt (c : bool) cur fs es cs a :
  when c (ConnectLines.selectAt cur) (ConnectLines.mkGame fs es cs a)
  = Ok (ConnectLines.mkGame fs es cs
          (if c then
             match topmost (fun b => ConnectLines.Block_In b (fst cur) (snd cur))
                     es (length es) with
             | Some k => Z.of_nat k
             | None => a
             end
           else a)).
Proof.
  unfold when, ConnectLines.selectAt. destruct c; [|reflexivity].
  cbn [ConnectLines.blocks ConnectLines.fullscreen ConnectLines.connections].
  now destruct (topmost _ es (length es)).
Qed.

Lemma ConnectLines_when_connectAt (c : bool) cur fs es cs a :
  when c (ConnectLines.connectAt cur) (ConnectLines.mkGame fs es cs a)
  = Ok (ConnectLines.mkGame fs es
          (cs ++
           (if c then
              match topmost (fun b => ConnectLines.Block_In b (fst cur) (snd cur))
                      es (length es) with
              | Some k =>
                  if negb (Z.of_nat k =? a) then [ConnectLines.mkconnected a (Z.of_nat k)]
                  else []
              | None => []
              end
            else []))
          a).
Proof.
  unfold when, ConnectLines.connectAt. destruct c; [|now rewrite app_nil_r].
  cbn [ConnectLines.blocks ConnectLines.fullscreen ConnectLines.connections
       ConnectLines.selected].
  destruct (topmost _ es (length es)) as [k|]; [|now rewrite app_nil_r].
  destruct (negb (Z.of_nat k =? a)); [reflexivity|now rewrite app_nil_r].
Qed.

Lemma ConnectLines_Update_spec i g :
  in_range (ConnectLines.blocks g) (ConnectLines.selected g) = true ->
  exists g',
    ConnectLines.Game_Update i g
    = Ok (g', if ebiten.IsKeyPressed i ebiten.KeyEscape
              then Some ErrCleanExit else None) /\
    length (ConnectLines.blocks g') = length (ConnectLines.blocks g) /\
    (forall j, j <> Z.to_nat (ConnectLines.selected g) ->
               ConnectLines.blocks g' !! j = ConnectLines.blocks g !! j) /\
    (let hit := fun b => ConnectLines.Block_In b (fst (ebiten.CursorPosition i))
                           (snd (ebiten.CursorPosition i)) in
     let top := topmost hit (ConnectLines.blocks g') (length (ConnectLines.blocks g')) in
     ConnectLines.selected g'
     = (if ebiten.IsMouseButtonJustPressed i ebiten.MouseButtonLeft then
          match top with Some k => Z.of_nat k | None => ConnectLines.selected g end
        else ConnectLines.selected g) /\
     ConnectLines.connections g'
     = ConnectLines.connections g ++
       (if ebiten.IsMouseButtonJustPressed i ebiten.MouseButtonRight then
          match top with
          | Some k =>
              if negb (Z.of_nat k =? ConnectLines.selected g')
              then [ConnectLines.mkconnected (ConnectLines.selected g') (Z.of_nat k)]
              else []
          | None => []
          end
        else [])).
Proof.
  destruct g as [fs es cs a].
  cbn [ConnectLines.blocks ConnectLines.selected ConnectLines.connections]. intros H.
  unfold ConnectLines.Game_Update.
  do 4 (rewrite ConnectLines_when_moveSelected
          by (rewrite ?in_range_alter_if; exact H);
        cbn [mbind result_bind]).
  rewrite ConnectLines_when_toggleFullscreen. cbn [mbind result_bind].
  rewrite ConnectLines_when_selectAt. cbn [mbind result_bind].
  rewrite ConnectLines_when_connectAt. cbn [mbind result_bind].
  eexists. split.
  - destruct (ebiten.IsKeyPressed i ebiten.KeyEscape); reflexivity.
  - cbn [ConnectLines.blocks ConnectLines.selected ConnectLines.connections].
    split; [now rewrite !length_alter_if|].
    split; [intros j Hj; now rewrite !lookup_alter_if_ne by congruence|].
    cbv zeta. split; reflexivity.
Qed.

Lemma ConnectLines_Update_valid i g :
  ConnectLines_valid g ->
  exists g',
    ConnectLines.Game_Update i g = Ok (g', escape_error i) /\
    ConnectLines_valid g' /\
    length (ConnectLines.blocks g') = length (ConnectLines.blocks g).
Proof.
  intros [[H Hmax] Hc].
  destruct (ConnectLines_Update_spec i g) as (g' & E & Hl & _ & Hsel & Hcon);
    [now apply in_range_spec|].
  cbv zeta in Hsel, Hcon.
  pose proof (topmost_is_topmost
                (fun b => ConnectLines.Block_In b (fst (ebiten.CursorPosition i))
                            (snd (ebiten.CursorPosition i)))
                (ConnectLines.blocks g')) as Ht.
  assert (Hlen : len (ConnectLines.blocks g') = len (ConnectLines.blocks g))
    by (unfold len; now rewrite Hl).
  assert (Hs : 0 <= ConnectLines.selected g' < len (ConnectLines.blocks g')).
  { rewrite Hsel, Hlen.
    destruct (ebiten.IsMouseButtonJustPressed i ebiten.MouseButtonLeft); [|exact H].
    destruct (topmost _ _ _); [|exact H].
    destruct Ht as [_ Ht]. lia. }
  exists g'. split; [exact E|]. split; [|exact Hl].
  split; [split; [exact Hs|now rewrite Hlen]|].
  rewrite Hcon, Hlen. apply Forall_app. split; [exact Hc|].
  destruct (ebiten.IsMouseButtonJustPressed i ebiten.MouseButtonRight); [|constructor].
  destruct (topmost _ _ _) as [k|]; [|constructor].
  destruct (Z.eqb_spec (Z.of_nat k) (ConnectLines.selected g')); simpl; constructor;
    [|constructor].
  destruct Ht as [_ Ht]. unfold valid_connection. simpl. lia.
Qed.

Lemma ConnectLines_drawConnection_ok g c :
  valid_connection (len (ConnectLines.blocks g)) c ->
  exists d, ConnectLines.drawConnection g c = Ok d.
Proof.
  intros (_ & H1 & H2).
  destruct (index_ok (ConnectLines.blocks g) (ConnectLines.blk1 c)) as (b1 & E1 & _);
    [now apply in_range_spec|].
  destruct (index_ok (ConnectLines.blocks g) (ConnectLines.blk2 c)) as (b2 & E2 & _);
    [now apply in_range_spec|].
  unfold ConnectLines.drawConnection. rewrite E1, E2. eexists. reflexivity.
Qed.

Lemma ConnectLines_Draw_ok g :
  in_range (ConnectLines.blocks g) (ConnectLines.selected g) = true ->
  Forall (valid_connection (len (ConnectLines.blocks g))) (ConnectLines.connections g) ->
  exists d, ConnectLines.Game_Draw g = Ok d.
Proof.
  intros H Hc. destruct (index_ok _ _ H) as (a & E & _).
  unfold ConnectLines.Game_Draw. rewrite E. cbn [mbind result_bind].
  assert (Hm : exists lines,
             mapM (ConnectLines.drawConnection g) (ConnectLines.connections g) = Ok lines).
  { induction Hc as [|c cs Hv _ IH]; [eexists; reflexivity|].
    destruct IH as [lines El].
    destruct (ConnectLines_drawConnection_ok g c Hv) as [d Ed].
    cbn [mapM]. rewrite Ed. cbn [mbind result_bind]. rewrite El.
    eexists. reflexivity. }
  destruct Hm as [lines El]. rewrite El. eexists. reflexivity.
Qed.

(** ** One [Update] of starfield *)

Lemma Starfield_Update_spec i g :
  exists g',
    Starfield.Game_Update i g
    = Ok (g', if ebiten.IsKeyPressed i ebiten.KeyEscape
              then Some ErrCleanExit else None) /\
    length (Starfield.nearStars g') = length (Starfield.nearStars g) /\
    length (Starfield.farStars g') = length (Starfield.farStars g).
Proof.
  unfold Starfield.Game_Update, when, Starfield.MoveView, Starfield.toggleFullscreen.
  destruct (ebiten.IsKeyPressed i ebiten.KeyUp || ebiten.IsKeyPressed i ebiten.KeyW),
    (ebiten.IsKeyPressed i ebiten.KeyDown || ebiten.IsKeyPressed i ebiten.KeyS),
    (ebiten.IsKeyPressed i ebiten.KeyLeft || ebiten.IsKeyPressed i ebiten.KeyA),
    (ebiten.IsKeyPressed i ebiten.KeyRight || ebiten.IsKeyPressed i ebiten.KeyD),
    (ebiten.IsKeyJustPressed i ebiten.KeyF),
    (ebiten.IsKeyPressed i ebiten.KeyEscape);
    cbn [mbind result_bind Starfield.nearStars Starfield.farStars Starfield.fullscreen];
    (eexists; split; [reflexivity|]);
    cbn [Starfield.nearStars Starfield.farStars];
    rewrite ?length_map; split; reflexivity.
Qed.

Lemma Starfield_Draw_ok g : exists d, Starfield.Game_Draw g = Ok d.
Proof. eexists. reflexivity. Qed.

(** ** Polygon fans *)

Lemma store_ok {A : Type} (s : list A) i a :
  in_range s i = true -> store s i a = Ok (<[Z.to_nat i := a]> s).
Proof. intros H. unfold store. now rewrite H. Qed.

Lemma for_from_store {A : Type} (f : Z -> A) k : forall n (vs : list A),
  (n + k <= length vs)%nat ->
  exists vs',
    for_from k (Z.of_nat n) (fun i vs => store vs i (f i)) vs = Ok vs' /\
    length vs' = length vs /\
    (forall j, (n <= j < n + k)%nat -> vs' !! j = Some (f (Z.of_nat j))) /\
    (forall j, ~ (n <= j < n + k)%nat -> vs' !! j = vs !! j).
Proof.
  induction k as [|k IH]; intros n vs Hlen.
  - exists vs. split; [reflexivity|]. split; [reflexivity|].
    split; [intros j Hj; lia|reflexivity].
  - cbn [for_from].
    rewrite store_ok by (apply in_range_spec; unfold len; lia).
    cbn [mbind result_bind]. rewrite Nat2Z.id.
    replace (Z.of_nat n + 1) with (Z.of_nat (S n)) by lia.
    destruct (IH (S n) (<[n := f (Z.of_nat n)]> vs)) as (vs' & E & Hl & Hin & Hout);
      [rewrite length_insert; lia|].
    exists vs'. split; [exact E|]. rewrite length_insert in Hl. split; [exact Hl|].
    split.
    + intros j Hj. destruct (decide (j = n)) as [->|Hne].
      * rewrite Hout by lia. apply list_lookup_insert_eq. lia.
      * apply Hin. lia.
    + intros j Hj. rewrite Hout by lia. apply list_lookup_insert_ne. lia.
Qed.

(** The triangle appended for side [i]. *)
Lemma appendTriangle_ok num i indices :
  uint16 num <> 0 ->
  Fan.appendTriangle num i indices
  = Ok (indices ++ [uint16 i; Z.rem (uint16 (add i 1)) (uint16 num); uint16 num]).
Proof.
  intros H. unfold Fan.appendTriangle.
  destruct (Z.eqb_spec (uint16 num) 0); [contradiction|reflexivity].
Qed.

Lemma for_from_appendTriangle num k : forall n acc,
  uint16 num <> 0 ->
  exists tail,
    for_from k (Z.of_nat n) (Fan.appendTriangle num) acc = Ok (acc ++ tail) /\
    length tail = (3 * k)%nat /\
    forall j, (j < k)%nat ->
      tail !! (3 * j)%nat = Some (uint16 (Z.of_nat (n + j))) /\
      tail !! (3 * j + 1)%nat
        = Some (Z.rem (uint16 (add (Z.of_nat (n + j)) 1)) (uint16 num)) /\
      tail !! (3 * j + 2)%nat = Some (uint16 num).
Proof.
  induction k as [|k IH]; intros n acc H.
  - exists []. split; [cbn [for_from]; now rewrite app_nil_r|].
    split; [reflexivity|]. intros j Hj. lia.
  - cbn [for_from]. rewrite appendTriangle_ok by exact H. cbn [mbind result_bind].
    replace (Z.of_nat n + 1) with (Z.of_nat (S n)) by lia.
    destruct (IH (S n)
                (acc ++ [uint16 (Z.of_nat n);
                         Z.rem (uint16 (add (Z.of_nat n) 1)) (uint16 num);
                         uint16 num]) H) as (tail & E & Hl & Ht).
    exists ([uint16 (Z.of_nat n); Z.rem (uint16 (add (Z.of_nat n) 1)) (uint16 num);
             uint16 num] ++ tail).
    split; [rewrite E; now rewrite <- app_assoc|].
    split; [rewrite length_app, Hl; simpl; lia|].
    intros j Hj. destruct j as [|j].
    + rewrite Nat.add_0_r. simpl. auto.
    + specialize (Ht j ltac:(lia)).
      replace (n + S j)%nat with (S n + j)%nat by lia.
      replace (3 * S j)%nat with (3 + 3 * j)%nat by lia.
      destruct Ht as (H0 & H1 & H2).
      repeat split.
      * exact H0.
      * replace (3 + 3 * j + 1)%nat with (3 + (3 * j + 1))%nat by lia. exact H1.
      * replace (3 + 3 * j + 2)%nat with (3 + (3 * j + 2))%nat by lia. exact H2.
Qed.

Lemma make_ok {A : Type} (size n : Z) (zero : A) :
  0 <= n -> size * n <= maxAlloc -> make size n zero = Ok (replicate (Z.to_nat n) zero).
Proof.
  intros Hn Hs. unfold make.
  destruct (Z.ltb_spec n 0); [lia|]. destruct (Z.gtb_spec (size * n) maxAlloc); [lia|].
  reflexivity.
Qed.

Lemma make_panics {A : Type} (size n : Z) (zero : A) :
  n < 0 \/ maxAlloc < size * n -> make size n zero = Panic MakeLenOutOfRange.
Proof.
  intros H. unfold make.
  destruct (Z.ltb_spec n 0); [reflexivity|].
  destruct (Z.gtb_spec (size * n) maxAlloc); [reflexivity|lia].
Qed.

Lemma Fan_vertices_ok cr cg cb ca radius num :
  0 <= num < 2 ^ 43 ->
  exists vs,
    Fan.vertices cr cg cb ca radius num = Ok vs /\
    len vs = num + 1 /\
    (forall i, 0 <= i < num ->
       vs !! Z.to_nat i = Some (Fan.rimVertex cr cg cb ca radius num i)) /\
    vs !! Z.to_nat num = Some (Fan.centerVertex cr cg cb ca radius).
Proof.
  intros Hn. unfold Fan.vertices.
  assert (Hadd : add num 1 = num + 1).
  { apply add_id. unfold is_int, int_min, int_max in *. lia. }
  rewrite Hadd, make_ok by (unfold Fan.Vertex_size, maxAlloc; lia).
  cbn [mbind result_bind]. unfold for_lt.
  destruct (for_from_store (Fan.rimVertex cr cg cb ca radius num) (Z.to_nat num) 0
              (replicate (Z.to_nat (num + 1)) Fan.zeroVertex))
    as (vs & E & Hl & Hin & Hout); [rewrite length_replicate; lia|].
  change (Z.of_nat 0) with 0 in E. rewrite E. cbn [mbind result_bind].
  rewrite length_replicate in Hl.
  assert (Hlen : len vs = num + 1) by (unfold len; rewrite Hl; lia).
  rewrite Hlen. rewrite sub_id by (unfold is_int, int_min, int_max in *; lia).
  replace (num + 1 - 1) with num by lia.
  rewrite store_ok by (apply in_range_spec; lia).
  eexists. split; [reflexivity|].
  split; [unfold len; rewrite length_insert; exact Hlen|].
  split.
  - intros i Hi. rewrite list_lookup_insert_ne by lia.
    rewrite Hin by lia. now rewrite Z2Nat.id by lia.
  - apply list_lookup_insert_eq. lia.
Qed.

Lemma Fan_indices_ok num :
  1 <= num <= 65535 ->
  exists indices,
    Fan.fanIndices num = Ok indices /\
    len indices = 3 * num /\
    forall i, 0 <= i < num ->
      indices !! Z.to_nat (3 * i) = Some i /\
      indices !! Z.to_nat (3 * i + 1) = Some ((i + 1) mod num) /\
      indices !! Z.to_nat (3 * i + 2) = Some num.
Proof.
  intros Hn.
  assert (Hu : forall z, 0 <= z <= 65535 -> uint16 z = z).
  { intros z Hz. unfold uint16. apply Z.mod_small. lia. }
  assert (Hm : uint16 num <> 0) by (rewrite Hu; lia).
  destruct (for_from_appendTriangle num (Z.to_nat num) 0 [] Hm) as (tail & E & Hl & Ht).
  exists tail. unfold Fan.fanIndices, for_lt.
  change (Z.of_nat 0) with 0 in E. split; [exact E|].
  split; [unfold len; lia|].
  intros i Hi. specialize (Ht (Z.to_nat i) ltac:(lia)).
  rewrite Nat.add_0_l, Z2Nat.id in Ht by lia.
  rewrite (Hu i), (Hu num) in Ht by lia.
  rewrite add_id in Ht by (unfold is_int, int_min, int_max; lia).
  rewrite (Hu (i + 1)) in Ht by lia.
  rewrite Z.rem_mod_nonneg in Ht by lia.
  replace (Z.to_nat (3 * i)) with (3 * Z.to_nat i)%nat by lia.
  replace (Z.to_nat (3 * i + 1)) with (3 * Z.to_nat i + 1)%nat by lia.
  replace (Z.to_nat (3 * i + 2)) with (3 * Z.to_nat i + 2)%nat by lia.
  exact Ht.
Qed.

Lemma Fan_genPolygon_is_fan cr cg cb ca radius num :
  1 <= num <= 65535 ->
  exists vs indices,
    Fan.genPolygon cr cg cb ca radius num = Ok (vs, indices) /\
    is_fan radius num vs indices.
Proof.
  intros Hn.
  destruct (Fan_vertices_ok cr cg cb ca radius num) as (vs & Ev & Hl & Hrim & Hc);
    [unfold int_max; lia|].
  destruct (Fan_indices_ok num Hn) as (indices & Ei & Hil & Hidx).
  exists vs, indices. unfold Fan.genPolygon. rewrite Ev, Ei.
  split; [reflexivity|]. unfold is_fan.
  split; [exact Hl|]. split.
  - intros i Hi. eexists. split; [now apply Hrim|]. split; reflexivity.
  - split; [eexists; split; [exact Hc|split; reflexivity]|].
    split; [exact Hil|exact Hidx].
Qed.

Lemma Fan_genPolygon_65536 cr cg cb ca radius :
  Fan.genPolygon cr cg cb ca radius 65536 = Panic DivideByZero.
Proof.
  destruct (Fan_vertices_ok cr cg cb ca radius 65536) as (vs & Ev & _);
    [unfold int_max; lia|].
  unfold Fan.genPolygon. rewrite Ev. cbn [mbind result_bind].
  unfold Fan.fanIndices, for_lt.
  replace (Z.to_nat 65536) with (S (Z.to_nat 65535)) by lia.
  reflexivity.
Qed.

Lemma PolygonMaking_genPolygon_eq radius num :
  PolygonMaking.genPolygon radius num
  = Fan.genPolygon (Fconst 1) (Fconst 1) (Fconst 1) (Fconst 1) radius num.
Proof. reflexivity. Qed.

(** C6, as stated, fails at 65536 sides: [uint16(num)] is 0 and the index
    loop divides by it. *)
Lemma genPolygon_65536_panics :
  ~ exists vs indices,
      PolygonMaking.genPolygon 20 65536 = Ok (vs, indices) /\
      is_fan 20 65536 vs indices.
Proof.
  intros (vs & indices & E & _).
  rewrite PolygonMaking_genPolygon_eq, Fan_genPolygon_65536 in E. discriminate E.
Qed.

(** C6 (amended).  For every radius and every number of sides from 3 to
    65535, both [genPolygon] functions return [num + 1] vertices, vertex
    [i] at angle [2*pi*i/num] on the circle of radius [radius] centred at
    [(radius, radius)] and the last one at the centre, together with
    [3 * num] indices whose [i]-th triangle is [(i, (i+1) mod num, num)]. *)
Theorem genPolygon_fan (radius num : Z) (clr : color.RGBA) :
  3 <= num <= 65535 ->
  (exists vs indices,
      PolygonMaking.genPolygon radius num = Ok (vs, indices) /\
      is_fan radius num vs indices) /\
  (exists vs indices,
      Polygons.genPolygon radius num clr = Ok (vs, indices) /\
      is_fan radius num vs indices).
Proof.
  intros Hn. split.
  - rewrite PolygonMaking_genPolygon_eq. apply Fan_genPolygon_is_fan. lia.
  - unfold Polygons.genPolygon. apply Fan_genPolygon_is_fan. lia.
Qed.

Lemma genPolygon_fan_witness :
  (exists vs indices,
      PolygonMaking.genPolygon 20 5 = Ok (vs, indices) /\ is_fan 20 5 vs indices) /\
  (exists vs indices,
      Polygons.genPolygon 20 5 (color.mkRGBA 255 0 0 255) = Ok (vs, indices) /\
      is_fan 20 5 vs indices).
Proof. apply (genPolygon_fan 20 5 (color.mkRGBA 255 0 0 255)). lia. Defined.

(** ** Hit tests and drawing *)

Lemma Q_translate px a c :
  Qeq (Qplus (inject_Z px) (inject_Z a)) (inject_Z c) <-> px = c - a.
Proof. rewrite <- inject_Z_plus, inject_Z_injective. lia. Qed.

Lemma Q_center px r a c :
  Qeq (Qplus (Qplus (inject_Z px) (Qdiv (Qopp (inject_Z (2 * r))) (inject_Z 2)))
             (inject_Z a))
      (inject_Z c)
  <-> px = c - a + r.
Proof.
  assert (E : Qeq (Qdiv (Qopp (inject_Z (2 * r))) (inject_Z 2)) (inject_Z (- r))).
  { unfold Qeq, Qdiv, Qmult, Qinv, Qopp, inject_Z. simpl. lia. }
  rewrite E, <- !inject_Z_plus, inject_Z_injective. lia.
Qed.

Lemma exact_sub a b : exact_int a -> exact_int b -> sub a b = a - b.
Proof.
  unfold exact_int. intros Ha Hb. apply sub_id.
  unfold is_int, int_min, int_max. lia.
Qed.

Lemma Sprite_In_drawn s cx cy :
  exact_int (BasicInput.x s) -> exact_int (BasicInput.y s) ->
  exact_int cx -> exact_int cy ->
  BasicInput.Sprite_In s cx cy = true
  <-> opaque_on_screen (BasicInput.Sprite_Draw s 0 0) cx cy.
Proof.
  intros Hx Hy Hcx Hcy. unfold BasicInput.Sprite_In, BasicInput.Sprite_Draw.
  rewrite !exact_sub by assumption.
  rewrite !add_id by (unfold exact_int, is_int, int_min, int_max in *; lia).
  rewrite !Z.add_0_r, Z.ltb_lt. cbn [opaque_on_screen]. split.
  - intros H. exists (cx - BasicInput.x s), (cy - BasicInput.y s). eexists.
    split; [reflexivity|]. cbn [fst snd].
    split; [apply Q_translate; lia|]. split; [apply Q_translate; lia|exact H].
  - intros (px & py & q & E & H1 & H2 & H). cbn in E. injection E as <-.
    cbn [fst snd] in H1, H2. apply Q_translate in H1, H2. now subst px py.
Qed.

Lemma Polygon_In_drawn q cx cy :
  let r := PolygonMaking.radius q in
  unrotated (PolygonMaking.theta q) ->
  ebiten.Size (PolygonMaking.img q) = (2 * r, 2 * r) ->
  exact_int (PolygonMaking.x q) -> exact_int (PolygonMaking.y q) -> exact_int r ->
  exact_int cx -> exact_int cy ->
  PolygonMaking.Polygon_In q cx cy = true
  <-> opaque_on_screen (PolygonMaking.Polygon_Draw q) cx cy.
Proof.
  intros r (t & Et & Ht) HS Hx Hy Hr Hcx Hcy. subst r.
  unfold PolygonMaking.Polygon_In, PolygonMaking.Polygon_Draw. rewrite HS.
  rewrite !exact_sub by assumption.
  rewrite !add_id by (unfold exact_int, is_int, int_min, int_max in *; lia).
  rewrite Z.ltb_lt. cbn [opaque_on_screen].
  assert (EG : forall px py,
             GeoM_apply
               [ebiten.Translate
                  (Fdiv (Fneg (F64_of_int (2 * PolygonMaking.radius q))) (Fconst 2))
                  (Fdiv (Fneg (F64_of_int (2 * PolygonMaking.radius q))) (Fconst 2));
                ebiten.Rotate (PolygonMaking.theta q);
                ebiten.Translate (F64_of_int (PolygonMaking.x q))
                  (F64_of_int (PolygonMaking.y q))]
               (inject_Z px, inject_Z py)
             = Some
                 (Qplus (Qplus (inject_Z px)
                           (Qdiv (Qopp (inject_Z (2 * PolygonMaking.radius q)))
                              (inject_Z 2)))
                    (inject_Z (PolygonMaking.x q)),
                  Qplus (Qplus (inject_Z py)
                           (Qdiv (Qopp (inject_Z (2 * PolygonMaking.radius q)))
                              (inject_Z 2)))
                    (inject_Z (PolygonMaking.y q)))).
  { intros px py. cbn [GeoM_apply GeoOp_apply Fvalue mbind option_bind].
    rewrite Et. cbn [mbind option_bind]. rewrite Ht. reflexivity. }
  split.
  - intros H.
    exists (cx - PolygonMaking.x q + PolygonMaking.radius q),
           (cy - PolygonMaking.y q + PolygonMaking.radius q).
    eexists. split; [apply EG|]. cbn [fst snd].
    split; [apply Q_center; lia|]. split; [apply Q_center; lia|exact H].
  - intros (px & py & p & E & H1 & H2 & H). rewrite EG in E. injection E as <-.
    cbn [fst snd] in H1, H2. apply Q_center in H1, H2. now subst px py.
Qed.

Lemma Polygon_In_theta q t cx cy :
  PolygonMaking.Polygon_In
    (PolygonMaking.mkPolygon (PolygonMaking.id q) (PolygonMaking.x q) (PolygonMaking.y q)
       (PolygonMaking.radius q) t (PolygonMaking.img q)) cx cy
  = PolygonMaking.Polygon_In q cx cy.
Proof. reflexivity. Qed.

(** The two [NewPolygon] functions build an image of [2 * radius] by
    [2 * radius] pixels. *)
Lemma NewPolygon_size raster id x y theta radius sides clr q :
  exact_int radius ->
  PolygonMaking.NewPolygon raster id x y theta radius sides clr = Ok q ->
  PolygonMaking.radius q = radius /\ PolygonMaking.theta q = theta /\
  ebiten.Size (PolygonMaking.img q) = (2 * radius, 2 * radius).
Proof.
  intros Hr. unfold PolygonMaking.NewPolygon.
  rewrite mul_id by (unfold exact_int, is_int, int_min, int_max in *; lia).
  destruct (if sides =? 3 then _ else _) as [vi|]; [|discriminate].
  cbn [mbind result_bind]. intros [= <-]. cbn.
  repeat split. f_equal; lia.
Qed.

(** The rectangle of the shapes demo, at its start position, is drawn over
    the screen points from 185 to 214 but hit over those from 170 to 199. *)
Lemma shape_drawn_not_hit :
  let s := Shapes.NewShape "Rectangle" 200 200 (Fconst 0) (solid 30 30) in
  opaque_on_screen (Shapes.Shape_Draw s) 210 210 /\ Shapes.Shape_In s 210 210 = false.
Proof.
  split; [|vm_compute; reflexivity].
  exists 25, 25. eexists. split; [reflexivity|].
  split; [reflexivity|]. split; [reflexivity|]. vm_compute. reflexivity.
Qed.

(** The rectangle of the shapes demo, at its start position, is hit at
    screen point (180, 180), which none of its pixels is drawn on. *)
Lemma shape_hit_outside_drawing :
  let s := Shapes.NewShape "Rectangle" 200 200 (Fconst 0) (solid 30 30) in
  ~ (Shapes.Shape_In s 180 180 = true ->
     opaque_on_screen (Shapes.Shape_Draw s) 180 180).
Proof.
  intros s H.
  assert (Hin : Shapes.Shape_In s 180 180 = true) by (vm_compute; reflexivity).
  change (Shapes.Shape_Draw s) with
    (ebiten.DrawImage (solid 30 30)
       [ebiten.Translate (Fdiv (Fneg (F64_of_int 30)) (Fconst 2))
          (Fdiv (Fneg (F64_of_int 30)) (Fconst 2));
        ebiten.Rotate (Fconst 0);
        ebiten.Translate (F64_of_int 200) (F64_of_int 200)] None) in H.
  cbn [opaque_on_screen] in H.
  destruct (H Hin) as (px & py & q & E & H1 & _ & Ha).
  assert (EG : GeoM_apply
                 [ebiten.Translate (Fdiv (Fneg (F64_of_int 30)) (Fconst 2))
                    (Fdiv (Fneg (F64_of_int 30)) (Fconst 2));
                  ebiten.Rotate (Fconst 0);
                  ebiten.Translate (F64_of_int 200) (F64_of_int 200)]
                 (inject_Z px, inject_Z py)
               = Some (Qplus (Qplus (inject_Z px)
                                (Qdiv (Qopp (inject_Z (2 * 15))) (inject_Z 2)))
                         (inject_Z 200),
                       Qplus (Qplus (inject_Z py)
                                (Qdiv (Qopp (inject_Z (2 * 15))) (inject_Z 2)))
                         (inject_Z 200))) by reflexivity.
  rewrite EG in E. injection E as <-. cbn [fst] in H1.
  apply Q_center in H1. subst px.
  vm_compute in Ha. discriminate Ha.
Qed.

(** C3.  The hit test of the shapes demo is off the picture it draws.
    The demo's rectangle, a 30 by 30 bitmap with every pixel opaque, at
    its start position (200, 200), is drawn over the screen points from
    185 to 214 in both directions.  [Shape.In] is true at (180, 180),
    where nothing of it is drawn, and false at (210, 210), where it is
    drawn: it adds the full width where [Shape.Draw] centres with half
    of it.  A polygon of polygon-making with the same bitmap, position
    and draw call, whose [In] adds the radius (half the width), is hit at
    (210, 210) and not at (180, 180). *)
Theorem shape_hit_test_misses_drawing :
  let s := Shapes.NewShape "Rectangle" 200 200 (Fconst 0) (solid 30 30) in
  let q := PolygonMaking.mkPolygon "Rectangle" 200 200 15 (Fconst 0) (solid 30 30) in
  (Shapes.Shape_In s 180 180 = true /\
   ~ opaque_on_screen (Shapes.Shape_Draw s) 180 180) /\
  (Shapes.Shape_In s 210 210 = false /\
   opaque_on_screen (Shapes.Shape_Draw s) 210 210) /\
  Shapes.Shape_Draw s = PolygonMaking.Polygon_Draw q /\
  PolygonMaking.Polygon_In q 180 180 = false /\
  PolygonMaking.Polygon_In q 210 210 = true.
Proof.
  intros s q. split; [|split; [|split; [|split]]].
  - split; [vm_compute; reflexivity|]. intros H.
    apply shape_hit_outside_drawing. intros _. exact H.
  - split; [vm_compute; reflexivity|]. apply shape_drawn_not_hit.
  - reflexivity.
  - vm_compute. reflexivity.
  - vm_compute. reflexivity.
Qed.

(** X19.  Sprites and unrotated polygons are hit exactly where they are
    drawn: [In(cx, cy)] holds if and only if [Draw] puts an opaque pixel
    of the bitmap on the screen point [(cx, cy)], for a sprite at a
    position exact in [float64] and for an unrotated polygon whose bitmap
    is [2 * radius] pixels wide and high.  The hit test of a polygon does
    not read its rotation. *)
Theorem sprites_and_polygons_are_hit_where_drawn (cx cy : Z) :
  exact_int cx -> exact_int cy ->
  (forall (s : BasicInput.Sprite),
      Sprite_exact s ->
      BasicInput.Sprite_In s cx cy = true
      <-> opaque_on_screen (BasicInput.Sprite_Draw s 0 0) cx cy) /\
  (forall (q : PolygonMaking.Polygon),
      Polygon_exact q ->
      PolygonMaking.Polygon_In q cx cy = true
      <-> opaque_on_screen (PolygonMaking.Polygon_Draw q) cx cy) /\
  (forall (q : PolygonMaking.Polygon) t,
      PolygonMaking.Polygon_In
        (PolygonMaking.mkPolygon (PolygonMaking.id q) (PolygonMaking.x q)
           (PolygonMaking.y q) (PolygonMaking.radius q) t (PolygonMaking.img q)) cx cy
      = PolygonMaking.Polygon_In q cx cy).
Proof.
  intros Hcx Hcy. split; [|split].
  - intros s [Hx Hy]. now apply Sprite_In_drawn.
  - intros q (Hrot & HS & Hx & Hy & Hr). now apply Polygon_In_drawn.
  - intros q t. apply Polygon_In_theta.
Qed.

Lemma sprites_and_polygons_are_hit_where_drawn_witness :
  (BasicInput.Sprite_In (BasicInput.mkSprite "1" (solid 64 64) 100 100) 120 130 = true
   <-> opaque_on_screen
         (BasicInput.Sprite_Draw (BasicInput.mkSprite "1" (solid 64 64) 100 100) 0 0)
         120 130) /\
  (PolygonMaking.Polygon_In
     (PolygonMaking.mkPolygon "Pentagon" 50 50 20 (Fconst 0) (solid 40 40)) 120 130 = true
   <-> opaque_on_screen
         (PolygonMaking.Polygon_Draw
            (PolygonMaking.mkPolygon "Pentagon" 50 50 20 (Fconst 0) (solid 40 40)))
         120 130).
Proof.
  pose proof (sprites_and_polygons_are_hit_where_drawn 120 130
                ltac:(unfold exact_int; lia) ltac:(unfold exact_int; lia))
    as (Hs & Hq & _).
  split.
  - apply Hs. split; unfold exact_int; simpl; lia.
  - apply Hq. split; [exists (inject_Z 0); split; reflexivity|].
    split; [reflexivity|]. repeat split; unfold exact_int; simpl; lia.
Defined.

(** ** Runs of the demos *)

Lemma RunGame_escape {G : Type} Update Draw (Inv : G -> Prop) :
  (forall i g, Inv g -> exists g', Update i g = Ok (g', escape_error i) /\ Inv g') ->
  (forall g, Inv g -> exists d, Draw g = Ok d) ->
  forall frames g, Inv g ->
    exists g', ebiten.RunGame Update Draw frames g = Ok (g', escape_in frames) /\ Inv g'.
Proof.
  intros HU HD frames. induction frames as [|i rest IH]; intros g Hg.
  - exists g. split; [reflexivity|exact Hg].
  - destruct (HU i g Hg) as (g1 & E1 & H1).
    cbn [ebiten.RunGame]. rewrite E1. cbn [mbind result_bind snd fst].
    unfold escape_in, escape_error. cbn [existsb].
    destruct (ebiten.IsKeyPressed i ebiten.KeyEscape); cbn [orb].
    + exists g1. split; [reflexivity|exact H1].
    + destruct (HD g1 H1) as [d Ed]. rewrite Ed. cbn [mbind result_bind].
      now apply IH.
Qed.

Lemma quits_on_escape_intro {G : Type} Update Draw (valid : G -> Prop) :
  (forall i g, valid g -> exists g', Update i g = Ok (g', escape_error i) /\ valid g') ->
  (forall g, valid g -> exists d, Draw g = Ok d) ->
  quits_on_escape Update Draw valid.
Proof.
  intros HU HD. split; [exact HU|]. now apply RunGame_escape.
Qed.

Lemma BasicInput_step i g :
  BasicInput_valid g ->
  exists g', BasicInput.Game_Update i g = Ok (g', escape_error i) /\ BasicInput_valid g'.
Proof.
  intros H. destruct (BasicInput_Update_valid i g H) as (g' & E & Hv & _). eauto.
Qed.

Lemma PolygonMaking_step i g :
  PolygonMaking_valid g ->
  exists g', PolygonMaking.Game_Update i g = Ok (g', escape_error i) /\
             PolygonMaking_valid g'.
Proof.
  intros H. destruct (PolygonMaking_Update_valid i g H) as (g' & E & Hv & _). eauto.
Qed.

Lemma Shapes_step i g :
  Shapes_valid g ->
  exists g', Shapes.Game_Update i g = Ok (g', escape_error i) /\ Shapes_valid g'.
Proof.
  intros H. destruct (Shapes_Update_valid i g H) as (g' & E & Hv & _). eauto.
Qed.

Lemma ConnectLines_step i g :
  ConnectLines_valid g ->
  exists g', ConnectLines.Game_Update i g = Ok (g', escape_error i) /\
             ConnectLines_valid g'.
Proof.
  intros H. destruct (ConnectLines_Update_valid i g H) as (g' & E & Hv & _). eauto.
Qed.

Lemma Starfield_step i g :
  True ->
  exists g', Starfield.Game_Update i g = Ok (g', escape_error i) /\ True.
Proof.
  intros _. destruct (Starfield_Update_spec i g) as (g' & E & _). eauto.
Qed.

Lemma BasicInput_Draw_valid g :
  BasicInput_valid g -> exists d, BasicInput.Game_Draw g = Ok d.
Proof. intros H. apply BasicInput_Draw_ok. now apply valid_index_in_range. Qed.

Lemma PolygonMaking_Draw_valid g :
  PolygonMaking_valid g -> exists d, PolygonMaking.Game_Draw g = Ok d.
Proof. intros H. apply PolygonMaking_Draw_ok. now apply valid_index_in_range. Qed.

Lemma Shapes_Draw_valid g : Shapes_valid g -> exists d, Shapes.Game_Draw g = Ok d.
Proof. intros H. apply Shapes_Draw_ok. now apply valid_index_in_range. Qed.

Lemma ConnectLines_Draw_valid g :
  ConnectLines_valid g -> exists d, ConnectLines.Game_Draw g = Ok d.
Proof.
  intros [H Hc]. apply ConnectLines_Draw_ok; [now apply valid_index_in_range|exact Hc].
Qed.

Lemma Turns_RunGame frames : forall g,
  exists g', ebiten.RunGame Turns.Game_Update Turns.Game_Draw frames g = Ok (g', None).
Proof.
  induction frames as [|i rest IH]; intros g.
  - exists g. reflexivity.
  - cbn [ebiten.RunGame]. rewrite Turns_Update. cbn [mbind result_bind snd fst].
    unfold Turns.Game_Draw. cbn [mbind result_bind]. apply IH.
Qed.

(** ** The [main] functions *)

Lemma mapM_result_ok {A B : Type} (f : A -> result B) (l : list A) :
  (forall x, x ∈ l -> exists y, f x = Ok y) ->
  exists ys, mapM f l = Ok ys /\ length ys = length l.
Proof.
  induction l as [|a l IH]; intros H.
  - exists []. split; reflexivity.
  - destruct (H a ltac:(left)) as [y Ey].
    destruct IH as (ys & E & Hl); [intros x Hx; apply H; now right|].
    exists (y :: ys). cbn [mapM]. rewrite Ey. cbn [mbind result_bind]. rewrite E.
    split; [reflexivity|]. simpl. now rewrite Hl.
Qed.

Lemma slice_to_ok {A : Type} (s : list A) n :
  0 <= n <= len s -> slice_to s n = Ok (take (Z.to_nat n) s).
Proof.
  intros H. unfold slice_to.
  destruct (Z.leb_spec 0 n); [|lia]. destruct (Z.leb_spec n (len s)); [|lia].
  reflexivity.
Qed.

(** Pairing the first [n] entries of two lists, as the loops of the [init]
    functions do, reads inside the second list. *)
Lemma paired_ok {B : Type} (xs ys : list Z) (n : Z) (f : nat -> Z -> Z -> B) :
  0 <= n <= len xs -> 0 <= n <= len ys ->
  exists bs,
    mapM (fun ix => yv ← index (take (Z.to_nat n) ys) (Z.of_nat (fst ix));
                    Ok (f (fst ix) (snd ix) yv))
      (imap pair (take (Z.to_nat n) xs)) = Ok bs /\
    length bs = Z.to_nat n.
Proof.
  intros Hx Hy. unfold len in *.
  destruct (mapM_result_ok
              (fun ix => yv ← index (take (Z.to_nat n) ys) (Z.of_nat (fst ix));
                         Ok (f (fst ix) (snd ix) yv))
              (imap pair (take (Z.to_nat n) xs))) as (bs & E & Hl).
  - intros [i x] Hin. apply elem_of_lookup_imap in Hin.
    destruct Hin as (j & x' & [= -> ->] & Hj). apply lookup_lt_Some in Hj.
    rewrite length_take in Hj. cbn [fst snd].
    destruct (index_ok (take (Z.to_nat n) ys) (Z.of_nat j)) as (yv & Ey & _).
    + apply in_range_spec. unfold len. rewrite length_take. lia.
    + rewrite Ey. eexists. reflexivity.
  - exists bs. split; [exact E|]. rewrite Hl, length_imap, length_take. lia.
Qed.

Lemma ConnectLines_init_valid pix permW permH :
  len permW = 640 -> len permH = 480 ->
  exists g,
    ConnectLines.init pix permW permH (ConnectLines.mkGame false [] [] 0) = Ok g /\
    ConnectLines_valid g /\ len (ConnectLines.blocks g) = 50.
Proof.
  intros HW HH. unfold ConnectLines.init, ConnectLines.blocks_count.
  rewrite !slice_to_ok by lia. cbn [mbind result_bind].
  destruct (paired_ok permW permH 50
              (fun i x yv => ConnectLines.NewBlock pix (Z.of_nat i) x yv 3 color.White))
    as (bs & E & Hl); [lia|lia|].
  rewrite E. cbn [mbind result_bind]. eexists. split; [reflexivity|].
  cbn [ConnectLines.fullscreen ConnectLines.connections ConnectLines.selected].
  assert (Hlen : len bs = 50) by (unfold len; rewrite Hl; reflexivity).
  split; [|exact Hlen]. split; [|constructor].
  cbn [ConnectLines.blocks ConnectLines.selected]. split; [lia|].
  rewrite Hlen. vm_compute. discriminate.
Qed.

Lemma Starfield_layer_ok pix permW permH n clr :
  0 <= n <= len permW -> 0 <= n <= len permH ->
  exists stars, Starfield.layer pix permW permH n clr = Ok stars.
Proof.
  intros HW HH. unfold Starfield.layer. rewrite !slice_to_ok by lia.
  cbn [mbind result_bind].
  destruct (paired_ok permW permH n
              (fun _ x yv => Starfield.NewStar pix x yv 3 clr)) as (bs & E & _);
    [lia|lia|].
  exists bs. exact E.
Qed.

Lemma NewPolygon_ok raster id x y theta radius sides clr :
  1 <= sides <= 65535 ->
  exists q, PolygonMaking.NewPolygon raster id x y theta radius sides clr = Ok q.
Proof.
  intros Hs. unfold PolygonMaking.NewPolygon.
  destruct (sides =? 3); [eexists; reflexivity|].
  rewrite PolygonMaking_genPolygon_eq.
  destruct (Fan_genPolygon_is_fan (Fconst 1) (Fconst 1) (Fconst 1) (Fconst 1)
              radius sides Hs) as (vs & indices & E & _).
  rewrite E. eexists. reflexivity.
Qed.

Lemma Polygons_NewPolygon_ok raster id x y theta radius sides clr :
  1 <= sides <= 65535 ->
  exists q, Polygons.NewPolygon raster id x y theta radius sides clr = Ok q.
Proof.
  intros Hs. unfold Polygons.NewPolygon, Polygons.genPolygon.
  destruct (Fan_genPolygon_is_fan
              (Fdiv (F32_of_int (color.R clr)) (Fconst 255))
              (Fdiv (F32_of_int (color.G clr)) (Fconst 255))
              (Fdiv (F32_of_int (color.B clr)) (Fconst 255))
              (Fdiv (F32_of_int (color.A clr)) (Fconst 255))
              radius sides Hs) as (vs & indices & E & _).
  cbv zeta. rewrite E. eexists. reflexivity.
Qed.

Lemma three_valid {A : Type} (a b c : A) : valid_index [a; b; c] 0.
Proof. split; [unfold len; simpl; lia|]. vm_compute. discriminate. Qed.

Lemma BasicInput_main img frames :
  BasicInput.main (inl img) frames = Ok (farewell (escape_in frames)).
Proof.
  unfold BasicInput.main.
  destruct (RunGame_escape BasicInput.Game_Update BasicInput.Game_Draw
              BasicInput_valid BasicInput_step BasicInput_Draw_valid frames
              (BasicInput.mkGame
                 [BasicInput.mkSprite "0" img 0 0; BasicInput.mkSprite "1" img 100 100]
                 0)) as (g' & E & _).
  - split; [unfold len; simpl; lia|]. vm_compute. discriminate.
  - cbv zeta. rewrite E. reflexivity.
Qed.

Lemma PolygonMaking_main raster frames :
  PolygonMaking.main raster frames = Ok (farewell (escape_in frames)).
Proof.
  unfold PolygonMaking.main.
  destruct (NewPolygon_ok raster "Triangle" 0 10 (Fconst 0) 20 3 color.White)
    as [t Et]; [lia|].
  destruct (NewPolygon_ok raster "Pentagon" 50 50 (Fconst 0) 20 5
              (color.OfRGBA (color.mkRGBA 255 0 0 255))) as [q Eq]; [lia|].
  destruct (NewPolygon_ok raster "Circle" 100 100 (Fconst 0) 20 8
              (color.OfRGBA (color.mkRGBA 0 255 0 255))) as [c Ec]; [lia|].
  rewrite Et. cbn [mbind result_bind]. rewrite Eq. cbn [mbind result_bind].
  rewrite Ec. cbn [mbind result_bind].
  destruct (RunGame_escape PolygonMaking.Game_Update PolygonMaking.Game_Draw
              PolygonMaking_valid PolygonMaking_step PolygonMaking_Draw_valid frames
              (PolygonMaking.mkGame false [t; q; c] 0)) as (g' & E & _);
    [apply three_valid|].
  rewrite E. reflexivity.
Qed.

Lemma Polygons_main raster frames :
  Polygons.main raster frames = Ok (farewell (escape_in frames)).
Proof.
  unfold Polygons.main.
  destruct (Polygons_NewPolygon_ok raster "Triangle" 0 10 (Fconst 0) 20 3
              (color.mkRGBA 255 255 255 255)) as [t Et]; [lia|].
  destruct (Polygons_NewPolygon_ok raster "Pentagon" 50 50 (Fconst 0) 20 5
              (color.mkRGBA 255 0 0 255)) as [q Eq]; [lia|].
  destruct (Polygons_NewPolygon_ok raster "Circle" 100 100 (Fconst 0) 20 8
              (color.mkRGBA 0 255 0 255)) as [c Ec]; [lia|].
  rewrite Et. cbn [mbind result_bind]. rewrite Eq. cbn [mbind result_bind].
  rewrite Ec. cbn [mbind result_bind].
  destruct (RunGame_escape PolygonMaking.Game_Update PolygonMaking.Game_Draw
              PolygonMaking_valid PolygonMaking_step PolygonMaking_Draw_valid frames
              (PolygonMaking.mkGame false [t; q; c] 0)) as (g' & E & _);
    [apply three_valid|].
  unfold Polygons.Game_Update, Polygons.Game_Draw. rewrite E. reflexivity.
Qed.

Lemma Shapes_main triangle pentagon rectangle circle frames :
  Shapes.main triangle pentagon rectangle circle frames
  = Ok (farewell (escape_in frames)).
Proof.
  unfold Shapes.main.
  destruct (RunGame_escape Shapes.Game_Update Shapes.Game_Draw
              Shapes_valid Shapes_step Shapes_Draw_valid frames
              (Shapes.mkGame false
                 [Shapes.NewShape "Triangle" 50 50 (Fconst 0) triangle;
                  Shapes.NewShape "Pentagon" 100 100 (Fconst 0) pentagon;
                  Shapes.NewShape "Rectangle" 200 200 (Fconst 0) rectangle;
                  Shapes.NewShape "Circle" 300 300 (Fconst 0) circle] 0))
    as (g' & E & _).
  - split; [unfold len; simpl; lia|]. vm_compute. discriminate.
  - cbv zeta. rewrite E. reflexivity.
Qed.

Lemma ConnectLines_main pix permW permH frames :
  len permW = 640 -> len permH = 480 ->
  ConnectLines.main pix permW permH frames = Ok (farewell (escape_in frames)).
Proof.
  intros HW HH. unfold ConnectLines.main.
  destruct (ConnectLines_init_valid pix permW permH HW HH) as (g & Eg & Hv & _).
  rewrite Eg. cbn [mbind result_bind].
  destruct (RunGame_escape ConnectLines.Game_Update ConnectLines.Game_Draw
              ConnectLines_valid ConnectLines_step ConnectLines_Draw_valid frames g Hv)
    as (g' & E & _).
  rewrite E. reflexivity.
Qed.

Lemma Starfield_main pix permW1 permH1 permW2 permH2 frames :
  len permW1 = 640 -> len permH1 = 480 -> len permW2 = 640 -> len permH2 = 480 ->
  Starfield.main pix permW1 permH1 permW2 permH2 frames
  = Ok (farewell (escape_in frames)).
Proof.
  intros HW1 HH1 HW2 HH2. unfold Starfield.main, Starfield.initStarfield,
    Starfield.nearStars_count, Starfield.farStars_count.
  destruct (Starfield_layer_ok pix permW1 permH1 50 color.White) as [near En];
    [lia|lia|].
  destruct (Starfield_layer_ok pix permW2 permH2 100
              (color.OfRGBA (color.mkRGBA 255 255 255 128))) as [far Ef]; [lia|lia|].
  rewrite En. cbn [mbind result_bind]. rewrite Ef. cbn [mbind result_bind].
  destruct (RunGame_escape Starfield.Game_Update Starfield.Game_Draw
              (fun _ => True) Starfield_step
              (fun g _ => Starfield_Draw_ok g) frames
              (Starfield.mkGame false near far) I) as (g' & E & _).
  cbn [Starfield.fullscreen]. rewrite E. reflexivity.
Qed.

(** C4, as stated, fails for the turns demo: its [Update] does not poll
    Escape and returns [nil] with Escape down. *)
Lemma turns_ignores_escape :
  ~ (ebiten.IsKeyPressed (pressing ebiten.KeyEscape) ebiten.KeyEscape = true ->
     exists g',
       Turns.Game_Update (pressing ebiten.KeyEscape) (Turns.mkGame 0)
       = Ok (g', Some ErrCleanExit)).
Proof.
  intros H. destruct (H eq_refl) as [g' E].
  rewrite Turns_Update in E. discriminate E.
Qed.

(** C4 (amended).  In every demo but the turns demo, with a valid active
    index, [Update] returns [ErrCleanExit] exactly in the frames in which
    Escape is down and [nil] otherwise, so [ebiten.RunGame] returns the
    sentinel exactly when some frame has Escape down; [main] then prints
    the farewell and exits with status 0 (it returns silently when the
    frames end without Escape), while any other error is fatal
    (status 1).  The [Update] of the turns demo always returns [nil], and
    its [main] treats every error as fatal. *)
Theorem escape_is_clean_exit :
  quits_on_escape BasicInput.Game_Update BasicInput.Game_Draw BasicInput_valid /\
  quits_on_escape PolygonMaking.Game_Update PolygonMaking.Game_Draw PolygonMaking_valid /\
  quits_on_escape Polygons.Game_Update Polygons.Game_Draw PolygonMaking_valid /\
  quits_on_escape Shapes.Game_Update Shapes.Game_Draw Shapes_valid /\
  quits_on_escape ConnectLines.Game_Update ConnectLines.Game_Draw ConnectLines_valid /\
  quits_on_escape Starfield.Game_Update Starfield.Game_Draw (fun _ => True) /\
  (farewell (Some ErrCleanExit) = Return ["Good bye!"%string] /\
   exit_status (farewell (Some ErrCleanExit)) = 0 /\
   forall msg, farewell (Some (EngineError msg)) = Fatal (EngineError msg) /\
               exit_status (farewell (Some (EngineError msg))) = 1) /\
  (forall img raster triangle pentagon rectangle circle pix pix' frames,
      BasicInput.main (inl img) frames = Ok (farewell (escape_in frames)) /\
      PolygonMaking.main raster frames = Ok (farewell (escape_in frames)) /\
      Polygons.main raster frames = Ok (farewell (escape_in frames)) /\
      Shapes.main triangle pentagon rectangle circle frames
      = Ok (farewell (escape_in frames)) /\
      forall permW permH permW' permH',
        len permW = 640 -> len permH = 480 -> len permW' = 640 -> len permH' = 480 ->
        ConnectLines.main pix permW permH frames = Ok (farewell (escape_in frames)) /\
        Starfield.main pix' permW permH permW' permH' frames
        = Ok (farewell (escape_in frames))) /\
  (forall i g, exists g', Turns.Game_Update i g = Ok (g', None)) /\
  (forall frames, Turns.main frames = Ok (Return [])).
Proof.
  split; [|split; [|split; [|split; [|split; [|split; [|split; [|split; [|split]]]]]]]].
  - apply quits_on_escape_intro; [exact BasicInput_step|exact BasicInput_Draw_valid].
  - apply quits_on_escape_intro;
      [exact PolygonMaking_step|exact PolygonMaking_Draw_valid].
  - apply quits_on_escape_intro;
      [exact PolygonMaking_step|exact PolygonMaking_Draw_valid].
  - apply quits_on_escape_intro; [exact Shapes_step|exact Shapes_Draw_valid].
  - apply quits_on_escape_intro;
      [exact ConnectLines_step|exact ConnectLines_Draw_valid].
  - apply quits_on_escape_intro; [exact Starfield_step|].
    intros g _. apply Starfield_Draw_ok.
  - split; [reflexivity|]. split; [reflexivity|]. intros msg. split; reflexivity.
  - intros img raster triangle pentagon rectangle circle pix pix' frames.
    split; [apply BasicInput_main|]. split; [apply PolygonMaking_main|].
    split; [apply Polygons_main|]. split; [apply Shapes_main|].
    intros permW permH permW' permH' HW HH HW' HH'.
    split; [now apply ConnectLines_main|now apply Starfield_main].
  - intros i g. rewrite Turns_Update. eexists. reflexivity.
  - intros frames. unfold Turns.main.
    destruct (Turns_RunGame frames (Turns.mkGame 0)) as [g' E]. rewrite E. reflexivity.
Qed.

Lemma escape_is_clean_exit_witness :
  (exists g',
      BasicInput.Game_Update (pressing ebiten.KeyEscape)
        (BasicInput.mkGame
           [BasicInput.mkSprite "0" (solid 64 64) 0 0;
            BasicInput.mkSprite "1" (solid 64 64) 100 100] 0)
      = Ok (g', Some ErrCleanExit) /\ BasicInput_valid g') /\
  (exists g',
      ebiten.RunGame ConnectLines.Game_Update ConnectLines.Game_Draw
        [pressing ebiten.KeyUp; pressing ebiten.KeyEscape; pressing ebiten.KeyDown]
        (ConnectLines.mkGame false
           [ConnectLines.mkBlock "0" 10 10 3 color.White (solid 3 3)] [] 0)
      = Ok (g', Some ErrCleanExit) /\ ConnectLines_valid g').
Proof.
  split.
  - apply (proj1 (proj1 escape_is_clean_exit) (pressing ebiten.KeyEscape)).
    split; [unfold len; simpl; lia|]. vm_compute. discriminate.
  - apply (proj2 (proj1 (proj2 (proj2 (proj2 (proj2 escape_is_clean_exit)))))
             [pressing ebiten.KeyUp; pressing ebiten.KeyEscape; pressing ebiten.KeyDown]).
    split; [split; [unfold len; simpl; lia|vm_compute; discriminate]|constructor].
Defined.

(** ** Which entities an [Update] changes *)

Lemma Starfield_Update_moves i g :
  exists fs,
    Starfield.Game_Update i g
    = Ok (Starfield.mkGame fs
            (map (fun s => moves Starfield.Star_MoveBy s
                             (map (scaled Starfield.translateNear) (directions i)))
                 (Starfield.nearStars g))
            (map (fun s => moves Starfield.Star_MoveBy s
                             (map (scaled Starfield.translateFar) (directions i)))
                 (Starfield.farStars g)),
          escape_error i).
Proof.
  destruct g as [fs0 near far].
  unfold Starfield.Game_Update, when, Starfield.MoveView, Starfield.toggleFullscreen,
    directions, escape_error.
  destruct (ebiten.IsKeyPressed i ebiten.KeyUp || ebiten.IsKeyPressed i ebiten.KeyW),
    (ebiten.IsKeyPressed i ebiten.KeyDown || ebiten.IsKeyPressed i ebiten.KeyS),
    (ebiten.IsKeyPressed i ebiten.KeyLeft || ebiten.IsKeyPressed i ebiten.KeyA),
    (ebiten.IsKeyPressed i ebiten.KeyRight || ebiten.IsKeyPressed i ebiten.KeyD),
    (ebiten.IsKeyJustPressed i ebiten.KeyF),
    (ebiten.IsKeyPressed i ebiten.KeyEscape);
    cbn [mbind result_bind Starfield.nearStars Starfield.farStars Starfield.fullscreen
         app map moves fold_left scaled fst snd];
    rewrite ?map_map; rewrite ?map_id; eexists; reflexivity.
Qed.

(** C5, as stated, fails for starfield: with the up key down, one [Update]
    moves both stars of a field of two. *)
Lemma starfield_moves_every_star :
  ~ exists g' e,
      Starfield.Game_Update (pressing ebiten.KeyUp)
        (Starfield.mkGame false
           [Starfield.mkStar 10 10 3 (solid 6 6); Starfield.mkStar 20 20 3 (solid 6 6)] [])
      = Ok (g', e) /\
      exists n,
        only_changes n
          [Starfield.mkStar 10 10 3 (solid 6 6); Starfield.mkStar 20 20 3 (solid 6 6)]
          (Starfield.nearStars g').
Proof.
  intros (g' & e & E & n & H). vm_compute in E. injection E as <- <-.
  destruct n as [|n].
  - specialize (H 1%nat ltac:(lia)). vm_compute in H. discriminate H.
  - specialize (H 0%nat ltac:(lia)). vm_compute in H. discriminate H.
Qed.

(** C5 (amended).  In the demos with an active entity, one [Update] from
    a valid state leaves every entity but the one that is active when the
    call starts as it was.  In starfield one [Update] applies, to every
    star of a layer, the moves of the direction keys that are down, at the
    speed of the layer. *)
Theorem update_changes_active_only :
  (forall i g, BasicInput_valid g ->
     exists g',
       BasicInput.Game_Update i g = Ok (g', escape_error i) /\
       only_changes (Z.to_nat (BasicInput.activeSprite g))
         (BasicInput.s g) (BasicInput.s g')) /\
  (forall i g, PolygonMaking_valid g ->
     exists g',
       PolygonMaking.Game_Update i g = Ok (g', escape_error i) /\
       only_changes (Z.to_nat (PolygonMaking.activePolygon g))
         (PolygonMaking.p g) (PolygonMaking.p g')) /\
  (forall i g, Shapes_valid g ->
     exists g',
       Shapes.Game_Update i g = Ok (g', escape_error i) /\
       only_changes (Z.to_nat (Shapes.activeShape g)) (Shapes.s g) (Shapes.s g')) /\
  (forall i g, ConnectLines_valid g ->
     exists g',
       ConnectLines.Game_Update i g = Ok (g', escape_error i) /\
       only_changes (Z.to_nat (ConnectLines.selected g))
         (ConnectLines.blocks g) (ConnectLines.blocks g')) /\
  (forall i g,
     exists g',
       Starfield.Game_Update i g = Ok (g', escape_error i) /\
       Starfield.nearStars g'
       = map (fun s => moves Starfield.Star_MoveBy s
                         (map (scaled Starfield.translateNear) (directions i)))
           (Starfield.nearStars g) /\
       Starfield.farStars g'
       = map (fun s => moves Starfield.Star_MoveBy s
                         (map (scaled Starfield.translateFar) (directions i)))
           (Starfield.farStars g)).
Proof.
  split; [|split; [|split; [|split]]].
  - intros i g H%valid_index_in_range.
    destruct (BasicInput_Update_spec i g H) as (g' & E & _ & Ho & _). eauto.
  - intros i g H%valid_index_in_range.
    destruct (PolygonMaking_Update_spec i g H) as (g' & E & _ & Ho & _). eauto.
  - intros i g H%valid_index_in_range.
    destruct (Shapes_Update_spec i g H) as (g' & E & _ & Ho & _). eauto.
  - intros i g [H%valid_index_in_range _].
    destruct (ConnectLines_Update_spec i g H) as (g' & E & _ & Ho & _). eauto.
  - intros i g. destruct (Starfield_Update_moves i g) as [fs E].
    eexists. split; [exact E|]. split; reflexivity.
Qed.

Lemma update_changes_active_only_witness :
  exists g',
    BasicInput.Game_Update (pressing ebiten.KeyRight)
      (BasicInput.mkGame
         [BasicInput.mkSprite "0" (solid 64 64) 0 0;
          BasicInput.mkSprite "1" (solid 64 64) 100 100] 1)
    = Ok (g', None) /\
    only_changes 1
      [BasicInput.mkSprite "0" (solid 64 64) 0 0;
       BasicInput.mkSprite "1" (solid 64 64) 100 100]
      (BasicInput.s g').
Proof.
  apply (proj1 update_changes_active_only (pressing ebiten.KeyRight)
           (BasicInput.mkGame
              [BasicInput.mkSprite "0" (solid 64 64) 0 0;
               BasicInput.mkSprite "1" (solid 64 64) 100 100] 1)).
  split; [unfold len; simpl; lia|]. vm_compute. discriminate.
Defined.

(** ** Entity counts and index safety *)

Lemma keeps_intro {G C : Type} Update Draw (valid : G -> Prop) (count : G -> C) :
  (forall i g, valid g ->
     exists g', Update i g = Ok (g', escape_error i) /\ valid g' /\ count g' = count g) ->
  (forall g, valid g -> exists d, Draw g = Ok d) ->
  keeps Update Draw valid count.
Proof.
  intros HU HD. split.
  - intros i g Hg. destruct (HU i g Hg) as (g' & E & _ & Hc). eauto.
  - intros frames g Hg.
    destruct (RunGame_invariant Update Draw
                (fun g' => valid g' /\ count g' = count g)) with (frames := frames) (g := g)
      as (g' & e & E & _ & Hc).
    + intros i g0 [Hv Hc]. destruct (HU i g0 Hv) as (g1 & E & Hv1 & Hc1).
      exists g1, (escape_error i). split; [exact E|]. split; [exact Hv1|congruence].
    + intros g0 [Hv _]. now apply HD.
    + split; [exact Hg|reflexivity].
    + eauto.
Qed.

Lemma runs_safely_intro {G : Type} Update Draw (valid : G -> Prop) :
  (forall i g, valid g -> exists g', Update i g = Ok (g', escape_error i) /\ valid g') ->
  (forall g, valid g -> exists d, Draw g = Ok d) ->
  runs_safely Update Draw valid.
Proof.
  intros HU HD. split.
  - intros i g Hg. destruct (HU i g Hg) as (g' & E & Hv).
    exists g', (escape_error i). split; [exact E|]. split; [exact Hv|now apply HD].
  - intros frames g Hg.
    destruct (RunGame_escape Update Draw valid HU HD frames g Hg) as (g' & E & Hv). eauto.
Qed.

(** C7.  In every demo the number of entities is the same after every
    [Update] and after every run of frames: the sprites, polygons, shapes
    and blocks from any state with a valid active index, the two layers of
    stars from any state. *)
Theorem entity_count_is_constant :
  keeps BasicInput.Game_Update BasicInput.Game_Draw BasicInput_valid
    (fun g => length (BasicInput.s g)) /\
  keeps PolygonMaking.Game_Update PolygonMaking.Game_Draw PolygonMaking_valid
    (fun g => length (PolygonMaking.p g)) /\
  keeps Polygons.Game_Update Polygons.Game_Draw PolygonMaking_valid
    (fun g => length (PolygonMaking.p g)) /\
  keeps Shapes.Game_Update Shapes.Game_Draw Shapes_valid
    (fun g => length (Shapes.s g)) /\
  keeps ConnectLines.Game_Update ConnectLines.Game_Draw ConnectLines_valid
    (fun g => length (ConnectLines.blocks g)) /\
  keeps Starfield.Game_Update Starfield.Game_Draw (fun _ => True)
    (fun g => (length (Starfield.nearStars g), length (Starfield.farStars g))).
Proof.
  split; [|split; [|split; [|split; [|split]]]].
  - apply keeps_intro; [exact BasicInput_Update_valid|exact BasicInput_Draw_valid].
  - apply keeps_intro; [exact PolygonMaking_Update_valid|exact PolygonMaking_Draw_valid].
  - apply keeps_intro; [exact PolygonMaking_Update_valid|exact PolygonMaking_Draw_valid].
  - apply keeps_intro; [exact Shapes_Update_valid|exact Shapes_Draw_valid].
  - apply keeps_intro; [exact ConnectLines_Update_valid|exact ConnectLines_Draw_valid].
  - apply keeps_intro.
    + intros i g _. destruct (Starfield_Update_spec i g) as (g' & E & Hn & Hf).
      exists g'. split; [exact E|]. split; [exact I|]. now rewrite Hn, Hf.
    + intros g _. apply Starfield_Draw_ok.
Qed.

Lemma entity_count_is_constant_witness :
  exists g' e,
    ebiten.RunGame ConnectLines.Game_Update ConnectLines.Game_Draw
      [pressing ebiten.KeyLeft; clicking ebiten.MouseButtonRight (11, 11);
       clicking ebiten.MouseButtonLeft (21, 21)]
      (ConnectLines.mkGame false
         [ConnectLines.mkBlock "0" 10 10 3 color.White (solid 3 3);
          ConnectLines.mkBlock "1" 20 20 3 color.White (solid 3 3)] [] 1)
    = Ok (g', e) /\
    length (ConnectLines.blocks g') = 2%nat.
Proof.
  apply (proj2 (proj1 (proj2 (proj2 (proj2 (proj2 entity_count_is_constant)))))
           [pressing ebiten.KeyLeft; clicking ebiten.MouseButtonRight (11, 11);
            clicking ebiten.MouseButtonLeft (21, 21)]
           (ConnectLines.mkGame false
              [ConnectLines.mkBlock "0" 10 10 3 color.White (solid 3 3);
               ConnectLines.mkBlock "1" 20 20 3 color.White (solid 3 3)] [] 1)).
  split; [split; [unfold len; simpl; lia|vm_compute; discriminate]|constructor].
Defined.

(** C9.  In every demo with an active index, from a state in which the
    index is an index of the entity slice, every [Update] returns without
    a panic and leaves the index valid, the following [Draw] returns
    without a panic, and so does every run of frames. *)
Theorem active_index_stays_valid :
  runs_safely BasicInput.Game_Update BasicInput.Game_Draw BasicInput_valid /\
  runs_safely PolygonMaking.Game_Update PolygonMaking.Game_Draw PolygonMaking_valid /\
  runs_safely Polygons.Game_Update Polygons.Game_Draw PolygonMaking_valid /\
  runs_safely Shapes.Game_Update Shapes.Game_Draw Shapes_valid /\
  runs_safely ConnectLines.Game_Update ConnectLines.Game_Draw ConnectLines_valid.
Proof.
  split; [|split; [|split; [|split]]].
  - apply runs_safely_intro; [exact BasicInput_step|exact BasicInput_Draw_valid].
  - apply runs_safely_intro; [exact PolygonMaking_step|exact PolygonMaking_Draw_valid].
  - apply runs_safely_intro; [exact PolygonMaking_step|exact PolygonMaking_Draw_valid].
  - apply runs_safely_intro; [exact Shapes_step|exact Shapes_Draw_valid].
  - apply runs_safely_intro; [exact ConnectLines_step|exact ConnectLines_Draw_valid].
Qed.

Lemma active_index_stays_valid_witness :
  exists g' e,
    ebiten.RunGame Shapes.Game_Update Shapes.Game_Draw
      [ebiten.mkInput (fun _ => false)
         (fun k => bool_decide (k = ebiten.KeySpace)) (fun _ => false) (0, 0);
       clicking ebiten.MouseButtonLeft (45, 45); pressing ebiten.KeyQ]
      (Shapes.mkGame false
         [Shapes.NewShape "Triangle" 50 50 (Fconst 0) (solid 60 60);
          Shapes.NewShape "Circle" 300 300 (Fconst 0) (solid 60 60)] 1)
    = Ok (g', e) /\
    Shapes_valid g'.
Proof.
  apply (proj2 (proj1 (proj2 (proj2 (proj2 active_index_stays_valid))))
           [ebiten.mkInput (fun _ => false)
              (fun k => bool_decide (k = ebiten.KeySpace)) (fun _ => false) (0, 0);
            clicking ebiten.MouseButtonLeft (45, 45); pressing ebiten.KeyQ]
           (Shapes.mkGame false
              [Shapes.NewShape "Triangle" 50 50 (Fconst 0) (solid 60 60);
               Shapes.NewShape "Circle" 300 300 (Fconst 0) (solid 60 60)] 1)).
  split; [unfold len; simpl; lia|]. vm_compute. discriminate.
Defined.

(** ** Selection with the mouse *)


Lemma Block_In_rectangle b cx cy :
  exact_int (ConnectLines.x b) -> exact_int (ConnectLines.y b) ->
  0 <= ConnectLines.size b <= 480 ->
  (ConnectLines.Block_In b cx cy = true
   <-> ConnectLines.x b <= cx <= ConnectLines.x b + ConnectLines.size b /\
       ConnectLines.y b <= cy <= ConnectLines.y b + ConnectLines.size b).
Proof.
  intros Hx Hy Hn. unfold ConnectLines.Block_In.
  rewrite !add_id by (unfold exact_int, is_int, int_min, int_max in *; lia).
  rewrite !andb_true_iff, !Z.geb_le, !Z.leb_le. lia.
Qed.





(** Of two overlapping sprites a click on the overlap selects the later
    one. *)
Lemma click_on_overlap_selects_later_sprite :
  BasicInput.Game_Update (clicking ebiten.MouseButtonLeft (60, 60))
    (BasicInput.mkGame
       [BasicInput.mkSprite "0" (solid 64 64) 0 0;
        BasicInput.mkSprite "1" (solid 64 64) 50 50] 0)
  = Ok (BasicInput.mkGame
          [BasicInput.mkSprite "0" (solid 64 64) 0 0;
           BasicInput.mkSprite "1" (solid 64 64) 50 50] 1, None).
Proof. vm_compute. reflexivity. Qed.

(** ** Connections *)

Lemma ConnectLines_no_self_connection i g g' e :
  ConnectLines_valid g ->
  ConnectLines.Game_Update i g = Ok (g', e) ->
  is_topmost (fun b => ConnectLines.Block_In b (fst (ebiten.CursorPosition i))
                         (snd (ebiten.CursorPosition i)))
    (ConnectLines.blocks g') (ConnectLines.selected g') ->
  ConnectLines.connections g' = ConnectLines.connections g.
Proof.
  intros [H%valid_index_in_range _] E Ht.
  destruct (ConnectLines_Update_spec i g H) as (g1 & E1 & _ & _ & _ & Hcon).
  rewrite E in E1. injection E1 as <- _. cbv zeta in Hcon. rewrite Hcon.
  destruct (ebiten.IsMouseButtonJustPressed i ebiten.MouseButtonRight);
    [|apply app_nil_r].
  match goal with |- context [topmost ?h ?s ?n] =>
    pose proof (topmost_is_topmost h s) as Hk; destruct (topmost h s n) as [k|] end;
    [|apply app_nil_r].
  destruct Hk as [Hk _].
  rewrite (is_topmost_unique _ _ _ _ Hk Ht), Z.eqb_refl. apply app_nil_r.
Qed.

(** C10.  In the connect-lines demo, from a state whose selected index is
    valid and whose connections join distinct valid block indices, every
    [Update] either leaves the connections as they are or appends one
    connection from the selected block to the topmost block under a right
    click, which is not the selected block; a right click on the selected
    block appends nothing; so after every run of frames every connection
    joins two distinct indices of the block slice. *)
Theorem connections_join_distinct_blocks :
  (forall i g, ConnectLines_valid g ->
     exists g',
       ConnectLines.Game_Update i g = Ok (g', escape_error i) /\
       ConnectLines_valid g' /\
       (ConnectLines.connections g' = ConnectLines.connections g \/
        exists k,
          ConnectLines.connections g'
          = ConnectLines.connections g
            ++ [ConnectLines.mkconnected (ConnectLines.selected g') k] /\
          k <> ConnectLines.selected g' /\
          ebiten.IsMouseButtonJustPressed i ebiten.MouseButtonRight = true /\
          is_topmost (fun b => ConnectLines.Block_In b (fst (ebiten.CursorPosition i))
                                 (snd (ebiten.CursorPosition i)))
            (ConnectLines.blocks g') k)) /\
  (forall i g g' e, ConnectLines_valid g ->
     ConnectLines.Game_Update i g = Ok (g', e) ->
     is_topmost (fun b => ConnectLines.Block_In b (fst (ebiten.CursorPosition i))
                            (snd (ebiten.CursorPosition i)))
       (ConnectLines.blocks g') (ConnectLines.selected g') ->
     ConnectLines.connections g' = ConnectLines.connections g) /\
  (forall frames g, ConnectLines_valid g ->
     exists g' e,
       ebiten.RunGame ConnectLines.Game_Update ConnectLines.Game_Draw frames g
       = Ok (g', e) /\
       len (ConnectLines.blocks g') = len (ConnectLines.blocks g) /\
       Forall (valid_connection (len (ConnectLines.blocks g)))
         (ConnectLines.connections g')).
Proof.
  split; [|split].
  - intros i g Hv. destruct (ConnectLines_Update_valid i g Hv) as (g' & E & Hv' & _).
    exists g'. split; [exact E|]. split; [exact Hv'|].
    destruct Hv as [H%valid_index_in_range _].
    destruct (ConnectLines_Update_spec i g H) as (g1 & E1 & _ & _ & _ & Hcon).
    rewrite E in E1. injection E1 as <-. cbv zeta in Hcon. rewrite Hcon.
    destruct (ebiten.IsMouseButtonJustPressed i ebiten.MouseButtonRight);
      [|left; apply app_nil_r].
    match goal with |- context [topmost ?h ?s ?n] =>
      pose proof (topmost_is_topmost h s) as Hk; destruct (topmost h s n) as [k|] end;
      [|left; apply app_nil_r].
    destruct (Z.eqb_spec (Z.of_nat k) (ConnectLines.selected g')) as [Heq|Hne];
      cbn [negb]; [left; apply app_nil_r|].
    right. exists (Z.of_nat k). split; [reflexivity|]. split; [exact Hne|].
    split; [reflexivity|apply Hk].
  - exact ConnectLines_no_self_connection.
  - intros frames g Hv.
    destruct (RunGame_invariant ConnectLines.Game_Update ConnectLines.Game_Draw
                (fun g' => ConnectLines_valid g' /\
                           len (ConnectLines.blocks g') = len (ConnectLines.blocks g)))
      with (frames := frames) (g := g) as (g' & e & E & [_ Hc] & Hl).
    + intros i g0 [Hv0 Hl0].
      destruct (ConnectLines_Update_valid i g0 Hv0) as (g1 & E1 & Hv1 & Hl1).
      exists g1, (escape_error i). split; [exact E1|]. split; [exact Hv1|].
      unfold len in *. now rewrite Hl1.
    + intros g0 [Hv0 _]. now apply ConnectLines_Draw_valid.
    + split; [exact Hv|reflexivity].
    + exists g', e. split; [exact E|]. split; [exact Hl|]. now rewrite <- Hl.
Qed.

Lemma connections_join_distinct_blocks_witness :
  exists g' e,
    ebiten.RunGame ConnectLines.Game_Update ConnectLines.Game_Draw
      [clicking ebiten.MouseButtonRight (11, 11); clicking ebiten.MouseButtonRight (21, 21);
       clicking ebiten.MouseButtonLeft (11, 11)]
      (ConnectLines.mkGame false
         [ConnectLines.mkBlock "0" 10 10 3 color.White (solid 3 3);
          ConnectLines.mkBlock "1" 20 20 3 color.White (solid 3 3)] [] 1)
    = Ok (g', e) /\
    len (ConnectLines.blocks g') = 2 /\
    Forall (valid_connection 2) (ConnectLines.connections g').
Proof.
  apply (proj2 (proj2 connections_join_distinct_blocks)
           [clicking ebiten.MouseButtonRight (11, 11);
            clicking ebiten.MouseButtonRight (21, 21);
            clicking ebiten.MouseButtonLeft (11, 11)]
           (ConnectLines.mkGame false
              [ConnectLines.mkBlock "0" 10 10 3 color.White (solid 3 3);
               ConnectLines.mkBlock "1" 20 20 3 color.White (solid 3 3)] [] 1)).
  split; [split; [unfold len; simpl; lia|vm_compute; discriminate]|constructor].
Defined.

(** With block 1 selected, the right click on block 0 connects the
    selected block 1 to it, the right click on the selected block adds
    nothing. *)
Lemma right_clicks_connect_other_blocks_only :
  exists g',
    ebiten.RunGame ConnectLines.Game_Update ConnectLines.Game_Draw
      [clicking ebiten.MouseButtonRight (11, 11); clicking ebiten.MouseButtonRight (21, 21)]
      (ConnectLines.mkGame false
         [ConnectLines.mkBlock "0" 10 10 3 color.White (solid 3 3);
          ConnectLines.mkBlock "1" 20 20 3 color.White (solid 3 3)] [] 1)
    = Ok (g', None) /\
    ConnectLines.connections g' = [ConnectLines.mkconnected 1 0].
Proof. eexists. split; vm_compute; reflexivity. Qed.

(** * Part III: further properties of the demos *)

(** ** Moves as records *)

Lemma Sprite_MoveBy_eq s dx dy w h :
  ebiten.Size (BasicInput.img s) = (w, h) ->
  0 <= w <= 640 -> 0 <= h <= 480 ->
  BasicInput.Sprite_MoveBy s dx dy
  = BasicInput.mkSprite (BasicInput.id s) (BasicInput.img s)
      (clamp 0 (640 - w) (add (BasicInput.x s) dx))
      (clamp 0 (480 - h) (add (BasicInput.y s) dy)).
Proof.
  intros HS Hw Hh.
  destruct (Sprite_MoveBy_clamp s dx dy w h HS Hw Hh) as [Ex Ey].
  rewrite <- Ex, <- Ey. unfold BasicInput.Sprite_MoveBy. rewrite HS. reflexivity.
Qed.

Lemma Polygon_MoveBy_eq q dx dy :
  0 <= PolygonMaking.radius q <= 240 ->
  PolygonMaking.Polygon_MoveBy q dx dy
  = PolygonMaking.mkPolygon (PolygonMaking.id q)
      (clamp (PolygonMaking.radius q) (640 - PolygonMaking.radius q)
         (add (PolygonMaking.x q) dx))
      (clamp (PolygonMaking.radius q) (480 - PolygonMaking.radius q)
         (add (PolygonMaking.y q) dy))
      (PolygonMaking.radius q) (PolygonMaking.theta q) (PolygonMaking.img q).
Proof.
  intros Hr. destruct (Polygon_MoveBy_clamp q dx dy Hr) as [Ex Ey].
  cbv zeta in Ex, Ey. rewrite <- Ex, <- Ey. reflexivity.
Qed.

Lemma Shape_MoveBy_eq s dx dy w h :
  ebiten.Size (Shapes.img s) = (w, h) ->
  0 <= w <= 320 -> 0 <= h <= 240 ->
  Shapes.Shape_MoveBy s dx dy
  = Shapes.mkShape (Shapes.id s)
      (clamp w (640 - w) (add (Shapes.x s) dx))
      (clamp h (480 - h) (add (Shapes.y s) dy))
      (Shapes.theta s) (Shapes.img s).
Proof.
  intros HS Hw Hh.
  destruct (Shape_MoveBy_clamp s dx dy w h HS Hw Hh) as [Ex Ey].
  rewrite <- Ex, <- Ey. unfold Shapes.Shape_MoveBy. rewrite HS. reflexivity.
Qed.

Lemma Block_Move_eq b dx dy :
  0 <= ConnectLines.size b <= 480 ->
  add (ConnectLines.x b) dx <= int_max - ConnectLines.size b ->
  add (ConnectLines.y b) dy <= int_max - ConnectLines.size b ->
  ConnectLines.Block_Move b dx dy
  = ConnectLines.mkBlock (ConnectLines.id b)
      (clamp 0 (640 - ConnectLines.size b) (add (ConnectLines.x b) dx))
      (clamp 0 (480 - ConnectLines.size b) (add (ConnectLines.y b) dy))
      (ConnectLines.size b) (ConnectLines.clr b) (ConnectLines.img b).
Proof.
  intros Hn Hx Hy. destruct (Block_Move_clamp b dx dy Hn Hx Hy) as [Ex Ey].
  cbv zeta in Ex, Ey. rewrite <- Ex, <- Ey. reflexivity.
Qed.

Lemma Star_MoveBy_eq s dx dy :
  Starfield.Star_MoveBy s dx dy
  = Starfield.mkStar (wrap_around 640 (add (Starfield.x s) dx))
      (wrap_around 480 (add (Starfield.y s) dy)) (Starfield.radius s) (Starfield.img s).
Proof.
  destruct (Star_MoveBy_wraps s dx dy) as [Ex Ey]. rewrite <- Ex, <- Ey. reflexivity.
Qed.

Lemma add_0_r_small v : - 2 ^ 62 <= v <= 2 ^ 62 -> add v 0 = v.
Proof. intros H. rewrite add_id, Z.add_0_r by (rewrite ?Z.add_0_r; now apply small_is_int); reflexivity. Qed.

Lemma clamp_again lo hi v :
  - 2 ^ 62 <= lo -> lo <= hi -> hi <= 2 ^ 62 ->
  clamp lo hi (add (clamp lo hi v) 0) = clamp lo hi v.
Proof.
  intros Hlo Hle Hhi. pose proof (clamp_range lo hi v Hle).
  rewrite add_0_r_small by lia. apply clamp_inside. lia.
Qed.

Lemma wrap_around_again hi v :
  0 <= hi <= 2 ^ 62 -> wrap_around hi (add (wrap_around hi v) 0) = wrap_around hi v.
Proof.
  intros H. pose proof (wrap_around_range hi v ltac:(lia)).
  rewrite add_0_r_small by lia.
  unfold wrap_around at 1.
  destruct (Z.gtb_spec (wrap_around hi v) hi); [lia|].
  destruct (Z.ltb_spec (wrap_around hi v) 0); [lia|reflexivity].
Qed.

(** X1.  A move by (0, 0) changes nothing in an entity that has moved
    before: the positions [MoveBy] and [Move] produce are fixed points of
    the bounds checks.  This holds for sprites, polygons, shapes and
    blocks that fit the screen (blocks: when the first move does not
    overflow) and for all stars. *)
Theorem move_by_zero_after_move :
  (forall (s : BasicInput.Sprite) dx dy w h,
      ebiten.Size (BasicInput.img s) = (w, h) -> 0 <= w <= 640 -> 0 <= h <= 480 ->
      BasicInput.Sprite_MoveBy (BasicInput.Sprite_MoveBy s dx dy) 0 0
      = BasicInput.Sprite_MoveBy s dx dy) /\
  (forall (q : PolygonMaking.Polygon) dx dy,
      0 <= PolygonMaking.radius q <= 240 ->
      PolygonMaking.Polygon_MoveBy (PolygonMaking.Polygon_MoveBy q dx dy) 0 0
      = PolygonMaking.Polygon_MoveBy q dx dy) /\
  (forall (s : Shapes.Shape) dx dy w h,
      ebiten.Size (Shapes.img s) = (w, h) -> 0 <= w <= 320 -> 0 <= h <= 240 ->
      Shapes.Shape_MoveBy (Shapes.Shape_MoveBy s dx dy) 0 0
      = Shapes.Shape_MoveBy s dx dy) /\
  (forall (b : ConnectLines.Block) dx dy,
      0 <= ConnectLines.size b <= 480 ->
      add (ConnectLines.x b) dx <= int_max - ConnectLines.size b ->
      add (ConnectLines.y b) dy <= int_max - ConnectLines.size b ->
      ConnectLines.Block_Move (ConnectLines.Block_Move b dx dy) 0 0
      = ConnectLines.Block_Move b dx dy) /\
  (forall (s : Starfield.Star) dx dy,
      Starfield.Star_MoveBy (Starfield.Star_MoveBy s dx dy) 0 0
      = Starfield.Star_MoveBy s dx dy).
Proof.
  split; [|split; [|split; [|split]]].
  - intros s dx dy w h HS Hw Hh.
    rewrite (Sprite_MoveBy_eq s dx dy w h HS Hw Hh).
    rewrite (Sprite_MoveBy_eq _ 0 0 w h) by (try exact HS; assumption).
    cbn [BasicInput.id BasicInput.img BasicInput.x BasicInput.y].
    rewrite !clamp_again by lia. reflexivity.
  - intros q dx dy Hr.
    rewrite (Polygon_MoveBy_eq q dx dy Hr).
    rewrite Polygon_MoveBy_eq by exact Hr.
    cbn [PolygonMaking.id PolygonMaking.img PolygonMaking.x PolygonMaking.y
         PolygonMaking.radius PolygonMaking.theta].
    rewrite !clamp_again by lia. reflexivity.
  - intros s dx dy w h HS Hw Hh.
    rewrite (Shape_MoveBy_eq s dx dy w h HS Hw Hh).
    rewrite (Shape_MoveBy_eq _ 0 0 w h) by (try exact HS; assumption).
    cbn [Shapes.id Shapes.img Shapes.x Shapes.y Shapes.theta].
    rewrite !clamp_again by lia. reflexivity.
  - intros b dx dy Hn Hx Hy.
    rewrite (Block_Move_eq b dx dy Hn Hx Hy).
    pose proof (clamp_range 0 (640 - ConnectLines.size b)
                  (add (ConnectLines.x b) dx) ltac:(lia)) as Hcx.
    pose proof (clamp_range 0 (480 - ConnectLines.size b)
                  (add (ConnectLines.y b) dy) ltac:(lia)) as Hcy.
    rewrite Block_Move_eq;
      cbn [ConnectLines.id ConnectLines.img ConnectLines.x ConnectLines.y
           ConnectLines.size ConnectLines.clr].
    + rewrite !clamp_again by lia. reflexivity.
    + exact Hn.
    + rewrite add_0_r_small by lia. unfold int_max. lia.
    + rewrite add_0_r_small by lia. unfold int_max. lia.
  - intros s dx dy. rewrite (Star_MoveBy_eq s dx dy). rewrite Star_MoveBy_eq.
    cbn [Starfield.x Starfield.y Starfield.radius Starfield.img].
    rewrite !wrap_around_again by lia. reflexivity.
Qed.

Lemma move_by_zero_after_move_witness :
  BasicInput.Sprite_MoveBy
    (BasicInput.Sprite_MoveBy (BasicInput.mkSprite "0" (solid 64 64) 600 5) 10 (-10)) 0 0
  = BasicInput.Sprite_MoveBy (BasicInput.mkSprite "0" (solid 64 64) 600 5) 10 (-10).
Proof.
  apply (proj1 move_by_zero_after_move
           (BasicInput.mkSprite "0" (solid 64 64) 600 5) 10 (-10) 64 64 eq_refl);
    lia.
Defined.

(** ** Closed forms of one [Update] *)

Lemma BasicInput_Update_eq i g :
  in_range (BasicInput.s g) (BasicInput.activeSprite g) = true ->
  BasicInput.Game_Update i g
  = Ok (BasicInput.mkGame
          (BasicInput_moved i (Z.to_nat (BasicInput.activeSprite g)) (BasicInput.s g))
          (if ebiten.IsMouseButtonJustPressed i ebiten.MouseButtonLeft then
             match topmost (fun sp => BasicInput.Sprite_In sp
                                        (fst (ebiten.CursorPosition i))
                                        (snd (ebiten.CursorPosition i)))
                     (BasicInput_moved i (Z.to_nat (BasicInput.activeSprite g))
                        (BasicInput.s g))
                     (length (BasicInput_moved i (Z.to_nat (BasicInput.activeSprite g))
                                (BasicInput.s g))) with
             | Some k => Z.of_nat k
             | None => BasicInput.activeSprite g
             end
           else BasicInput.activeSprite g),
        escape_error i).
Proof.
  destruct g as [es a]. cbn [BasicInput.s BasicInput.activeSprite]. intros H.
  unfold BasicInput.Game_Update.
  do 4 (rewrite BasicInput_when_moveActive
          by (rewrite ?in_range_alter_if; exact H);
        cbn [mbind result_bind]).
  rewrite BasicInput_when_selectAt. cbn [mbind result_bind].
  unfold escape_error, BasicInput_moved.
  destruct (ebiten.IsKeyPressed i ebiten.KeyEscape); reflexivity.
Qed.

Lemma PolygonMaking_Update_eq i g :
  in_range (PolygonMaking.p g) (PolygonMaking.activePolygon g) = true ->
  PolygonMaking.Game_Update i g
  = Ok (let es := PolygonMaking_moved i (Z.to_nat (PolygonMaking.activePolygon g))
                    (PolygonMaking.p g) in
        let cycled :=
          if ebiten.IsKeyJustPressed i ebiten.KeySpace
          then rem (add (PolygonMaking.activePolygon g) 1) (len (PolygonMaking.p g))
          else PolygonMaking.activePolygon g in
        PolygonMaking.mkGame
          (if ebiten.IsKeyJustPressed i ebiten.KeyF
           then negb (PolygonMaking.fullscreen g) else PolygonMaking.fullscreen g)
          es
          (if ebiten.IsMouseButtonJustPressed i ebiten.MouseButtonLeft then
             match topmost (fun q => PolygonMaking.Polygon_In q
                                       (fst (ebiten.CursorPosition i))
                                       (snd (ebiten.CursorPosition i)))
                     es (length es) with
             | Some k => Z.of_nat k
             | None => cycled
             end
           else cycled),
        escape_error i).
Proof.
  destruct g as [fs es a].
  cbn [PolygonMaking.p PolygonMaking.activePolygon PolygonMaking.fullscreen]. intros H.
  assert (Hne : len es <> 0) by (apply in_range_spec in H; lia).
  unfold PolygonMaking.Game_Update.
  do 4 (rewrite PolygonMaking_when_moveActive
          by (rewrite ?in_range_alter_if; exact H);
        cbn [mbind result_bind]).
  do 2 (rewrite PolygonMaking_when_rotateActive
          by (rewrite ?in_range_alter_if; exact H);
        cbn [mbind result_bind]).
  rewrite PolygonMaking_when_nextActive by (rewrite ?len_alter_if; exact Hne).
  cbn [mbind result_bind].
  rewrite PolygonMaking_when_toggleFullscreen. cbn [mbind result_bind].
  rewrite PolygonMaking_when_selectAt. cbn [mbind result_bind].
  cbv zeta. rewrite !len_alter_if.
  unfold escape_error, PolygonMaking_moved, Polygon_rotate.
  destruct (ebiten.IsKeyPressed i ebiten.KeyEscape); reflexivity.
Qed.

Lemma ConnectLines_Update_blocks i g :
  in_range (ConnectLines.blocks g) (ConnectLines.selected g) = true ->
  exists g',
    ConnectLines.Game_Update i g = Ok (g', escape_error i) /\
    ConnectLines.blocks g'
    = ConnectLines_moved i (Z.to_nat (ConnectLines.selected g)) (ConnectLines.blocks g) /\
    ConnectLines.fullscreen g'
    = (if ebiten.IsKeyJustPressed i ebiten.KeyF
       then negb (ConnectLines.fullscreen g) else ConnectLines.fullscreen g).
Proof.
  destruct g as [fs es cs a].
  cbn [ConnectLines.blocks ConnectLines.selected ConnectLines.connections
       ConnectLines.fullscreen]. intros H.
  unfold ConnectLines.Game_Update.
  do 4 (rewrite ConnectLines_when_moveSelected
          by (rewrite ?in_range_alter_if; exact H);
        cbn [mbind result_bind]).
  rewrite ConnectLines_when_toggleFullscreen. cbn [mbind result_bind].
  rewrite ConnectLines_when_selectAt. cbn [mbind result_bind].
  rewrite ConnectLines_when_connectAt. cbn [mbind result_bind].
  eexists. split.
  - unfold escape_error. destruct (ebiten.IsKeyPressed i ebiten.KeyEscape); reflexivity.
  - cbn [ConnectLines.blocks ConnectLines.fullscreen]. split; reflexivity.
Qed.

Lemma lookup_alter_if_eq {A : Type} (c : bool) (m : A -> A) n (s : list A) a :
  s !! n = Some a -> alter_if c m n s !! n = Some (if c then m a else a).
Proof.
  intros H. unfold alter_if. destruct c; [|exact H].
  rewrite list_lookup_alter_eq, H. reflexivity.
Qed.

Lemma map_alter_if_fixed {A B : Type} (fixed : A -> B) (c : bool) (m : A -> A) n
  (s : list A) :
  (forall a, fixed (m a) = fixed a) ->
  map fixed (alter_if c m n s) = map fixed s.
Proof.
  intros Hm. unfold alter_if. destruct c; [|reflexivity].
  revert n. induction s as [|a s IH]; intros n; [reflexivity|].
  destruct n as [|n]; simpl.
  - now rewrite Hm.
  - f_equal. apply IH.
Qed.

(** ** Opposite keys in one frame *)

(** X2.  In basic-input, a frame in which Up and Down are both down (and
    Left and Right are not) does not leave the active sprite in place near
    the top edge: Up is handled first and clamped at 0, then Down moves
    by 10, so the sprite ends at [max y 10]; from [y >= 10] the two moves
    cancel.  The sprite is on the screen and at most 470 pixels high. *)
Theorem up_and_down_push_from_top_edge i g a w h :
  BasicInput_valid g ->
  BasicInput.s g !! Z.to_nat (BasicInput.activeSprite g) = Some a ->
  ebiten.Size (BasicInput.img a) = (w, h) ->
  0 <= w <= 640 -> 0 <= h <= 470 ->
  0 <= BasicInput.x a <= 640 - w -> 0 <= BasicInput.y a <= 480 - h ->
  ebiten.IsKeyPressed i ebiten.KeyUp = true ->
  ebiten.IsKeyPressed i ebiten.KeyDown = true ->
  ebiten.IsKeyPressed i ebiten.KeyLeft = false ->
  ebiten.IsKeyPressed i ebiten.KeyRight = false ->
  exists g',
    BasicInput.Game_Update i g = Ok (g', escape_error i) /\
    BasicInput.s g' !! Z.to_nat (BasicInput.activeSprite g)
    = Some (BasicInput.mkSprite (BasicInput.id a) (BasicInput.img a)
              (BasicInput.x a) (Z.max (BasicInput.y a) 10)).
Proof.
  intros Hv Ha HS Hw Hh Hx Hy Hup Hdown Hleft Hright.
  rewrite BasicInput_Update_eq by now apply valid_index_in_range.
  eexists. split; [reflexivity|]. cbn [BasicInput.s].
  unfold BasicInput_moved. rewrite Hup, Hdown, Hleft, Hright.
  cbn [alter_if]. rewrite !list_lookup_alter_eq, Ha. cbn [fmap option_fmap option_map].
  f_equal. change (- BasicInput.translateFactor) with (-10).
  change BasicInput.translateFactor with 10.
  rewrite (Sprite_MoveBy_eq a 0 (-10) w h HS Hw ltac:(lia)).
  rewrite (Sprite_MoveBy_eq _ 0 10 w h) by (try exact HS; lia).
  cbn [BasicInput.id BasicInput.img BasicInput.x BasicInput.y].
  assert (E0 : forall v, 0 <= v <= 640 -> add v 0 = v)
    by (intros v Hv0; apply add_0_r_small; lia).
  pose proof (clamp_range 0 (640 - w) (add (BasicInput.x a) 0) ltac:(lia)).
  rewrite (E0 (BasicInput.x a)) in * by lia.
  rewrite (clamp_inside 0 (640 - w) (BasicInput.x a)) by lia.
  rewrite (E0 (BasicInput.x a)) by lia.
  rewrite (clamp_inside 0 (640 - w) (BasicInput.x a)) by lia.
  f_equal.
  rewrite (add_id (BasicInput.y a) (-10)) by (apply small_is_int; lia).
  pose proof (clamp_range 0 (480 - h) (BasicInput.y a + -10) ltac:(lia)).
  rewrite add_id by (apply small_is_int; lia).
  unfold clamp. lia.
Qed.

Lemma up_and_down_push_from_top_edge_witness :
  exists g',
    BasicInput.Game_Update
      (ebiten.mkInput
         (fun k => bool_decide (k = ebiten.KeyUp) || bool_decide (k = ebiten.KeyDown))
         (fun _ => false) (fun _ => false) (0, 0))
      (BasicInput.mkGame
         [BasicInput.mkSprite "0" (solid 64 64) 0 0;
          BasicInput.mkSprite "1" (solid 64 64) 100 4] 1)
    = Ok (g', None) /\
    BasicInput.s g' !! 1%nat = Some (BasicInput.mkSprite "1" (solid 64 64) 100 10).
Proof.
  exact (up_and_down_push_from_top_edge
           (ebiten.mkInput
              (fun k => bool_decide (k = ebiten.KeyUp) || bool_decide (k = ebiten.KeyDown))
              (fun _ => false) (fun _ => false) (0, 0))
           (BasicInput.mkGame
              [BasicInput.mkSprite "0" (solid 64 64) 0 0;
               BasicInput.mkSprite "1" (solid 64 64) 100 4] 1)
           (BasicInput.mkSprite "1" (solid 64 64) 100 4) 64 64
           ltac:(split; [unfold len; simpl; lia|vm_compute; discriminate])
           eq_refl eq_refl ltac:(lia) ltac:(lia) ltac:(simpl; lia) ltac:(simpl; lia)
           eq_refl eq_refl eq_refl eq_refl).
Defined.

(** ** Cycling through the polygons with space *)

Lemma key_frames_space d levels :
  key_frames ebiten.KeySpace d levels = inpututil.frames d levels.
Proof.
  revert d. induction levels as [|b rest IH]; intros d; [reflexivity|].
  cbn [key_frames inpututil.frames]. now rewrite IH.
Qed.

Lemma just_pressed_edge b d :
  inpututil.IsKeyJustPressed (inpututil.tick b d) = b && Nat.eqb d 0.
Proof. destruct b, d; reflexivity. Qed.

Lemma tick_down b d : negb (Nat.eqb (inpututil.tick b d) 0) = b.
Proof. destruct b; reflexivity. Qed.

Lemma PolygonMaking_space_step b jp g :
  PolygonMaking_valid g ->
  PolygonMaking.Game_Update
    (ebiten.mkInput (fun k => if decide (k = ebiten.KeySpace) then b else false)
       (fun k => if decide (k = ebiten.KeySpace) then jp else false)
       (fun _ => false) (0, 0)) g
  = Ok (PolygonMaking.mkGame (PolygonMaking.fullscreen g) (PolygonMaking.p g)
          (if jp then (PolygonMaking.activePolygon g + 1) mod len (PolygonMaking.p g)
           else PolygonMaking.activePolygon g), None).
Proof.
  intros [Ha Hmax].
  rewrite PolygonMaking_Update_eq by now apply in_range_spec.
  unfold PolygonMaking_moved, escape_error.
  cbn [ebiten.IsKeyPressed ebiten.IsKeyJustPressed ebiten.IsMouseButtonJustPressed].
  rewrite !decide_False by discriminate. rewrite decide_True by reflexivity.
  cbn [alter_if orb]. cbv zeta. destruct jp; [|now destruct g].
  do 3 f_equal.
  unfold rem. rewrite add_id by (unfold is_int, int_min, int_max in *; lia).
  apply Z.rem_mod_nonneg; lia.
Qed.

(** X3.  In the polygon demos the space key cycles the active index once
    per press.  Over any run of frames in which nothing but the space key
    is touched, from a valid state, the run succeeds with [nil], the
    active index ends at [(a + k) mod n], where [n] is the number of
    polygons and [k] the number of frames in which space goes from
    released to pressed, and the polygons and the full-screen flag are
    as before: holding the key does not keep cycling, and [n] presses
    come back to the polygon that was active. *)
Theorem space_cycles_through_polygons (levels : list bool) :
  forall (d : nat) (g : PolygonMaking.Game),
    PolygonMaking_valid g ->
    ebiten.RunGame PolygonMaking.Game_Update PolygonMaking.Game_Draw
      (inpututil.frames d levels) g
    = Ok (PolygonMaking.mkGame (PolygonMaking.fullscreen g) (PolygonMaking.p g)
            ((PolygonMaking.activePolygon g + rising_edges (negb (Nat.eqb d 0)) levels)
             mod len (PolygonMaking.p g)),
          None).
Proof.
  induction levels as [|b rest IH]; intros d g Hv.
  - destruct g as [fs es a]. destruct Hv as [Ha _].
    cbn [inpututil.frames ebiten.RunGame rising_edges PolygonMaking.fullscreen
         PolygonMaking.p PolygonMaking.activePolygon] in *.
    rewrite Z.add_0_r, Z.mod_small by lia. reflexivity.
  - cbn [inpututil.frames ebiten.RunGame rising_edges].
    rewrite (PolygonMaking_space_step b _ g Hv).
    cbn [mbind result_bind snd fst].
    set (a1 := if inpututil.IsKeyJustPressed (inpututil.tick b d)
               then (PolygonMaking.activePolygon g + 1) mod len (PolygonMaking.p g)
               else PolygonMaking.activePolygon g).
    set (g1 := PolygonMaking.mkGame (PolygonMaking.fullscreen g) (PolygonMaking.p g) a1).
    assert (Hv1 : PolygonMaking_valid g1).
    { destruct Hv as [Ha Hmax]. split; [|exact Hmax].
      cbn [g1 PolygonMaking.p PolygonMaking.activePolygon]. subst a1.
      destruct (inpututil.IsKeyJustPressed (inpututil.tick b d)); [|exact Ha].
      apply Z.mod_pos_bound. lia. }
    destruct (PolygonMaking_Draw_valid g1 Hv1) as [dr Ed]. rewrite Ed.
    cbn [mbind result_bind]. rewrite (IH _ g1 Hv1).
    cbn [g1 PolygonMaking.fullscreen PolygonMaking.p PolygonMaking.activePolygon].
    do 3 f_equal. rewrite tick_down. subst a1. rewrite just_pressed_edge.
    destruct Hv as [Ha _].
    destruct b, (Nat.eqb d 0); cbn [andb negb];
      rewrite ?Z.add_mod_idemp_l by lia; f_equal; lia.
Qed.

Lemma space_cycles_through_polygons_witness :
  ebiten.RunGame PolygonMaking.Game_Update PolygonMaking.Game_Draw
    (inpututil.frames 0 [true; true; false; true; false; false; true])
    (PolygonMaking.mkGame false
       [PolygonMaking.mkPolygon "Triangle" 0 10 20 (Fconst 0) (solid 40 40);
        PolygonMaking.mkPolygon "Pentagon" 50 50 20 (Fconst 0) (solid 40 40);
        PolygonMaking.mkPolygon "Circle" 100 100 20 (Fconst 0) (solid 40 40)] 1)
  = Ok (PolygonMaking.mkGame false
          [PolygonMaking.mkPolygon "Triangle" 0 10 20 (Fconst 0) (solid 40 40);
           PolygonMaking.mkPolygon "Pentagon" 50 50 20 (Fconst 0) (solid 40 40);
           PolygonMaking.mkPolygon "Circle" 100 100 20 (Fconst 0) (solid 40 40)] 1,
        None).
Proof.
  exact (space_cycles_through_polygons [true; true; false; true; false; false; true] 0
           (PolygonMaking.mkGame false
              [PolygonMaking.mkPolygon "Triangle" 0 10 20 (Fconst 0) (solid 40 40);
               PolygonMaking.mkPolygon "Pentagon" 50 50 20 (Fconst 0) (solid 40 40);
               PolygonMaking.mkPolygon "Circle" 100 100 20 (Fconst 0) (solid 40 40)] 1)
           ltac:(split; [unfold len; simpl; lia|vm_compute; discriminate])).
Defined.

(** ** What an [Update] never touches *)

Lemma Polygon_sized_fixed (l l' : list PolygonMaking.Polygon) :
  map Polygon_fixed l' = map Polygon_fixed l ->
  Forall Polygon_sized l -> Forall Polygon_sized l'.
Proof.
  revert l'. induction l as [|q l IH]; intros [|q' l'] E H; try discriminate E.
  - constructor.
  - cbn [map] in E. injection E as _ Er Ei El. apply Forall_cons in H.
    destruct H as [Hq Hl]. constructor; [|now apply IH].
    unfold Polygon_sized in *. now rewrite Ei, Er.
Qed.

Lemma PolygonMaking_Update_fixed i g :
  PolygonMaking_valid g ->
  exists g',
    PolygonMaking.Game_Update i g = Ok (g', escape_error i) /\
    PolygonMaking_valid g' /\
    map Polygon_fixed (PolygonMaking.p g') = map Polygon_fixed (PolygonMaking.p g).
Proof.
  intros Hv. destruct (PolygonMaking_Update_valid i g Hv) as (g' & E & Hv' & _).
  exists g'. split; [exact E|]. split; [exact Hv'|].
  rewrite PolygonMaking_Update_eq in E by now apply valid_index_in_range.
  injection E as <-. cbv zeta. cbn [PolygonMaking.p]. unfold PolygonMaking_moved.
  rewrite !map_alter_if_fixed; reflexivity.
Qed.

(** X4.  [NewPolygon] gives every polygon a bitmap of [2 * radius] by
    [2 * radius] pixels, and no [Update] of polygon-making changes the id,
    the radius or the bitmap of any polygon, the active one included; so
    on every run from a valid state the polygons keep these and keep
    bitmaps of that size. *)
Theorem polygons_keep_id_radius_bitmap :
  (forall raster id x y theta radius sides clr q,
      exact_int radius ->
      PolygonMaking.NewPolygon raster id x y theta radius sides clr = Ok q ->
      Polygon_sized q) /\
  keeps PolygonMaking.Game_Update PolygonMaking.Game_Draw PolygonMaking_valid
    (fun g => map Polygon_fixed (PolygonMaking.p g)) /\
  (forall frames g g' e,
      PolygonMaking_valid g ->
      ebiten.RunGame PolygonMaking.Game_Update PolygonMaking.Game_Draw frames g
      = Ok (g', e) ->
      Forall Polygon_sized (PolygonMaking.p g) ->
      Forall Polygon_sized (PolygonMaking.p g')).
Proof.
  assert (K : keeps PolygonMaking.Game_Update PolygonMaking.Game_Draw PolygonMaking_valid
                (fun g => map Polygon_fixed (PolygonMaking.p g)))
    by (apply keeps_intro; [exact PolygonMaking_Update_fixed
                           |exact PolygonMaking_Draw_valid]).
  split; [|split; [exact K|]].
  - intros raster id x y theta radius sides clr q Hr E.
    destruct (NewPolygon_size raster id x y theta radius sides clr q Hr E)
      as (Er & _ & ES).
    unfold Polygon_sized. now rewrite Er.
  - intros frames g g' e Hv E Hs.
    destruct (proj2 K frames g Hv) as (g1 & e1 & E1 & Hfix).
    rewrite E in E1. injection E1 as <- _.
    now apply (Polygon_sized_fixed (PolygonMaking.p g)).
Qed.

Lemma polygons_keep_id_radius_bitmap_witness :
  exists g' e,
    ebiten.RunGame PolygonMaking.Game_Update PolygonMaking.Game_Draw
      [pressing ebiten.KeyQ; pressing ebiten.KeyRight; clicking ebiten.MouseButtonLeft (50, 50)]
      (PolygonMaking.mkGame false
         [PolygonMaking.mkPolygon "Triangle" 0 10 20 (Fconst 0) (solid 40 40);
          PolygonMaking.mkPolygon "Pentagon" 50 50 20 (Fconst 0) (solid 40 40)] 0)
    = Ok (g', e) /\
    map Polygon_fixed (PolygonMaking.p g')
    = [("Triangle"%string, 20, solid 40 40); ("Pentagon"%string, 20, solid 40 40)].
Proof.
  apply (proj2 (proj1 (proj2 polygons_keep_id_radius_bitmap))
           [pressing ebiten.KeyQ; pressing ebiten.KeyRight;
            clicking ebiten.MouseButtonLeft (50, 50)]
           (PolygonMaking.mkGame false
              [PolygonMaking.mkPolygon "Triangle" 0 10 20 (Fconst 0) (solid 40 40);
               PolygonMaking.mkPolygon "Pentagon" 50 50 20 (Fconst 0) (solid 40 40)] 0)).
  split; [unfold len; simpl; lia|]. vm_compute. discriminate.
Defined.

(** ** The full-screen toggle *)

Ltac decide_keys :=
  repeat match goal with
         | |- context [decide (?a = ?b)] =>
             destruct (decide (a = b)); [try congruence|try congruence]
         end.

Lemma PolygonMaking_fullscreen_step b jp g :
  PolygonMaking_valid g ->
  PolygonMaking.Game_Update
    (ebiten.mkInput (fun k => if decide (k = ebiten.KeyF) then b else false)
       (fun k => if decide (k = ebiten.KeyF) then jp else false)
       (fun _ => false) (0, 0)) g
  = Ok (PolygonMaking.mkGame (xorb (PolygonMaking.fullscreen g) jp) (PolygonMaking.p g)
          (PolygonMaking.activePolygon g), None).
Proof.
  intros Hv.
  rewrite PolygonMaking_Update_eq by now apply valid_index_in_range.
  unfold PolygonMaking_moved, escape_error.
  cbn [ebiten.IsKeyPressed ebiten.IsKeyJustPressed ebiten.IsMouseButtonJustPressed].
  decide_keys.
  cbn [alter_if orb]. cbv zeta.
  destruct jp, g as [[] es a]; reflexivity.
Qed.

Lemma ConnectLines_fullscreen_step b jp g :
  ConnectLines_valid g ->
  ConnectLines.Game_Update
    (ebiten.mkInput (fun k => if decide (k = ebiten.KeyF) then b else false)
       (fun k => if decide (k = ebiten.KeyF) then jp else false)
       (fun _ => false) (0, 0)) g
  = Ok (ConnectLines.mkGame (xorb (ConnectLines.fullscreen g) jp) (ConnectLines.blocks g)
          (ConnectLines.connections g) (ConnectLines.selected g), None).
Proof.
  intros _. unfold ConnectLines.Game_Update.
  cbn [ebiten.IsKeyPressed ebiten.IsKeyJustPressed ebiten.IsMouseButtonJustPressed].
  decide_keys.
  cbn [orb when mbind result_bind]. unfold ConnectLines.toggleFullscreen.
  destruct jp, g as [[] es cs a]; reflexivity.
Qed.

Lemma Starfield_fullscreen_step b jp g :
  Starfield.Game_Update
    (ebiten.mkInput (fun k => if decide (k = ebiten.KeyF) then b else false)
       (fun k => if decide (k = ebiten.KeyF) then jp else false)
       (fun _ => false) (0, 0)) g
  = Ok (Starfield.mkGame (xorb (Starfield.fullscreen g) jp) (Starfield.nearStars g)
          (Starfield.farStars g), None).
Proof.
  unfold Starfield.Game_Update.
  cbn [ebiten.IsKeyPressed ebiten.IsKeyJustPressed ebiten.IsMouseButtonJustPressed].
  decide_keys.
  cbn [orb when mbind result_bind]. unfold Starfield.toggleFullscreen.
  destruct jp, g as [[] near far]; reflexivity.
Qed.

(** The parity of the presses of a key over its levels. *)
Lemma odd_rising_edges b d rest :
  Z.odd (rising_edges (negb (Nat.eqb d 0)) (b :: rest))
  = xorb (inpututil.IsKeyJustPressed (inpututil.tick b d))
      (Z.odd (rising_edges (negb (Nat.eqb (inpututil.tick b d) 0)) rest)).
Proof.
  cbn [rising_edges]. rewrite tick_down, just_pressed_edge, Z.odd_add.
  rewrite negb_involutive. now destruct (b && Nat.eqb d 0).
Qed.

(** X5.  The [F] key toggles the full-screen flag once per press and
    touches nothing else.  In polygon-making, connect-lines and starfield,
    over any run of frames in which nothing but [F] is touched, the run
    succeeds with [nil], the flag ends flipped exactly when the number of
    frames in which [F] goes from released to pressed is odd, and the
    rest of the game is as it was: holding the key does not keep
    toggling, and two presses give the game back exactly. *)
Theorem fullscreen_toggles_back (levels : list bool) :
  (forall d g, PolygonMaking_valid g ->
     ebiten.RunGame PolygonMaking.Game_Update PolygonMaking.Game_Draw
       (key_frames ebiten.KeyF d levels) g
     = Ok (PolygonMaking.mkGame
             (xorb (PolygonMaking.fullscreen g)
                (Z.odd (rising_edges (negb (Nat.eqb d 0)) levels)))
             (PolygonMaking.p g) (PolygonMaking.activePolygon g), None)) /\
  (forall d g, ConnectLines_valid g ->
     ebiten.RunGame ConnectLines.Game_Update ConnectLines.Game_Draw
       (key_frames ebiten.KeyF d levels) g
     = Ok (ConnectLines.mkGame
             (xorb (ConnectLines.fullscreen g)
                (Z.odd (rising_edges (negb (Nat.eqb d 0)) levels)))
             (ConnectLines.blocks g) (ConnectLines.connections g)
             (ConnectLines.selected g), None)) /\
  (forall d g,
     ebiten.RunGame Starfield.Game_Update Starfield.Game_Draw
       (key_frames ebiten.KeyF d levels) g
     = Ok (Starfield.mkGame
             (xorb (Starfield.fullscreen g)
                (Z.odd (rising_edges (negb (Nat.eqb d 0)) levels)))
             (Starfield.nearStars g) (Starfield.farStars g), None)).
Proof.
  induction levels as [|b rest (IHp & IHc & IHs)].
  - split; [|split]; intros d g; intros;
      cbn [key_frames ebiten.RunGame rising_edges Z.odd];
      rewrite xorb_false_r; now destruct g.
  - split; [|split].
    + intros d g Hv. rewrite odd_rising_edges.
      cbn [key_frames ebiten.RunGame]. rewrite (PolygonMaking_fullscreen_step b _ g Hv).
      cbn [mbind result_bind snd fst].
      assert (Hv1 : PolygonMaking_valid
                      (PolygonMaking.mkGame
                         (xorb (PolygonMaking.fullscreen g)
                            (inpututil.IsKeyJustPressed (inpututil.tick b d)))
                         (PolygonMaking.p g) (PolygonMaking.activePolygon g)))
        by exact Hv.
      destruct (PolygonMaking_Draw_valid _ Hv1) as [dr Ed]. rewrite Ed.
      cbn [mbind result_bind]. rewrite (IHp _ _ Hv1).
      cbn [PolygonMaking.fullscreen PolygonMaking.p PolygonMaking.activePolygon].
      now rewrite xorb_assoc.
    + intros d g Hv. rewrite odd_rising_edges.
      cbn [key_frames ebiten.RunGame]. rewrite (ConnectLines_fullscreen_step b _ g Hv).
      cbn [mbind result_bind snd fst].
      assert (Hv1 : ConnectLines_valid
                      (ConnectLines.mkGame
                         (xorb (ConnectLines.fullscreen g)
                            (inpututil.IsKeyJustPressed (inpututil.tick b d)))
                         (ConnectLines.blocks g) (ConnectLines.connections g)
                         (ConnectLines.selected g)))
        by exact Hv.
      destruct (ConnectLines_Draw_valid _ Hv1) as [dr Ed]. rewrite Ed.
      cbn [mbind result_bind]. rewrite (IHc _ _ Hv1).
      cbn [ConnectLines.fullscreen ConnectLines.blocks ConnectLines.connections
           ConnectLines.selected].
      now rewrite xorb_assoc.
    + intros d g. rewrite odd_rising_edges.
      cbn [key_frames ebiten.RunGame]. rewrite (Starfield_fullscreen_step b _ g).
      cbn [mbind result_bind snd fst Starfield.Game_Draw]. rewrite IHs.
      cbn [Starfield.fullscreen Starfield.nearStars Starfield.farStars].
      now rewrite xorb_assoc.
Qed.

Lemma fullscreen_toggles_back_witness :
  ebiten.RunGame PolygonMaking.Game_Update PolygonMaking.Game_Draw
    (key_frames ebiten.KeyF 0 [true; true; false; true; false])
    (PolygonMaking.mkGame false
       [PolygonMaking.mkPolygon "Triangle" 0 10 20 (Fconst 0) (solid 40 40)] 0)
  = Ok (PolygonMaking.mkGame false
          [PolygonMaking.mkPolygon "Triangle" 0 10 20 (Fconst 0) (solid 40 40)] 0, None).
Proof.
  exact (proj1 (fullscreen_toggles_back [true; true; false; true; false]) 0%nat
           (PolygonMaking.mkGame false
              [PolygonMaking.mkPolygon "Triangle" 0 10 20 (Fconst 0) (solid 40 40)] 0)
           ltac:(split; [unfold len; simpl; lia|vm_compute; discriminate])).
Defined.

(** ** Connections and blocks over a run *)

Lemma ConnectLines_Update_grows i g :
  ConnectLines_valid g ->
  exists g',
    ConnectLines.Game_Update i g = Ok (g', escape_error i) /\
    ConnectLines_valid g' /\
    map Block_fixed (ConnectLines.blocks g') = map Block_fixed (ConnectLines.blocks g) /\
    exists added,
      ConnectLines.connections g' = ConnectLines.connections g ++ added /\
      (length added <= 1)%nat.
Proof.
  intros Hv. destruct (ConnectLines_Update_valid i g Hv) as (g' & E & Hv' & _).
  exists g'. split; [exact E|]. split; [exact Hv'|].
  destruct Hv as [H%valid_index_in_range _].
  destruct (ConnectLines_Update_blocks i g H) as (g1 & E1 & Hb & _).
  destruct (ConnectLines_Update_spec i g H) as (g2 & E2 & _ & _ & _ & Hcon).
  rewrite E in E1, E2. injection E1 as <-. injection E2 as <-.
  split.
  - rewrite Hb. unfold ConnectLines_moved. rewrite !map_alter_if_fixed; reflexivity.
  - cbv zeta in Hcon. eexists. split; [exact Hcon|].
    destruct (ebiten.IsMouseButtonJustPressed i ebiten.MouseButtonRight); [|simpl; lia].
    destruct (topmost _ _ _); [|simpl; lia].
    destruct (negb _); simpl; lia.
Qed.

(** X6.  In connect-lines no [Update] removes, reorders or rewrites a
    connection, and none changes the id, size, colour or bitmap of a
    block: one [Update] appends at most one connection, and after every
    run from a valid state the old connections are a prefix of the new
    list and the blocks keep these attributes. *)
Theorem connections_only_grow :
  (forall i g, ConnectLines_valid g ->
     exists g' added,
       ConnectLines.Game_Update i g = Ok (g', escape_error i) /\
       ConnectLines.connections g' = ConnectLines.connections g ++ added /\
       (length added <= 1)%nat) /\
  (forall frames g, ConnectLines_valid g ->
     exists g' e added,
       ebiten.RunGame ConnectLines.Game_Update ConnectLines.Game_Draw frames g
       = Ok (g', e) /\
       ConnectLines.connections g' = ConnectLines.connections g ++ added /\
       (length added <= length frames)%nat /\
       map Block_fixed (ConnectLines.blocks g') = map Block_fixed (ConnectLines.blocks g)).
Proof.
  split.
  - intros i g Hv.
    destruct (ConnectLines_Update_grows i g Hv) as (g' & E & _ & _ & added & Ea & Hl).
    exists g', added. auto.
  - intros frames. induction frames as [|i rest IH]; intros g Hv.
    + exists g, None, []. cbn [ebiten.RunGame]. rewrite app_nil_r. auto.
    + destruct (ConnectLines_Update_grows i g Hv)
        as (g1 & E1 & Hv1 & Hb1 & added1 & Ea1 & Hl1).
      cbn [ebiten.RunGame]. rewrite E1. cbn [mbind result_bind snd fst].
      unfold escape_error. destruct (ebiten.IsKeyPressed i ebiten.KeyEscape).
      * exists g1, (Some ErrCleanExit), added1.
        split; [reflexivity|]. split; [exact Ea1|]. split; [simpl; lia|exact Hb1].
      * destruct (ConnectLines_Draw_valid g1 Hv1) as [d Ed]. rewrite Ed.
        cbn [mbind result_bind].
        destruct (IH g1 Hv1) as (g' & e & added & E & Ea & Hl & Hb).
        exists g', e, (added1 ++ added). split; [exact E|].
        split; [rewrite Ea, Ea1; now rewrite app_assoc|].
        split; [rewrite length_app; simpl; lia|congruence].
Qed.

Lemma connections_only_grow_witness :
  exists g' e added,
    ebiten.RunGame ConnectLines.Game_Update ConnectLines.Game_Draw
      [clicking ebiten.MouseButtonRight (11, 11); clicking ebiten.MouseButtonRight (11, 11)]
      (ConnectLines.mkGame false
         [ConnectLines.mkBlock "0" 10 10 3 color.White (solid 3 3);
          ConnectLines.mkBlock "1" 20 20 3 color.White (solid 3 3)]
         [ConnectLines.mkconnected 1 0] 1)
    = Ok (g', e) /\
    ConnectLines.connections g' = [ConnectLines.mkconnected 1 0] ++ added /\
    (length added <= 2)%nat /\
    map Block_fixed (ConnectLines.blocks g')
    = [("0"%string, 3, color.White, solid 3 3); ("1"%string, 3, color.White, solid 3 3)].
Proof.
  apply (proj2 connections_only_grow
           [clicking ebiten.MouseButtonRight (11, 11);
            clicking ebiten.MouseButtonRight (11, 11)]
           (ConnectLines.mkGame false
              [ConnectLines.mkBlock "0" 10 10 3 color.White (solid 3 3);
               ConnectLines.mkBlock "1" 20 20 3 color.White (solid 3 3)]
              [ConnectLines.mkconnected 1 0] 1)).
  split; [split; [unfold len; simpl; lia|vm_compute; discriminate]|].
  repeat constructor; simpl; try lia; discriminate.
Defined.

(** The same connection can be stored more than once: a second right
    click on a block that is already connected appends it again. *)
Lemma connections_are_not_deduplicated :
  exists g',
    ebiten.RunGame ConnectLines.Game_Update ConnectLines.Game_Draw
      [clicking ebiten.MouseButtonRight (11, 11); clicking ebiten.MouseButtonRight (11, 11)]
      (ConnectLines.mkGame false
         [ConnectLines.mkBlock "0" 10 10 3 color.White (solid 3 3);
          ConnectLines.mkBlock "1" 20 20 3 color.White (solid 3 3)] [] 1)
    = Ok (g', None) /\
    ConnectLines.connections g'
    = [ConnectLines.mkconnected 1 0; ConnectLines.mkconnected 1 0].
Proof. eexists. split; vm_compute; reflexivity. Qed.

(** ** Where entities are drawn and where they are hit *)

Lemma translate_drawn img X Y c cx cy :
  opaque_on_screen
    (ebiten.DrawImage img [ebiten.Translate (F64_of_int X) (F64_of_int Y)] c) cx cy
  <-> 0 < color.A (ebiten.At img (cx - X) (cy - Y)).
Proof.
  cbn [opaque_on_screen]. split.
  - intros (px & py & q & E & H1 & H2 & H). cbn in E. injection E as <-.
    cbn [fst snd] in H1, H2. apply Q_translate in H1, H2. now subst px py.
  - intros H. exists (cx - X), (cy - Y). eexists.
    split; [reflexivity|]. cbn [fst snd].
    split; [apply Q_translate; lia|]. split; [apply Q_translate; lia|exact H].
Qed.

Lemma centered_drawn img r theta X Y c cx cy :
  unrotated theta ->
  opaque_on_screen
    (ebiten.DrawImage img
       [ebiten.Translate (Fdiv (Fneg (F64_of_int (2 * r))) (Fconst 2))
          (Fdiv (Fneg (F64_of_int (2 * r))) (Fconst 2));
        ebiten.Rotate theta;
        ebiten.Translate (F64_of_int X) (F64_of_int Y)] c) cx cy
  <-> 0 < color.A (ebiten.At img (cx - X + r) (cy - Y + r)).
Proof.
  intros (t & Et & Ht). cbn [opaque_on_screen].
  assert (EG : forall px py,
             GeoM_apply
               [ebiten.Translate (Fdiv (Fneg (F64_of_int (2 * r))) (Fconst 2))
                  (Fdiv (Fneg (F64_of_int (2 * r))) (Fconst 2));
                ebiten.Rotate theta;
                ebiten.Translate (F64_of_int X) (F64_of_int Y)]
               (inject_Z px, inject_Z py)
             = Some
                 (Qplus (Qplus (inject_Z px)
                           (Qdiv (Qopp (inject_Z (2 * r))) (inject_Z 2)))
                    (inject_Z X),
                  Qplus (Qplus (inject_Z py)
                           (Qdiv (Qopp (inject_Z (2 * r))) (inject_Z 2)))
                    (inject_Z Y))).
  { intros px py. cbn [GeoM_apply GeoOp_apply Fvalue mbind option_bind].
    rewrite Et. cbn [mbind option_bind]. rewrite Ht. reflexivity. }
  split.
  - intros (px & py & p & E & H1 & H2 & H). rewrite EG in E. injection E as <-.
    cbn [fst snd] in H1, H2. apply Q_center in H1, H2. now subst px py.
  - intros H. exists (cx - X + r), (cy - Y + r). eexists.
    split; [apply EG|]. cbn [fst snd].
    split; [apply Q_center; lia|]. split; [apply Q_center; lia|exact H].
Qed.

(** X7.  A block is hit on the closed rectangle from [(x, y)] to
    [(x + size, y + size)].  Every screen point on which the block's
    bitmap is drawn, when the bitmap is opaque on its [size] by [size]
    pixels only, lies in that rectangle; the rectangle is one pixel wider
    and higher than the drawing, so the block is also hit at [x + size],
    where nothing of it is drawn. *)
Theorem block_hit_region_covers_drawing (b : ConnectLines.Block) (c : option color.Color) :
  exact_int (ConnectLines.x b) -> exact_int (ConnectLines.y b) ->
  0 <= ConnectLines.size b <= 480 ->
  opaque_within (ConnectLines.img b) (ConnectLines.size b) (ConnectLines.size b) ->
  (forall cx cy,
     ConnectLines.Block_In b cx cy = true
     <-> ConnectLines.x b <= cx <= ConnectLines.x b + ConnectLines.size b /\
         ConnectLines.y b <= cy <= ConnectLines.y b + ConnectLines.size b) /\
  (forall cx cy,
     opaque_on_screen (ConnectLines.Block_Draw b c) cx cy ->
     ConnectLines.Block_In b cx cy = true) /\
  (ConnectLines.Block_In b (ConnectLines.x b + ConnectLines.size b) (ConnectLines.y b)
   = true /\
   ~ opaque_on_screen (ConnectLines.Block_Draw b c)
       (ConnectLines.x b + ConnectLines.size b) (ConnectLines.y b)).
Proof.
  intros Hx Hy Hn Hop. split; [|split].
  - intros cx cy. now apply Block_In_rectangle.
  - intros cx cy H. unfold ConnectLines.Block_Draw in H. apply translate_drawn in H.
    apply Hop in H. apply Block_In_rectangle; [assumption..|]. lia.
  - split; [apply Block_In_rectangle; [assumption..|]; lia|].
    intros H. unfold ConnectLines.Block_Draw in H. apply translate_drawn in H.
    apply Hop in H. lia.
Qed.

Lemma solid_opaque_within w h : opaque_within (solid w h) w h.
Proof.
  intros px py. unfold solid. cbn [ebiten.At].
  destruct (Z.leb_spec 0 px), (Z.ltb_spec px w), (Z.leb_spec 0 py), (Z.ltb_spec py h);
    cbn; lia.
Qed.

Lemma block_hit_region_covers_drawing_witness :
  ConnectLines.Block_In (ConnectLines.mkBlock "0" 10 10 3 color.White (solid 3 3)) 13 10
  = true /\
  ~ opaque_on_screen
      (ConnectLines.Block_Draw (ConnectLines.mkBlock "0" 10 10 3 color.White (solid 3 3))
         None) 13 10.
Proof.
  apply (proj2 (proj2 (block_hit_region_covers_drawing
           (ConnectLines.mkBlock "0" 10 10 3 color.White (solid 3 3)) None
           ltac:(unfold exact_int; simpl; lia) ltac:(unfold exact_int; simpl; lia)
           ltac:(simpl; lia) (solid_opaque_within 3 3)))).
Defined.

(** X8.  After a move, a sprite and an unrotated polygon are drawn on the
    screen only: every screen point that receives an opaque pixel of a
    moved sprite (whose bitmap fits the screen) or of a moved polygon
    (radius at most 240, bitmap [2 * radius] square) is a pixel of the
    640 by 480 screen.  Bitmaps are opaque on their own pixels only. *)
Theorem moved_entities_are_drawn_on_screen :
  (forall (s : BasicInput.Sprite) dx dy w h cx cy,
      ebiten.Size (BasicInput.img s) = (w, h) ->
      0 <= w <= 640 -> 0 <= h <= 480 ->
      opaque_within (BasicInput.img s) w h ->
      opaque_on_screen (BasicInput.Sprite_Draw (BasicInput.Sprite_MoveBy s dx dy) 0 0)
        cx cy ->
      screen_pixel cx cy) /\
  (forall (q : PolygonMaking.Polygon) dx dy cx cy,
      let r := PolygonMaking.radius q in
      0 <= r <= 240 ->
      unrotated (PolygonMaking.theta q) ->
      ebiten.Size (PolygonMaking.img q) = (2 * r, 2 * r) ->
      opaque_within (PolygonMaking.img q) (2 * r) (2 * r) ->
      opaque_on_screen (PolygonMaking.Polygon_Draw (PolygonMaking.Polygon_MoveBy q dx dy))
        cx cy ->
      screen_pixel cx cy).
Proof.
  split.
  - intros s dx dy w h cx cy HS Hw Hh Hop H.
    rewrite (Sprite_MoveBy_eq s dx dy w h HS Hw Hh) in H.
    unfold BasicInput.Sprite_Draw in H.
    cbn [BasicInput.img BasicInput.x BasicInput.y] in H.
    pose proof (clamp_range 0 (640 - w) (add (BasicInput.x s) dx) ltac:(lia)) as Hcx.
    pose proof (clamp_range 0 (480 - h) (add (BasicInput.y s) dy) ltac:(lia)) as Hcy.
    rewrite !add_0_r_small in H by lia.
    apply translate_drawn in H. apply Hop in H. unfold screen_pixel. lia.
  - intros q dx dy cx cy r Hr Hrot HS Hop H. subst r.
    rewrite (Polygon_MoveBy_eq q dx dy Hr) in H.
    unfold PolygonMaking.Polygon_Draw in H.
    cbn [PolygonMaking.img PolygonMaking.x PolygonMaking.y PolygonMaking.theta] in H.
    rewrite HS in H.
    pose proof (clamp_range (PolygonMaking.radius q) (640 - PolygonMaking.radius q)
                  (add (PolygonMaking.x q) dx) ltac:(lia)) as Hcx.
    pose proof (clamp_range (PolygonMaking.radius q) (480 - PolygonMaking.radius q)
                  (add (PolygonMaking.y q) dy) ltac:(lia)) as Hcy.
    apply (centered_drawn _ _ _ _ _ _ _ _ Hrot) in H.
    apply Hop in H. unfold screen_pixel. lia.
Qed.

Lemma moved_entities_are_drawn_on_screen_witness :
  opaque_on_screen
    (BasicInput.Sprite_Draw
       (BasicInput.Sprite_MoveBy (BasicInput.mkSprite "0" (solid 64 64) 600 5) 100 (-10))
       0 0) 639 0 /\
  screen_pixel 639 0.
Proof.
  assert (H : opaque_on_screen
                (BasicInput.Sprite_Draw
                   (BasicInput.Sprite_MoveBy
                      (BasicInput.mkSprite "0" (solid 64 64) 600 5) 100 (-10)) 0 0)
                639 0).
  { exists 63, 0. eexists. split; [vm_compute; reflexivity|].
    split; [vm_compute; reflexivity|]. split; vm_compute; reflexivity. }
  split; [exact H|].
  apply (proj1 moved_entities_are_drawn_on_screen
           (BasicInput.mkSprite "0" (solid 64 64) 600 5) 100 (-10) 64 64 639 0 eq_refl
           ltac:(lia) ltac:(lia) (solid_opaque_within 64 64) H).
Defined.

(** ** Scrolling the far stars all the way round *)

Lemma iter_add {A : Type} (f : A -> A) a b x :
  Nat.iter (a + b) f x = Nat.iter a f (Nat.iter b f x).
Proof. induction a as [|a IH]; [reflexivity|]. simpl. now rewrite IH. Qed.

Lemma iter_succ_r {A : Type} (f : A -> A) k x :
  Nat.iter (S k) f x = Nat.iter k f (f x).
Proof. induction k as [|k IH]; [reflexivity|]. simpl in *. now rewrite IH. Qed.

Lemma wrap_up_steps hi k : forall v,
  0 <= v -> v + Z.of_nat k <= hi -> hi <= 2 ^ 62 ->
  Nat.iter k (fun v => wrap_around hi (add v 1)) v = v + Z.of_nat k.
Proof.
  induction k as [|k IH]; intros v Hv Hk Hhi; [simpl; lia|].
  rewrite iter_succ_r.
  assert (E : wrap_around hi (add v 1) = v + 1).
  { rewrite add_id by (apply small_is_int; lia). unfold wrap_around.
    destruct (Z.gtb_spec (v + 1) hi); [lia|].
    destruct (Z.ltb_spec (v + 1) 0); [lia|reflexivity]. }
  rewrite E, IH by lia. lia.
Qed.

Lemma wrap_down_steps hi k : forall v,
  Z.of_nat k <= v -> v <= hi -> hi <= 2 ^ 62 ->
  Nat.iter k (fun v => wrap_around hi (add v (-1))) v = v - Z.of_nat k.
Proof.
  induction k as [|k IH]; intros v Hk Hv Hhi; [simpl; lia|].
  rewrite iter_succ_r.
  assert (E : wrap_around hi (add v (-1)) = v - 1).
  { rewrite add_id by (apply small_is_int; lia). unfold wrap_around.
    destruct (Z.gtb_spec (v + -1) hi); [lia|].
    destruct (Z.ltb_spec (v + -1) 0); [lia|lia]. }
  rewrite E, IH by lia. lia.
Qed.

Lemma wrap_up_period hi v :
  0 <= v <= hi -> hi < 2 ^ 62 ->
  Nat.iter (Z.to_nat (hi + 1)) (fun v => wrap_around hi (add v 1)) v = v.
Proof.
  intros Hv Hhi.
  replace (Z.to_nat (hi + 1)) with (Z.to_nat v + (1 + Z.to_nat (hi - v)))%nat by lia.
  rewrite iter_add, iter_add.
  rewrite (wrap_up_steps hi (Z.to_nat (hi - v)) v) by lia.
  replace (v + Z.of_nat (Z.to_nat (hi - v))) with hi by lia.
  assert (E : Nat.iter 1 (fun v => wrap_around hi (add v 1)) hi = 0).
  { cbn [Nat.iter nat_rect]. rewrite add_id by (apply small_is_int; lia). unfold wrap_around.
    destruct (Z.gtb_spec (hi + 1) hi); [reflexivity|lia]. }
  rewrite E, (wrap_up_steps hi (Z.to_nat v) 0) by lia. lia.
Qed.

Lemma wrap_down_period hi v :
  0 <= v <= hi -> hi < 2 ^ 62 ->
  Nat.iter (Z.to_nat (hi + 1)) (fun v => wrap_around hi (add v (-1))) v = v.
Proof.
  intros Hv Hhi.
  replace (Z.to_nat (hi + 1)) with (Z.to_nat (hi - v) + (1 + Z.to_nat v))%nat by lia.
  rewrite iter_add, iter_add.
  rewrite (wrap_down_steps hi (Z.to_nat v) v) by lia.
  replace (v - Z.of_nat (Z.to_nat v)) with 0 by lia.
  assert (E : Nat.iter 1 (fun v => wrap_around hi (add v (-1))) 0 = hi).
  { cbn [Nat.iter nat_rect]. rewrite add_id by (apply small_is_int; lia). unfold wrap_around.
    destruct (Z.gtb_spec (0 + -1) hi); [lia|].
    destruct (Z.ltb_spec (0 + -1) 0); [reflexivity|lia]. }
  rewrite E, (wrap_down_steps hi (Z.to_nat (hi - v)) hi) by lia. lia.
Qed.

Lemma Star_iter_horizontal d k s :
  0 <= Starfield.y s <= 480 ->
  Nat.iter k (fun s => Starfield.Star_MoveBy s d 0) s
  = Starfield.mkStar
      (Nat.iter k (fun v => wrap_around 640 (add v d)) (Starfield.x s))
      (Starfield.y s) (Starfield.radius s) (Starfield.img s).
Proof.
  intros Hy. induction k as [|k IH]; [now destruct s|].
  rewrite Nat.iter_succ, IH, Star_MoveBy_eq.
  cbn [Starfield.x Starfield.y Starfield.radius Starfield.img].
  f_equal. rewrite add_0_r_small by lia. unfold wrap_around.
  destruct (Z.gtb_spec (Starfield.y s) 480); [lia|].
  destruct (Z.ltb_spec (Starfield.y s) 0); [lia|reflexivity].
Qed.

Lemma Starfield_direction_step k d i g :
  (k, d) = (ebiten.KeyRight, 1) \/ (k, d) = (ebiten.KeyLeft, -1) ->
  direction_frame k i ->
  Starfield.Game_Update i g
  = Ok (Starfield.mkGame (Starfield.fullscreen g)
          (map (fun s => Starfield.Star_MoveBy s (mul d Starfield.translateNear) 0)
             (Starfield.nearStars g))
          (map (fun s => Starfield.Star_MoveBy s d 0) (Starfield.farStars g)), None).
Proof.
  intros [[= -> ->]|[= -> ->]] (Hk & Hf & Ho); unfold Starfield.Game_Update;
    rewrite Hk, Hf, !Ho by discriminate; reflexivity.
Qed.

Lemma Starfield_direction_run k d frames :
  (k, d) = (ebiten.KeyRight, 1) \/ (k, d) = (ebiten.KeyLeft, -1) ->
  Forall (direction_frame k) frames ->
  forall g,
    ebiten.RunGame Starfield.Game_Update Starfield.Game_Draw frames g
    = Ok (Starfield.mkGame (Starfield.fullscreen g)
            (map (Nat.iter (length frames)
                    (fun s => Starfield.Star_MoveBy s (mul d Starfield.translateNear) 0))
               (Starfield.nearStars g))
            (map (Nat.iter (length frames) (fun s => Starfield.Star_MoveBy s d 0))
               (Starfield.farStars g)), None).
Proof.
  intros Hkd Hf. induction Hf as [|i rest Hi _ IH]; intros g.
  - cbn [ebiten.RunGame length Nat.iter nat_rect]. rewrite !map_id. now destruct g.
  - cbn [ebiten.RunGame]. rewrite (Starfield_direction_step k d i g Hkd Hi).
    cbn [mbind result_bind snd fst Starfield.Game_Draw]. rewrite IH.
    cbn [Starfield.fullscreen Starfield.nearStars Starfield.farStars].
    rewrite !map_map. do 3 f_equal.
    + apply map_ext. intros s. cbn [length]. now rewrite iter_succ_r.
    + apply map_ext. intros s. cbn [length]. now rewrite iter_succ_r.
Qed.

(** X9.  Scrolling starfield all the way round brings the far layer back:
    after 641 consecutive frames in which only Right (or only Left) acts,
    every far star that was within 0..640 by 0..480 is where it started,
    and [Update] has returned [nil] throughout.  (Far stars move by one
    pixel per frame and re-enter at the opposite edge.) *)
Theorem far_stars_return_after_full_scroll (k : ebiten.Key) (frames : list ebiten.Input)
  (g : Starfield.Game) :
  k = ebiten.KeyRight \/ k = ebiten.KeyLeft ->
  Forall (direction_frame k) frames ->
  length frames = 641%nat ->
  Forall (fun s => on_screen (Starfield.x s) (Starfield.y s)) (Starfield.farStars g) ->
  exists g',
    ebiten.RunGame Starfield.Game_Update Starfield.Game_Draw frames g = Ok (g', None) /\
    Starfield.farStars g' = Starfield.farStars g.
Proof.
  intros Hk Hf Hlen Hon.
  assert (Hkd : exists d,
             ((k, d) = (ebiten.KeyRight, 1) \/ (k, d) = (ebiten.KeyLeft, -1)) /\
             forall v, 0 <= v <= 640 ->
               Nat.iter 641 (fun v => wrap_around 640 (add v d)) v = v).
  { destruct Hk as [->| ->].
    - exists 1. split; [now left|]. intros v Hv.
      apply (wrap_up_period 640 v Hv). lia.
    - exists (-1). split; [now right|]. intros v Hv.
      apply (wrap_down_period 640 v Hv). lia. }
  destruct Hkd as (d & Hkd & Hper).
  eexists. split; [apply (Starfield_direction_run k d frames Hkd Hf)|].
  cbn [Starfield.farStars]. rewrite Hlen.
  rewrite <- (map_id (Starfield.farStars g)) at 2.
  apply map_ext_in. intros s Hs.
  rewrite Forall_forall in Hon. apply list_elem_of_In in Hs.
  destruct (Hon s Hs) as [Hx Hy].
  rewrite Star_iter_horizontal by exact Hy. rewrite Hper by exact Hx. now destruct s.
Qed.

Lemma far_stars_return_after_full_scroll_witness :
  exists g',
    ebiten.RunGame Starfield.Game_Update Starfield.Game_Draw
      (replicate 641 (pressing ebiten.KeyRight))
      (Starfield.mkGame false [] [Starfield.mkStar 17 5 3 (solid 6 6)])
    = Ok (g', None) /\
    Starfield.farStars g' = [Starfield.mkStar 17 5 3 (solid 6 6)].
Proof.
  apply (far_stars_return_after_full_scroll ebiten.KeyRight
           (replicate 641 (pressing ebiten.KeyRight))
           (Starfield.mkGame false [] [Starfield.mkStar 17 5 3 (solid 6 6)])).
  - now left.
  - apply Forall_replicate. repeat split; try reflexivity.
    intros k' Hk'. apply bool_decide_eq_false. exact Hk'.
  - apply length_replicate.
  - repeat constructor; simpl; lia.
Defined.

(** ** [genPolygon] outside the range of the fan *)

Lemma Fan_genPolygon_zero_sides cr cg cb ca radius :
  Fan.genPolygon cr cg cb ca radius 0 = Ok ([Fan.centerVertex cr cg cb ca radius], []).
Proof. reflexivity. Qed.

Lemma Fan_genPolygon_negative cr cg cb ca radius num :
  int_min <= num < 0 -> exists p, Fan.genPolygon cr cg cb ca radius num = Panic p.
Proof.
  intros Hn. unfold Fan.genPolygon, Fan.vertices.
  rewrite add_id by (unfold is_int, int_min, int_max in *; lia).
  destruct (Z.eq_dec num (-1)) as [->|Hne]; [eexists; reflexivity|].
  rewrite make_panics by lia. eexists. reflexivity.
Qed.

Lemma Fan_genPolygon_too_long cr cg cb ca radius num :
  2 ^ 43 <= num <= int_max ->
  Fan.genPolygon cr cg cb ca radius num = Panic MakeLenOutOfRange.
Proof.
  intros Hn. unfold Fan.genPolygon, Fan.vertices.
  destruct (Z.eq_dec num int_max) as [->|Hne]; [reflexivity|].
  rewrite add_id by (unfold is_int, int_min, int_max in *; lia).
  rewrite make_panics by (unfold Fan.Vertex_size, maxAlloc; lia). reflexivity.
Qed.

Lemma Fan_genPolygon_divides_by_zero cr cg cb ca radius num :
  0 < num < 2 ^ 43 -> uint16 num = 0 ->
  Fan.genPolygon cr cg cb ca radius num = Panic DivideByZero.
Proof.
  intros Hn Hu.
  destruct (Fan_vertices_ok cr cg cb ca radius num) as (vs & Ev & _); [lia|].
  unfold Fan.genPolygon. rewrite Ev. cbn [mbind result_bind].
  unfold Fan.fanIndices, for_lt.
  replace (Z.to_nat num) with (S (Z.to_nat (num - 1))) by lia.
  cbn [for_from]. unfold Fan.appendTriangle. rewrite Hu. reflexivity.
Qed.

Lemma Fan_genPolygon_wraps cr cg cb ca radius num :
  0 < num < 2 ^ 43 -> uint16 num <> 0 ->
  exists vs indices,
    Fan.genPolygon cr cg cb ca radius num = Ok (vs, indices) /\
    len vs = num + 1 /\ len indices = 3 * num /\
    forall i, 0 <= i < num -> indices !! Z.to_nat (3 * i + 2) = Some (uint16 num).
Proof.
  intros Hn Hu.
  destruct (Fan_vertices_ok cr cg cb ca radius num) as (vs & Ev & Hl & _); [lia|].
  destruct (for_from_appendTriangle num (Z.to_nat num) 0 [] Hu) as (tail & E & Hlt & Ht).
  exists vs, tail. unfold Fan.genPolygon, Fan.fanIndices, for_lt.
  change (Z.of_nat 0) with 0 in E. rewrite Ev. cbn [mbind result_bind].
  rewrite E. cbn [mbind result_bind app].
  split; [reflexivity|]. split; [exact Hl|]. split; [unfold len; lia|].
  intros i Hi. destruct (Ht (Z.to_nat i) ltac:(lia)) as (_ & _ & H2).
  replace (Z.to_nat (3 * i + 2)) with (3 * Z.to_nat i + 2)%nat by lia. exact H2.
Qed.

(** X10.  [genPolygon] outside 1..65535 sides (both variants: the colour
    components are arbitrary).  With 0 sides it returns the centre vertex
    alone and no index.  With a negative number of sides it panics (the
    [make] of a negative length, or the store at index -1 when [num] is
    -1).  From [2^43] sides on it panics in [make]: [num + 1] vertices of
    32 bytes exceed the largest allocation.  Below that, a positive
    multiple of 65536 panics on the division by [uint16(num)], and any
    other number of sides above 65536 gives [num + 1] vertices and
    [3 * num] indices in which the third index of every triangle is
    [num mod 65536], not the index [num] of the centre vertex: the
    result is not a fan. *)
Theorem genPolygon_outside_fan_range (cr cg cb ca : float) (radius num : Z) :
  (num = 0 ->
   Fan.genPolygon cr cg cb ca radius num
   = Ok ([Fan.centerVertex cr cg cb ca radius], [])) /\
  (int_min <= num < 0 -> exists p, Fan.genPolygon cr cg cb ca radius num = Panic p) /\
  (2 ^ 43 <= num <= int_max ->
   Fan.genPolygon cr cg cb ca radius num = Panic MakeLenOutOfRange) /\
  (0 < num < 2 ^ 43 -> uint16 num = 0 ->
   Fan.genPolygon cr cg cb ca radius num = Panic DivideByZero) /\
  (65536 < num < 2 ^ 43 -> uint16 num <> 0 ->
   exists vs indices,
     Fan.genPolygon cr cg cb ca radius num = Ok (vs, indices) /\
     len vs = num + 1 /\ len indices = 3 * num /\
     (forall i, 0 <= i < num ->
        exists c, indices !! Z.to_nat (3 * i + 2) = Some c /\ 0 < c < 65536) /\
     ~ is_fan radius num vs indices).
Proof.
  split; [intros ->; apply Fan_genPolygon_zero_sides|].
  split; [apply Fan_genPolygon_negative|].
  split; [apply Fan_genPolygon_too_long|].
  split; [apply Fan_genPolygon_divides_by_zero|].
  intros Hn Hu.
  destruct (Fan_genPolygon_wraps cr cg cb ca radius num ltac:(lia) Hu)
    as (vs & indices & E & Hl & Hli & Hc).
  exists vs, indices. split; [exact E|]. split; [exact Hl|]. split; [exact Hli|].
  assert (Hb : 0 < uint16 num < 65536).
  { unfold uint16 in *. pose proof (Z.mod_pos_bound num (2 ^ 16) ltac:(lia)). lia. }
  split.
  - intros i Hi. exists (uint16 num). split; [now apply Hc|exact Hb].
  - intros (_ & _ & _ & _ & Hfan).
    destruct (Hfan 0 ltac:(lia)) as (_ & _ & H2).
    rewrite (Hc 0 ltac:(lia)) in H2. injection H2 as H2. lia.
Qed.

Lemma genPolygon_outside_fan_range_witness :
  PolygonMaking.genPolygon 20 131072 = Panic DivideByZero /\
  (exists p, PolygonMaking.genPolygon 20 (-1) = Panic p) /\
  PolygonMaking.genPolygon 20 (2 ^ 60 + 1) = Panic MakeLenOutOfRange /\
  exists vs indices,
    PolygonMaking.genPolygon 20 65541 = Ok (vs, indices) /\
    len vs = 65541 + 1 /\ len indices = 3 * 65541 /\
    (forall i, 0 <= i < 65541 ->
       exists c, indices !! Z.to_nat (3 * i + 2) = Some c /\ 0 < c < 65536) /\
    ~ is_fan 20 65541 vs indices.
Proof.
  rewrite !PolygonMaking_genPolygon_eq.
  pose proof (genPolygon_outside_fan_range (Fconst 1) (Fconst 1) (Fconst 1) (Fconst 1)
                20 131072) as (_ & _ & _ & H3 & _).
  pose proof (genPolygon_outside_fan_range (Fconst 1) (Fconst 1) (Fconst 1) (Fconst 1)
                20 (-1)) as (_ & H2 & _).
  pose proof (genPolygon_outside_fan_range (Fconst 1) (Fconst 1) (Fconst 1) (Fconst 1)
                20 (2 ^ 60 + 1)) as (_ & _ & H5 & _).
  pose proof (genPolygon_outside_fan_range (Fconst 1) (Fconst 1) (Fconst 1) (Fconst 1)
                20 65541) as (_ & _ & _ & _ & H4).
  split; [apply H3; [lia|reflexivity]|].
  split; [apply H2; unfold int_min; lia|].
  split; [apply H5; unfold int_max; lia|].
  apply H4; [lia|]. unfold uint16. discriminate.
Defined.

(** X11.  For 1 to 65535 sides every index that [genPolygon] returns is
    the position of a vertex it returns, so the triangles handed to
    [DrawTriangles] never point outside the vertex slice; and there are
    at most 65536 vertices, as many as [uint16] indices can address. *)
Theorem genPolygon_indices_address_vertices (cr cg cb ca : float) (radius num : Z) :
  1 <= num <= 65535 ->
  exists vs indices,
    Fan.genPolygon cr cg cb ca radius num = Ok (vs, indices) /\
    Forall (fun k => 0 <= k < len vs) indices /\
    len vs <= 65536.
Proof.
  intros Hn.
  destruct (Fan_genPolygon_is_fan cr cg cb ca radius num Hn)
    as (vs & indices & E & Hl & _ & _ & Hli & Hidx).
  exists vs, indices. split; [exact E|]. split; [|lia].
  apply Forall_lookup. intros p k Hp.
  pose proof (lookup_lt_Some _ _ _ Hp) as Hlt. unfold len in Hli.
  pose proof (Z.div_mod (Z.of_nat p) 3 ltac:(lia)) as Hdm.
  pose proof (Z.mod_pos_bound (Z.of_nat p) 3 ltac:(lia)) as Hr.
  pose proof (Z.mod_pos_bound (Z.of_nat p / 3 + 1) num ltac:(lia)) as Hm.
  destruct (Hidx (Z.of_nat p / 3) ltac:(lia)) as (H0 & H1 & H2).
  assert (Hcase : Z.of_nat p mod 3 = 0 \/ Z.of_nat p mod 3 = 1 \/ Z.of_nat p mod 3 = 2)
    by lia.
  destruct Hcase as [Hc|[Hc|Hc]].
  - replace (Z.to_nat (3 * (Z.of_nat p / 3))) with p in H0 by lia.
    rewrite Hp in H0. injection H0 as ->. lia.
  - replace (Z.to_nat (3 * (Z.of_nat p / 3) + 1)) with p in H1 by lia.
    rewrite Hp in H1. injection H1 as ->. lia.
  - replace (Z.to_nat (3 * (Z.of_nat p / 3) + 2)) with p in H2 by lia.
    rewrite Hp in H2. injection H2 as ->. lia.
Qed.

Lemma genPolygon_indices_address_vertices_witness :
  exists vs indices,
    Polygons.genPolygon 20 8 (color.mkRGBA 0 255 0 255) = Ok (vs, indices) /\
    Forall (fun k => 0 <= k < len vs) indices /\
    len vs <= 65536.
Proof.
  unfold Polygons.genPolygon.
  apply (genPolygon_indices_address_vertices _ _ _ _ 20 8). lia.
Defined.

(** ** Colour scaling *)

Lemma inject_Z_nonzero a : a <> 0 -> Qeq_bool (inject_Z a) 0 = false.
Proof.
  intros Ha. destruct (Qeq_bool (inject_Z a) 0) eqn:E; [|reflexivity].
  apply Qeq_bool_iff in E. unfold Qeq, inject_Z in E. simpl in E. lia.
Qed.

Lemma ratio_denotes r a :
  a <> 0 ->
  denotes (Fdiv (F64_of_int r) (F64_of_int a)) (Qdiv (inject_Z r) (inject_Z a)).
Proof.
  intros Ha. eexists. split; [|reflexivity].
  cbn [Fvalue mbind option_bind]. now rewrite inject_Z_nonzero.
Qed.

Lemma ratio_unit r a :
  0 <= r <= a -> 0 < a ->
  Qle 0 (Qdiv (inject_Z r) (inject_Z a)) /\ Qle (Qdiv (inject_Z r) (inject_Z a)) 1.
Proof.
  intros Hr Ha.
  assert (Hpos : Qlt 0 (inject_Z a)) by (unfold Qlt, inject_Z; simpl; lia).
  split.
  - apply Qle_shift_div_l; [exact Hpos|]. rewrite Qmult_0_l.
    unfold Qle, inject_Z. simpl. lia.
  - apply Qle_shift_div_r; [exact Hpos|]. rewrite Qmult_1_l.
    rewrite <- Zle_Qle. lia.
Qed.

(** X12.  [colorScale] turns the alpha-premultiplied 16-bit components
    [(r, g, b, a)] of a colour into the four factors handed to
    [ColorM.Scale].  It never divides by zero: for alpha 0 it returns four
    zeros without dividing, otherwise the quotients of [r], [g] and [b] by
    [a] and of [a] by 65535.  For every colour that keeps the
    premultiplication contract ([0 <= r, g, b <= a <= 65535]) each
    quotient lies between 0 and 1. *)
Theorem colorScale_factors (clr : color.Color) (r g b a : Z) :
  Color_RGBA clr = (r, g, b, a) ->
  0 <= r <= a -> 0 <= g <= a -> 0 <= b <= a -> a <= 65535 ->
  (a = 0 -> colorScale clr = (Fconst 0, Fconst 0, Fconst 0, Fconst 0)) /\
  (a <> 0 ->
   colorScale clr
   = (Fdiv (F64_of_int r) (F64_of_int a), Fdiv (F64_of_int g) (F64_of_int a),
      Fdiv (F64_of_int b) (F64_of_int a), Fdiv (F64_of_int a) (Fconst 65535))) /\
  let '(rf, gf, bf, af) := colorScale clr in
  exists qr qg qb qa,
    (denotes rf qr /\ denotes gf qg /\ denotes bf qb /\ denotes af qa) /\
    (Qle 0 qr /\ Qle qr 1) /\ (Qle 0 qg /\ Qle qg 1) /\
    (Qle 0 qb /\ Qle qb 1) /\ (Qle 0 qa /\ Qle qa 1).
Proof.
  intros E Hr Hg Hb Ha. unfold colorScale. rewrite E.
  destruct (Z.eqb_spec a 0) as [->|Hne].
  - split; [reflexivity|]. split; [intros H; now contradiction H|].
    exists 0%Q, 0%Q, 0%Q, 0%Q.
    split; [repeat split; eexists; (split; [reflexivity|reflexivity])|].
    repeat split; apply Qle_refl || discriminate.
  - split; [intros ->; contradiction|]. split; [reflexivity|].
    exists (Qdiv (inject_Z r) (inject_Z a)), (Qdiv (inject_Z g) (inject_Z a)),
      (Qdiv (inject_Z b) (inject_Z a)), (Qdiv (inject_Z a) (inject_Z 65535)).
    split.
    { split; [now apply ratio_denotes|]. split; [now apply ratio_denotes|].
      split; [now apply ratio_denotes|]. eexists. split; [reflexivity|reflexivity]. }
    split; [apply ratio_unit; lia|]. split; [apply ratio_unit; lia|].
    split; [apply ratio_unit; lia|]. apply ratio_unit; lia.
Qed.

Lemma colorScale_factors_witness :
  colorScale (color.OfRGBA (color.mkRGBA 128 64 0 128))
  = (Fdiv (F64_of_int 32896) (F64_of_int 32896),
     Fdiv (F64_of_int 16448) (F64_of_int 32896),
     Fdiv (F64_of_int 0) (F64_of_int 32896),
     Fdiv (F64_of_int 32896) (Fconst 65535)).
Proof.
  apply (proj1 (proj2 (colorScale_factors (color.OfRGBA (color.mkRGBA 128 64 0 128))
                         32896 16448 0 32896 eq_refl
                         ltac:(lia) ltac:(lia) ltac:(lia) ltac:(lia)))).
  discriminate.
Defined.

(** ** What is clicked is what is seen *)

Lemma topmost_painted_on_top {A : Type} (hit : A -> bool) (draw : A -> ebiten.DrawCall)
  (s : list A) (cx cy prev : Z) :
  (forall a, a ∈ s -> hit a = true <-> opaque_on_screen (draw a) cx cy) ->
  painted_on_top (map draw s)
    (match topmost hit s (length s) with Some k => Z.of_nat k | None => prev end) cx cy \/
  (nothing_painted (map draw s) cx cy /\
   match topmost hit s (length s) with Some k => Z.of_nat k | None => prev end = prev).
Proof.
  intros Hd. pose proof (topmost_is_topmost hit s) as H.
  destruct (topmost hit s (length s)) as [k|].
  - left. destruct H as [(H0 & (a & Ha & Hhit) & Habove) _].
    split; [exact H0|]. split.
    + exists (draw a). rewrite list_lookup_fmap, Ha. split; [reflexivity|].
      apply Hd; [|exact Hhit]. eapply list_elem_of_lookup_2. exact Ha.
    + intros j c Hj Hc. rewrite list_lookup_fmap in Hc.
      destruct (s !! Z.to_nat j) as [b|] eqn:Hb; [|discriminate Hc].
      injection Hc as <-. intros Hop.
      apply Hd in Hop; [|eapply list_elem_of_lookup_2; exact Hb].
      rewrite (Habove j b Hj Hb) in Hop. discriminate Hop.
  - right. split; [|reflexivity]. intros j c Hc. rewrite list_lookup_fmap in Hc.
    destruct (s !! j) as [b|] eqn:Hb; [|discriminate Hc].
    injection Hc as <-. intros Hop.
    apply Hd in Hop; [|eapply list_elem_of_lookup_2; exact Hb].
    rewrite (H j b Hb) in Hop. discriminate Hop.
Qed.

(** X13.  What a click selects is what is seen under the cursor.  In
    basic-input and polygon-making, after an [Update] of a frame with a
    left click at [(cx, cy)], [Draw] paints the entities in slice order
    after the debug text, and the new active index is the position of the
    last draw call that shows an opaque pixel at the cursor; when no call
    shows one there, the index is the one the keys of the frame left.
    (Sprites at positions exact in [float64]; polygons unrotated, as
    [In] ignores the rotation.) *)
Theorem clicked_entity_is_painted_on_top (i : ebiten.Input) (cx cy : Z) :
  ebiten.CursorPosition i = (cx, cy) -> exact_int cx -> exact_int cy ->
  ebiten.IsMouseButtonJustPressed i ebiten.MouseButtonLeft = true ->
  (forall g g' e,
     BasicInput_valid g -> BasicInput.Game_Update i g = Ok (g', e) ->
     Forall Sprite_exact (BasicInput.s g') ->
     exists msg calls,
       BasicInput.Game_Draw g' = Ok (ebiten.DebugPrint msg :: calls) /\
       length calls = length (BasicInput.s g') /\
       (painted_on_top calls (BasicInput.activeSprite g') cx cy \/
        (nothing_painted calls cx cy /\
         BasicInput.activeSprite g' = BasicInput.activeSprite g))) /\
  (forall g g' e,
     PolygonMaking_valid g -> PolygonMaking.Game_Update i g = Ok (g', e) ->
     Forall Polygon_exact (PolygonMaking.p g') ->
     exists msg calls,
       PolygonMaking.Game_Draw g' = Ok (ebiten.DebugPrint msg :: calls) /\
       length calls = length (PolygonMaking.p g') /\
       (painted_on_top calls (PolygonMaking.activePolygon g') cx cy \/
        (nothing_painted calls cx cy /\
         PolygonMaking.activePolygon g'
         = if ebiten.IsKeyJustPressed i ebiten.KeySpace
           then rem (add (PolygonMaking.activePolygon g) 1) (len (PolygonMaking.p g))
           else PolygonMaking.activePolygon g))).
Proof.
  intros Hcur Hcx Hcy Hclick. split.
  - intros g g' e Hv E Hex.
    destruct (BasicInput_Update_spec i g (valid_index_in_range _ _ Hv))
      as (g1 & E1 & _ & _ & Ha).
    rewrite E in E1. injection E1 as Hg _. subst g1.
    destruct (BasicInput_Update_valid i g Hv) as (g2 & E2 & Hv2 & _).
    rewrite E in E2. injection E2 as Hg _. subst g2.
    destruct (index_ok _ _ (valid_index_in_range _ _ Hv2)) as (a & Ea & _).
    unfold BasicInput.Game_Draw. rewrite Ea. cbn [mbind result_bind].
    eexists. eexists. split; [reflexivity|]. split; [apply length_map|].
    rewrite Ha, Hclick, Hcur. cbn [fst snd].
    apply topmost_painted_on_top. intros sp Hsp.
    rewrite Forall_forall in Hex. destruct (Hex sp Hsp) as [Hx Hy].
    now apply Sprite_In_drawn.
  - intros g g' e Hv E Hex.
    destruct (PolygonMaking_Update_spec i g (valid_index_in_range _ _ Hv))
      as (g1 & E1 & _ & _ & Ha).
    rewrite E in E1. injection E1 as Hg _. subst g1.
    destruct (PolygonMaking_Update_valid i g Hv) as (g2 & E2 & Hv2 & _).
    rewrite E in E2. injection E2 as Hg _. subst g2.
    destruct (index_ok _ _ (valid_index_in_range _ _ Hv2)) as (a & Ea & _).
    unfold PolygonMaking.Game_Draw. rewrite Ea. cbn [mbind result_bind].
    eexists. eexists. split; [reflexivity|]. split; [apply length_map|].
    rewrite Ha. cbv zeta. rewrite Hclick, Hcur. cbn [fst snd].
    apply topmost_painted_on_top. intros q Hq.
    rewrite Forall_forall in Hex. destruct (Hex q Hq) as (Ht & Hs & Hx & Hy & Hr).
    now apply Polygon_In_drawn.
Qed.

Lemma clicked_entity_is_painted_on_top_witness :
  exists msg calls,
    BasicInput.Game_Draw
      (BasicInput.mkGame
         [BasicInput.mkSprite "0" (solid 64 64) 0 0;
          BasicInput.mkSprite "1" (solid 64 64) 50 50] 1)
    = Ok (ebiten.DebugPrint msg :: calls) /\
    length calls = 2%nat /\
    (painted_on_top calls 1 60 60 \/ (nothing_painted calls 60 60 /\ 1 = 0)).
Proof.
  apply (proj1 (clicked_entity_is_painted_on_top
                  (clicking ebiten.MouseButtonLeft (60, 60)) 60 60 eq_refl
                  ltac:(unfold exact_int; lia) ltac:(unfold exact_int; lia) eq_refl)
           (BasicInput.mkGame
              [BasicInput.mkSprite "0" (solid 64 64) 0 0;
               BasicInput.mkSprite "1" (solid 64 64) 50 50] 0)
           (BasicInput.mkGame
              [BasicInput.mkSprite "0" (solid 64 64) 0 0;
               BasicInput.mkSprite "1" (solid 64 64) 50 50] 1)
           None).
  - split; [unfold len; simpl; lia|]. vm_compute. discriminate.
  - vm_compute. reflexivity.
  - repeat constructor; unfold exact_int; simpl; lia.
Defined.

(** ** Where the entities start *)

Lemma mapM_ok_map {A B : Type} (f : A -> result B) (g : A -> B) (l : list A) :
  (forall x, x ∈ l -> f x = Ok (g x)) -> mapM f l = Ok (map g l).
Proof.
  induction l as [|a l IH]; intros H; [reflexivity|].
  cbn [mapM map]. rewrite (H a) by left. cbn [mbind result_bind].
  rewrite IH by (intros x Hx; apply H; now right). reflexivity.
Qed.

(** The closed form of the loops of [init] and [initStarfield]: entity
    [k] is built from the [k]-th entries of the two slices. *)
Lemma paired_eq {B : Type} (xs ys : list Z) (n : Z) (f : nat -> Z -> Z -> B) :
  0 <= n <= len xs -> 0 <= n <= len ys ->
  mapM (fun ix => yv ← index (take (Z.to_nat n) ys) (Z.of_nat (fst ix));
                  Ok (f (fst ix) (snd ix) yv))
    (imap pair (take (Z.to_nat n) xs))
  = Ok (imap (fun k x => f k x (default 0 (ys !! k))) (take (Z.to_nat n) xs)).
Proof.
  intros Hx Hy. unfold len in *.
  rewrite (mapM_ok_map _ (fun ix => f (fst ix) (snd ix) (default 0 (ys !! fst ix)))).
  - now rewrite fmap_imap.
  - intros [i x] Hin. apply elem_of_lookup_imap in Hin.
    destruct Hin as (j & x' & [= -> ->] & Hj). apply lookup_lt_Some in Hj.
    rewrite length_take in Hj. cbn [fst snd].
    destruct (index_ok (take (Z.to_nat n) ys) (Z.of_nat j)) as (yv & Ey & Hl).
    + apply in_range_spec. unfold len. rewrite length_take. lia.
    + rewrite Ey. cbn [mbind result_bind]. rewrite Nat2Z.id in Hl.
      rewrite lookup_take_lt in Hl by lia. now rewrite Hl.
Qed.

Lemma imap_first_coordinate {B : Type} (g : B -> Z) (f : nat -> Z -> B) (l : list Z) :
  (forall k x, g (f k x) = x) -> map g (imap f l) = l.
Proof.
  intros H. rewrite fmap_imap. apply list_eq. intros k.
  rewrite list_lookup_imap. destruct (l !! k) as [x|]; [|reflexivity].
  cbn. now rewrite H.
Qed.

Lemma imap_second_coordinate {B : Type} (g : B -> Z) (f : nat -> Z -> B)
  (xs ys : list Z) (n : nat) :
  (n <= length xs)%nat -> (n <= length ys)%nat ->
  (forall k x, g (f k x) = default 0 (ys !! k)) ->
  map g (imap f (take n xs)) = take n ys.
Proof.
  intros Hx Hy H. rewrite fmap_imap. apply list_eq. intros k.
  rewrite list_lookup_imap. destruct (decide (k < n)%nat) as [Hk|Hk].
  - rewrite !lookup_take_lt by exact Hk.
    destruct (lookup_lt_is_Some_2 xs k ltac:(lia)) as [x Ex].
    destruct (lookup_lt_is_Some_2 ys k ltac:(lia)) as [y Ey].
    rewrite Ex, Ey. cbn. now rewrite H, Ey.
  - rewrite !lookup_take_ge by lia. reflexivity.
Qed.

Lemma ConnectLines_init_eq pix permW permH g :
  50 <= len permW -> 50 <= len permH ->
  ConnectLines.init pix permW permH g
  = Ok (ConnectLines.mkGame (ConnectLines.fullscreen g)
          (imap (fun k x => ConnectLines.NewBlock pix (Z.of_nat k) x
                              (default 0 (permH !! k)) 3 color.White)
             (take 50 permW))
          (ConnectLines.connections g) (ConnectLines.selected g)).
Proof.
  intros HW HH. unfold ConnectLines.init, ConnectLines.blocks_count.
  rewrite !slice_to_ok by lia. cbn [mbind result_bind].
  rewrite (paired_eq permW permH 50
             (fun k x yv => ConnectLines.NewBlock pix (Z.of_nat k) x yv 3 color.White))
    by lia.
  reflexivity.
Qed.

Lemma Starfield_layer_eq pix permW permH n clr :
  0 <= n <= len permW -> 0 <= n <= len permH ->
  Starfield.layer pix permW permH n clr
  = Ok (imap (fun k x => Starfield.NewStar pix x (default 0 (permH !! k)) 3 clr)
          (take (Z.to_nat n) permW)).
Proof.
  intros HW HH. unfold Starfield.layer. rewrite !slice_to_ok by lia.
  cbn [mbind result_bind].
  now rewrite (paired_eq permW permH n (fun _ x yv => Starfield.NewStar pix x yv 3 clr)).
Qed.

(** X14.  Where the entities start.  [init] of connect-lines turns the
    first 50 entries of the two random permutations into 50 blocks:
    block [k] has id [k], size 3 and sits at [(permW[k], permH[k])]; as a
    permutation has no repeated entry, no two blocks start in the same
    column or in the same row, and when the entries are below 640 and
    480 every block starts at a point of the screen.  When a permutation
    has fewer than 50 entries the slice expression panics. *)
Theorem init_places_blocks_at_permuted_positions (pix : Z -> ebiten.Image)
  (permW permH : list Z) (g : ConnectLines.Game) :
  (50 <= len permW -> 50 <= len permH ->
   exists g',
     ConnectLines.init pix permW permH g = Ok g' /\
     map ConnectLines.x (ConnectLines.blocks g') = take 50 permW /\
     map ConnectLines.y (ConnectLines.blocks g') = take 50 permH /\
     (forall k b, ConnectLines.blocks g' !! k = Some b ->
        ConnectLines.id b = Itoa (Z.of_nat k) /\ ConnectLines.size b = 3) /\
     (NoDup permW -> NoDup (map ConnectLines.x (ConnectLines.blocks g'))) /\
     (NoDup permH -> NoDup (map ConnectLines.y (ConnectLines.blocks g'))) /\
     (Forall (fun v => 0 <= v < 640) permW -> Forall (fun v => 0 <= v < 480) permH ->
      Forall (fun b => screen_pixel (ConnectLines.x b) (ConnectLines.y b))
        (ConnectLines.blocks g')) /\
     ConnectLines.connections g' = ConnectLines.connections g /\
     ConnectLines.selected g' = ConnectLines.selected g) /\
  (len permW < 50 \/ len permH < 50 ->
   ConnectLines.init pix permW permH g = Panic IndexOutOfRange).
Proof.
  split.
  - intros HW HH. rewrite ConnectLines_init_eq by assumption.
    eexists. split; [reflexivity|]. cbn [ConnectLines.blocks].
    assert (Ex : map ConnectLines.x
                   (imap (fun k x => ConnectLines.NewBlock pix (Z.of_nat k) x
                                       (default 0 (permH !! k)) 3 color.White)
                      (take 50 permW)) = take 50 permW)
      by (apply imap_first_coordinate; reflexivity).
    assert (Ey : map ConnectLines.y
                   (imap (fun k x => ConnectLines.NewBlock pix (Z.of_nat k) x
                                       (default 0 (permH !! k)) 3 color.White)
                      (take 50 permW)) = take 50 permH)
      by (apply imap_second_coordinate; unfold len in *; (lia || reflexivity)).
    split; [exact Ex|]. split; [exact Ey|]. split.
    { intros k b Hb. apply list_lookup_imap_Some in Hb.
      destruct Hb as (x & _ & ->). split; reflexivity. }
    split; [rewrite Ex; intros Hn; exact (sublist_NoDup _ _ Hn (sublist_take _ _))|].
    split; [rewrite Ey; intros Hn; exact (sublist_NoDup _ _ Hn (sublist_take _ _))|].
    split; [|split; reflexivity].
    intros FW FH. apply Forall_lookup. intros k b Hb.
    assert (Hbx : map ConnectLines.x
                    (imap (fun k x => ConnectLines.NewBlock pix (Z.of_nat k) x
                                        (default 0 (permH !! k)) 3 color.White)
                       (take 50 permW)) !! k = Some (ConnectLines.x b))
      by (rewrite list_lookup_fmap, Hb; reflexivity).
    assert (Hby : map ConnectLines.y
                    (imap (fun k x => ConnectLines.NewBlock pix (Z.of_nat k) x
                                        (default 0 (permH !! k)) 3 color.White)
                       (take 50 permW)) !! k = Some (ConnectLines.y b))
      by (rewrite list_lookup_fmap, Hb; reflexivity).
    rewrite Ex in Hbx. rewrite Ey in Hby.
    apply lookup_take_Some in Hbx, Hby. destruct Hbx as [Hbx _], Hby as [Hby _].
    split.
    + exact (proj1 (Forall_lookup _ _) FW k _ Hbx).
    + exact (proj1 (Forall_lookup _ _) FH k _ Hby).
  - intros H. unfold ConnectLines.init, ConnectLines.blocks_count, slice_to.
    destruct (Z.leb_spec 50 (len permW)) as [HW|HW]; [|reflexivity].
    destruct (Z.leb_spec 50 (len permH)) as [HH|HH]; [lia|reflexivity].
Qed.

Lemma init_places_blocks_at_permuted_positions_witness :
  exists g',
    ConnectLines.init (fun n => solid n n) (seqZ 0 640) (seqZ 0 480)
      (ConnectLines.mkGame false [] [] 0) = Ok g' /\
    map ConnectLines.x (ConnectLines.blocks g') = take 50 (seqZ 0 640) /\
    map ConnectLines.y (ConnectLines.blocks g') = take 50 (seqZ 0 480).
Proof.
  destruct (proj1 (init_places_blocks_at_permuted_positions (fun n => solid n n)
                     (seqZ 0 640) (seqZ 0 480) (ConnectLines.mkGame false [] [] 0)))
    as (g' & E & Ex & Ey & _).
  - unfold len. rewrite length_seqZ. lia.
  - unfold len. rewrite length_seqZ. lia.
  - exists g'. split; [exact E|]. split; [exact Ex|exact Ey].
Defined.

Lemma Star_moves_on_screen ds : forall s,
  on_screen (Starfield.x s) (Starfield.y s) ->
  on_screen (Starfield.x (moves Starfield.Star_MoveBy s ds))
    (Starfield.y (moves Starfield.Star_MoveBy s ds)).
Proof.
  unfold moves. induction ds as [|d ds IH]; intros s Hs; [exact Hs|].
  cbn [fold_left]. apply IH.
  destruct (Star_MoveBy_wraps s (fst d) (snd d)) as [-> ->].
  split; apply wrap_around_range; lia.
Qed.

Lemma Star_moves_radius ds : forall s,
  Starfield.radius (moves Starfield.Star_MoveBy s ds) = Starfield.radius s.
Proof.
  unfold moves. induction ds as [|d ds IH]; intros s; [reflexivity|].
  cbn [fold_left]. now rewrite IH.
Qed.

(** X15.  The stars start on the screen and never leave it.
    [initStarfield] makes 50 near stars from the first 50 entries of two
    permutations and 100 far stars from the first 100 entries of two
    more, star [k] at [(permW[k], permH[k])] with radius 3.  When the
    entries are screen coordinates, every run of frames from there
    succeeds and leaves 50 near and 100 far stars of radius 3, each still
    within 0..640 by 0..480. *)
Theorem stars_start_and_stay_on_screen (pix : Z -> color.Color -> ebiten.Image)
  (permW1 permH1 permW2 permH2 : list Z) (g : Starfield.Game)
  (frames : list ebiten.Input) :
  50 <= len permW1 -> 50 <= len permH1 -> 100 <= len permW2 -> 100 <= len permH2 ->
  Forall (fun v => 0 <= v < 640) permW1 -> Forall (fun v => 0 <= v < 480) permH1 ->
  Forall (fun v => 0 <= v < 640) permW2 -> Forall (fun v => 0 <= v < 480) permH2 ->
  exists g0,
    Starfield.initStarfield pix permW1 permH1 permW2 permH2 g = Ok g0 /\
    map Starfield.x (Starfield.nearStars g0) = take 50 permW1 /\
    map Starfield.y (Starfield.nearStars g0) = take 50 permH1 /\
    map Starfield.x (Starfield.farStars g0) = take 100 permW2 /\
    map Starfield.y (Starfield.farStars g0) = take 100 permH2 /\
    exists g' e,
      ebiten.RunGame Starfield.Game_Update Starfield.Game_Draw frames g0 = Ok (g', e) /\
      len (Starfield.nearStars g') = 50 /\ len (Starfield.farStars g') = 100 /\
      Forall (fun s => on_screen (Starfield.x s) (Starfield.y s) /\ Starfield.radius s = 3)
        (Starfield.nearStars g' ++ Starfield.farStars g').
Proof.
  intros HW1 HH1 HW2 HH2 FW1 FH1 FW2 FH2.
  unfold Starfield.initStarfield, Starfield.nearStars_count, Starfield.farStars_count.
  rewrite !Starfield_layer_eq by lia. cbn [mbind result_bind].
  eexists. split; [reflexivity|]. cbn [Starfield.nearStars Starfield.farStars].
  set (near := imap (fun k x => Starfield.NewStar pix x (default 0 (permH1 !! k)) 3
                                  color.White) (take (Z.to_nat 50) permW1)).
  set (far := imap (fun k x => Starfield.NewStar pix x (default 0 (permH2 !! k)) 3
                                 (color.OfRGBA (color.mkRGBA 255 255 255 128)))
                (take (Z.to_nat 100) permW2)).
  assert (Enx : map Starfield.x near = take 50 permW1)
    by (apply imap_first_coordinate; reflexivity).
  assert (Eny : map Starfield.y near = take 50 permH1)
    by (apply imap_second_coordinate; unfold len in *; (lia || reflexivity)).
  assert (Efx : map Starfield.x far = take 100 permW2)
    by (apply imap_first_coordinate; reflexivity).
  assert (Efy : map Starfield.y far = take 100 permH2)
    by (apply imap_second_coordinate; unfold len in *; (lia || reflexivity)).
  do 4 (split; [assumption|]).
  assert (Hstart : forall (stars : list Starfield.Star) pw ph n,
             map Starfield.x stars = take n pw -> map Starfield.y stars = take n ph ->
             Forall (fun v => 0 <= v < 640) pw -> Forall (fun v => 0 <= v < 480) ph ->
             Forall (fun s => on_screen (Starfield.x s) (Starfield.y s)) stars).
  { intros stars pw ph n Ex Ey Fw Fh. apply Forall_lookup. intros k s Hs.
    assert (Hx : map Starfield.x stars !! k = Some (Starfield.x s))
      by (rewrite list_lookup_fmap, Hs; reflexivity).
    assert (Hy : map Starfield.y stars !! k = Some (Starfield.y s))
      by (rewrite list_lookup_fmap, Hs; reflexivity).
    rewrite Ex in Hx. rewrite Ey in Hy.
    apply lookup_take_Some in Hx, Hy. destruct Hx as [Hx _], Hy as [Hy _].
    pose proof (proj1 (Forall_lookup _ _) Fw k _ Hx) as Bx.
    pose proof (proj1 (Forall_lookup _ _) Fh k _ Hy) as By.
    cbn beta in Bx, By. split; lia. }
  destruct (RunGame_invariant Starfield.Game_Update Starfield.Game_Draw
              (fun g => len (Starfield.nearStars g) = 50 /\
                        len (Starfield.farStars g) = 100 /\
                        Forall (fun s => on_screen (Starfield.x s) (Starfield.y s) /\
                                         Starfield.radius s = 3)
                          (Starfield.nearStars g ++ Starfield.farStars g)))
    with (frames := frames) (g := Starfield.mkGame (Starfield.fullscreen g) near far)
    as (g' & e & E & Hinv).
  - intros i g1 (Hn & Hf & Hall).
    destruct (Starfield_Update_moves i g1) as (fs & E).
    eexists. eexists. split; [exact E|].
    cbn [Starfield.nearStars Starfield.farStars]. unfold len in *.
    rewrite !length_map. split; [exact Hn|]. split; [exact Hf|].
    apply Forall_app in Hall. destruct Hall as [Hna Hfa].
    apply Forall_app. split.
    + apply Forall_fmap. eapply Forall_impl; [exact Hna|].
      intros s [Hs Hr]. cbn. split; [now apply Star_moves_on_screen|].
      now rewrite Star_moves_radius.
    + apply Forall_fmap. eapply Forall_impl; [exact Hfa|].
      intros s [Hs Hr]. cbn. split; [now apply Star_moves_on_screen|].
      now rewrite Star_moves_radius.
  - intros g1 _. apply Starfield_Draw_ok.
  - cbn [Starfield.nearStars Starfield.farStars]. unfold len.
    split; [subst near; rewrite length_imap, length_take; unfold len in *; lia|].
    split; [subst far; rewrite length_imap, length_take; unfold len in *; lia|].
    apply Forall_app. split.
    + apply Forall_lookup. intros k s Hs.
      pose proof (proj1 (Forall_lookup _ _)
                    (Hstart near permW1 permH1 50%nat Enx Eny FW1 FH1) k s Hs) as Hon.
      split; [exact Hon|]. subst near. apply list_lookup_imap_Some in Hs.
      destruct Hs as (x & _ & ->). reflexivity.
    + apply Forall_lookup. intros k s Hs.
      pose proof (proj1 (Forall_lookup _ _)
                    (Hstart far permW2 permH2 100%nat Efx Efy FW2 FH2) k s Hs) as Hon.
      split; [exact Hon|]. subst far. apply list_lookup_imap_Some in Hs.
      destruct Hs as (x & _ & ->). reflexivity.
  - exists g', e. destruct Hinv as (Hn & Hf & Hall). repeat split; assumption.
Qed.

Lemma stars_start_and_stay_on_screen_witness :
  exists g0 g' e,
    Starfield.initStarfield (fun n _ => solid (2 * n) (2 * n))
      (seqZ 0 640) (seqZ 0 480) (seqZ 0 640) (seqZ 0 480)
      (Starfield.mkGame false [] []) = Ok g0 /\
    ebiten.RunGame Starfield.Game_Update Starfield.Game_Draw
      [pressing ebiten.KeyLeft; pressing ebiten.KeyUp] g0 = Ok (g', e) /\
    Forall (fun s => on_screen (Starfield.x s) (Starfield.y s) /\ Starfield.radius s = 3)
      (Starfield.nearStars g' ++ Starfield.farStars g').
Proof.
  assert (HW : Forall (fun v => 0 <= v < 640) (seqZ 0 640))
    by (apply Forall_seqZ; intros; lia).
  assert (HH : Forall (fun v => 0 <= v < 480) (seqZ 0 480))
    by (apply Forall_seqZ; intros; lia).
  destruct (stars_start_and_stay_on_screen (fun n _ => solid (2 * n) (2 * n))
              (seqZ 0 640) (seqZ 0 480) (seqZ 0 640) (seqZ 0 480)
              (Starfield.mkGame false [] [])
              [pressing ebiten.KeyLeft; pressing ebiten.KeyUp])
    as (g0 & E0 & _ & _ & _ & _ & g' & e & E & _ & _ & Hall);
    try (unfold len; rewrite length_seqZ; lia); try assumption.
  exists g0, g', e. split; [exact E0|]. split; [exact E|exact Hall].
Defined.

(** ** The hit regions of shapes and stars *)

Lemma centered_drawn_size img a b theta X Y c cx cy :
  unrotated theta ->
  opaque_on_screen
    (ebiten.DrawImage img
       [ebiten.Translate (Fdiv (Fneg (F64_of_int (2 * a))) (Fconst 2))
          (Fdiv (Fneg (F64_of_int (2 * b))) (Fconst 2));
        ebiten.Rotate theta;
        ebiten.Translate (F64_of_int X) (F64_of_int Y)] c) cx cy
  <-> 0 < color.A (ebiten.At img (cx - X + a) (cy - Y + b)).
Proof.
  intros (t & Et & Ht). cbn [opaque_on_screen].
  assert (EG : forall px py,
             GeoM_apply
               [ebiten.Translate (Fdiv (Fneg (F64_of_int (2 * a))) (Fconst 2))
                  (Fdiv (Fneg (F64_of_int (2 * b))) (Fconst 2));
                ebiten.Rotate theta;
                ebiten.Translate (F64_of_int X) (F64_of_int Y)]
               (inject_Z px, inject_Z py)
             = Some
                 (Qplus (Qplus (inject_Z px)
                           (Qdiv (Qopp (inject_Z (2 * a))) (inject_Z 2)))
                    (inject_Z X),
                  Qplus (Qplus (inject_Z py)
                           (Qdiv (Qopp (inject_Z (2 * b))) (inject_Z 2)))
                    (inject_Z Y))).
  { intros px py. cbn [GeoM_apply GeoOp_apply Fvalue mbind option_bind].
    rewrite Et. cbn [mbind option_bind]. rewrite Ht. reflexivity. }
  split.
  - intros (px & py & p & E & H1 & H2 & H). rewrite EG in E. injection E as <-.
    cbn [fst snd] in H1, H2. apply Q_center in H1, H2. now subst px py.
  - intros H. exists (cx - X + a), (cy - Y + b). eexists.
    split; [apply EG|]. cbn [fst snd].
    split; [apply Q_center; lia|]. split; [apply Q_center; lia|exact H].
Qed.

(** X16.  The hit tests of shapes and stars test the picture away from
    where it is drawn.  [Shape.In] adds the full width and height of the
    bitmap where [Shape.Draw] centres it with half of them, so for an
    unrotated shape with a [2a] by [2b] bitmap [In(cx, cy)] holds exactly
    when the drawn picture is opaque at [(cx + a, cy + b)]: the hit region
    is the picture shifted up and left by half its size.  [Star.In] adds
    the radius where [Star.Draw] does not centre at all, so [In(cx, cy)]
    holds exactly when the drawn star is opaque at
    [(cx + radius, cy + radius)]. *)
Theorem hit_regions_of_shapes_and_stars_are_shifted (cx cy : Z) :
  exact_int cx -> exact_int cy ->
  (forall (s : Shapes.Shape) (a b : Z),
     unrotated (Shapes.theta s) ->
     ebiten.Size (Shapes.img s) = (2 * a, 2 * b) ->
     exact_int (Shapes.x s) -> exact_int (Shapes.y s) ->
     exact_int a -> exact_int b ->
     Shapes.Shape_In s cx cy = true
     <-> opaque_on_screen (Shapes.Shape_Draw s) (cx + a) (cy + b)) /\
  (forall (st : Starfield.Star),
     exact_int (Starfield.x st) -> exact_int (Starfield.y st) ->
     exact_int (Starfield.radius st) ->
     Starfield.Star_In st cx cy = true
     <-> opaque_on_screen (Starfield.Star_Draw st)
           (cx + Starfield.radius st) (cy + Starfield.radius st)).
Proof.
  intros Hcx Hcy. split.
  - intros s a b Ht HS Hx Hy Ha Hb.
    unfold Shapes.Shape_In, Shapes.Shape_Draw. rewrite HS.
    rewrite (centered_drawn_size _ a b) by exact Ht.
    rewrite !exact_sub by assumption.
    rewrite !add_id by (unfold exact_int, is_int, int_min, int_max in *; lia).
    rewrite Z.ltb_lt.
    replace (cx + a - Shapes.x s + a) with (cx - Shapes.x s + 2 * a) by lia.
    replace (cy + b - Shapes.y s + b) with (cy - Shapes.y s + 2 * b) by lia.
    reflexivity.
  - intros st Hx Hy Hr.
    unfold Starfield.Star_In, Starfield.Star_Draw. rewrite translate_drawn.
    rewrite !exact_sub by assumption.
    rewrite !add_id by (unfold exact_int, is_int, int_min, int_max in *; lia).
    rewrite Z.ltb_lt.
    replace (cx + Starfield.radius st - Starfield.x st)
      with (cx - Starfield.x st + Starfield.radius st) by lia.
    replace (cy + Starfield.radius st - Starfield.y st)
      with (cy - Starfield.y st + Starfield.radius st) by lia.
    reflexivity.
Qed.

Lemma hit_regions_of_shapes_and_stars_are_shifted_witness :
  Shapes.Shape_In (Shapes.NewShape "Rectangle" 200 200 (Fconst 0) (solid 30 30)) 180 180
  = true
  <-> opaque_on_screen
        (Shapes.Shape_Draw (Shapes.NewShape "Rectangle" 200 200 (Fconst 0) (solid 30 30)))
        (180 + 15) (180 + 15).
Proof.
  apply (proj1 (hit_regions_of_shapes_and_stars_are_shifted 180 180
                  ltac:(unfold exact_int; lia) ltac:(unfold exact_int; lia))
           (Shapes.NewShape "Rectangle" 200 200 (Fconst 0) (solid 30 30)) 15 15).
  - exists 0%Q. split; reflexivity.
  - reflexivity.
  - unfold exact_int. simpl. lia.
  - unfold exact_int. simpl. lia.
  - unfold exact_int. lia.
  - unfold exact_int. lia.
Defined.

(** ** Rotating the active polygon *)

Lemma alter_at {A : Type} (f g : A -> A) (l : list A) n a :
  l !! n = Some a -> f a = g a -> alter f n l = alter g n l.
Proof.
  intros Ha E. apply list_eq. intros j. destruct (decide (j = n)) as [->|Hne].
  - rewrite !list_lookup_alter_eq, Ha. cbn. now rewrite E.
  - now rewrite !list_lookup_alter_ne by congruence.
Qed.

Lemma PolygonMaking_rotation_step k f i g :
  (k = ebiten.KeyE \/ k = ebiten.KeyQ) -> rotation_of k = Some f ->
  holding k i -> PolygonMaking_valid g ->
  PolygonMaking.Game_Update i g
  = Ok (PolygonMaking.mkGame (PolygonMaking.fullscreen g)
          (alter (Polygon_rotate f) (Z.to_nat (PolygonMaking.activePolygon g))
             (PolygonMaking.p g))
          (PolygonMaking.activePolygon g), None).
Proof.
  intros Hk Hf (Hp & Ho & Hj & Hm) Hv.
  rewrite PolygonMaking_Update_eq by now apply valid_index_in_range.
  unfold PolygonMaking_moved, escape_error.
  destruct Hk as [-> | ->]; injection Hf as <-;
    rewrite Hp, !Ho, !Hj, Hm by discriminate; reflexivity.
Qed.

Lemma Polygon_rotate_iter f m a :
  Polygon_rotate (Nat.iter m f) (Polygon_rotate f a) = Polygon_rotate (Nat.iter (S m) f) a.
Proof. unfold Polygon_rotate. cbn [PolygonMaking.theta]. now rewrite iter_succ_r. Qed.

(** X17.  Holding a rotation key turns the active polygon and nothing
    else.  After [n] frames in which [E] (or [Q]) is held and nothing
    else acts, from a valid state, the run has succeeded with [nil]; the
    angle of the active polygon is the result of adding [rotateFactor] to
    it [n] times (for [Q]: subtracting it [n] times), one [float64]
    operation per frame, and the polygon is otherwise as it was; the
    other polygons, the active index and the full-screen flag are
    unchanged.  The hit test of the turned polygon is the one it had
    before. *)
Theorem holding_rotation_key_turns_active_polygon (k : ebiten.Key)
  (f : float -> float) (frames : list ebiten.Input) :
  (k = ebiten.KeyE \/ k = ebiten.KeyQ) -> rotation_of k = Some f ->
  Forall (holding k) frames ->
  forall (g : PolygonMaking.Game) (a : PolygonMaking.Polygon),
    PolygonMaking_valid g ->
    PolygonMaking.p g !! Z.to_nat (PolygonMaking.activePolygon g) = Some a ->
    ebiten.RunGame PolygonMaking.Game_Update PolygonMaking.Game_Draw frames g
    = Ok (PolygonMaking.mkGame (PolygonMaking.fullscreen g)
            (<[Z.to_nat (PolygonMaking.activePolygon g) :=
                 Polygon_rotate (Nat.iter (length frames) f) a]> (PolygonMaking.p g))
            (PolygonMaking.activePolygon g), None) /\
    forall cx cy,
      PolygonMaking.Polygon_In (Polygon_rotate (Nat.iter (length frames) f) a) cx cy
      = PolygonMaking.Polygon_In a cx cy.
Proof.
  intros Hk Hf Hfr. induction Hfr as [|i rest Hi _ IH]; intros g a Hv Ha.
  - cbn [ebiten.RunGame length].
    replace (Polygon_rotate (Nat.iter 0 f) a) with a by (now destruct a).
    rewrite list_insert_id by exact Ha. split; [now destruct g|reflexivity].
  - cbn [ebiten.RunGame length].
    rewrite (PolygonMaking_rotation_step k f i g Hk Hf Hi Hv).
    cbn [mbind result_bind snd fst].
    set (n := Z.to_nat (PolygonMaking.activePolygon g)) in *.
    set (g1 := PolygonMaking.mkGame (PolygonMaking.fullscreen g)
                 (alter (Polygon_rotate f) n (PolygonMaking.p g))
                 (PolygonMaking.activePolygon g)).
    assert (Hv1 : PolygonMaking_valid g1).
    { destruct Hv as [Hr Hmax]. unfold PolygonMaking_valid, valid_index, len in *.
      cbn [g1 PolygonMaking.p PolygonMaking.activePolygon]. now rewrite length_alter. }
    destruct (PolygonMaking_Draw_valid g1 Hv1) as [d Ed]. rewrite Ed.
    cbn [mbind result_bind].
    assert (Ha1 : PolygonMaking.p g1 !! Z.to_nat (PolygonMaking.activePolygon g1)
                  = Some (Polygon_rotate f a)).
    { cbn [g1 PolygonMaking.p PolygonMaking.activePolygon]. fold n.
      now rewrite list_lookup_alter_eq, Ha. }
    destruct (IH g1 (Polygon_rotate f a) Hv1 Ha1) as [E _].
    rewrite E.
    cbn [g1 PolygonMaking.fullscreen PolygonMaking.p PolygonMaking.activePolygon].
    fold n. split; [|reflexivity].
    do 3 f_equal. rewrite Polygon_rotate_iter.
    rewrite !list_insert_alter, list_alter_alter_eq.
    apply (alter_at _ _ _ _ a Ha). reflexivity.
Qed.

Lemma holding_rotation_key_turns_active_polygon_witness :
  ebiten.RunGame PolygonMaking.Game_Update PolygonMaking.Game_Draw
    (replicate 2 (pressing ebiten.KeyE))
    (PolygonMaking.mkGame false
       [PolygonMaking.mkPolygon "Triangle" 0 10 20 (Fconst 0) (solid 40 40);
        PolygonMaking.mkPolygon "Pentagon" 50 50 20 (Fconst 0) (solid 40 40)] 1)
  = Ok (PolygonMaking.mkGame false
          [PolygonMaking.mkPolygon "Triangle" 0 10 20 (Fconst 0) (solid 40 40);
           PolygonMaking.mkPolygon "Pentagon" 50 50 20
             (Fadd (Fadd (Fconst 0) PolygonMaking.rotateFactor)
                PolygonMaking.rotateFactor) (solid 40 40)] 1, None).
Proof.
  exact (proj1 (holding_rotation_key_turns_active_polygon ebiten.KeyE
              (fun t => Fadd t PolygonMaking.rotateFactor)
              (replicate 2 (pressing ebiten.KeyE)) ltac:(now left) eq_refl
              ltac:(apply Forall_replicate; repeat split; try reflexivity;
                    intros k' Hk'; apply bool_decide_eq_false; exact Hk')
              (PolygonMaking.mkGame false
                 [PolygonMaking.mkPolygon "Triangle" 0 10 20 (Fconst 0) (solid 40 40);
                  PolygonMaking.mkPolygon "Pentagon" 50 50 20 (Fconst 0) (solid 40 40)] 1)
              (PolygonMaking.mkPolygon "Pentagon" 50 50 20 (Fconst 0) (solid 40 40))
              ltac:(split; [unfold len; simpl; lia|vm_compute; discriminate])
              eq_refl)).
Defined.

(** ** Colours that are not premultiplied *)

(** X18.  [colorScale] does not clamp.  For a colour whose red component
    exceeds its alpha (which an alpha-premultiplied colour never does)
    the red factor is above 1; so it is for the colour
    [(255, 255, 255, 128)] that [initStarfield] gives the far stars. *)
Theorem colorScale_does_not_clamp (clr : color.Color) (r g b a : Z) :
  Color_RGBA clr = (r, g, b, a) -> 0 < a < r ->
  exists q,
    denotes (fst (fst (fst (colorScale clr)))) q /\
    Qeq q (Qdiv (inject_Z r) (inject_Z a)) /\ Qlt 1 q.
Proof.
  intros E Ha. unfold colorScale. rewrite E.
  destruct (Z.eqb_spec a 0) as [->|Hne]; [lia|]. cbn [fst].
  exists (Qdiv (inject_Z r) (inject_Z a)).
  split; [now apply ratio_denotes|]. split; [reflexivity|].
  apply Qlt_shift_div_l; [unfold Qlt, inject_Z; simpl; lia|].
  rewrite Qmult_1_l. rewrite <- Zlt_Qlt. lia.
Qed.

Lemma colorScale_does_not_clamp_witness :
  exists q,
    denotes (fst (fst (fst (colorScale (color.OfRGBA (color.mkRGBA 255 255 255 128)))))) q /\
    Qeq q (Qdiv (inject_Z 65535) (inject_Z 32896)) /\ Qlt 1 q.
Proof.
  apply (colorScale_does_not_clamp (color.OfRGBA (color.mkRGBA 255 255 255 128))
           65535 65535 65535 32896 eq_refl).
  lia.
Defined.
